(** * email-service: configuration, provider dispatch and Exchange sanitising

    A shallow embedding of the mail service:
    - [Env]: src/config/env.ts (environment parsing, transport defaulting,
      sender resolution, the application settings);
    - [Smtp]: src/services/smtp-service.ts (the relay adapter);
    - [Ews]: src/services/ews-service.ts, lines 1-220 (the Exchange adapter
      and its HTML sanitiser);
    - [Mail]: the dispatcher over both adapters, which follows the Exchange
      adapter in the same file, lines 221-397 ([verifyMailTransporter] and
      [sendMail]);
    - [MailExchange] and [MailRelay]: the earlier revisions of
      services/mail.ts, with one provider each;
    - [Routes], [Server]: the POST /send-email route and the entry point;
    - [Client]: the client class of the service;
    - [Html]: a model of [cheerio.load] on a fragment of HTML, by which the
      sanitiser is followed through a second pass.

    JavaScript strings are modelled as [string], the bytes of their UTF-8
    encoding: [trim] strips the white space of ECMAScript and [stringLength]
    counts UTF-16 code units, while [toLowerCase] is that of JavaScript on
    ASCII letters only. [undefined] is [None], and an exception is the
    [Throw] case of a completion. *)

From Stdlib Require Import ZArith String Ascii List Bool Lia.
From stdpp Require Import base option strings gmap.
Import ListNotations.
Local Open Scope string_scope.

(** ** JavaScript values and completions *)

Module Js.

(** The error classes that occur in the service. Every class of the
    repository extends [Error] directly; [LibraryError] stands for an [Error]
    subclass of a third-party package. *)
Inductive ErrorClass :=
| PlainError
| MailSendError
| SMTPConfigError
| SMTPSendError
| EWSConfigError
| EWSConnectionError
| EWSSendError
| LibraryError (name : string).

(** What a [catch] clause can receive: an [Error] object (class, message and
    [cause], which is [Undefined] when none was given), [undefined], or any
    other thrown value, kept as its [String(value)]. *)
Inductive Value :=
| ErrorObject (cls : ErrorClass) (message : string) (cause : Value)
| Undefined
| NonError (shown : string).

#[global] Instance ErrorClass_eq_dec : EqDecision ErrorClass.
Proof. solve_decision. Defined.

Definition instanceofError (v : Value) : bool :=
  match v with ErrorObject _ _ _ => true | _ => false end.

(** [v instanceof C] for a class [C] of the repository. *)
Definition instanceof (v : Value) (c : ErrorClass) : bool :=
  match v with
  | ErrorObject cls _ _ => bool_decide (cls = c)
  | _ => false
  end.

(** [error.cause] *)
Definition cause_of (v : Value) : Value :=
  match v with ErrorObject _ _ c => c | _ => Undefined end.

(** [error instanceof Error ? error.message : String(error)] *)
Definition messageOf (v : Value) : string :=
  match v with
  | ErrorObject _ m _ => m
  | Undefined => "undefined"
  | NonError s => s
  end.

(** [new C(message)] and [new C(message, { cause })] *)
Definition newError (c : ErrorClass) (message : string) : Value :=
  ErrorObject c message Undefined.
Definition newErrorCause (c : ErrorClass) (message : string) (cause : Value) : Value :=
  ErrorObject c message cause.

(** Completion of a synchronous computation. *)
Inductive Completion (A : Type) :=
| Normal (a : A)
| Throw (v : Value).
Arguments Normal {A} a.
Arguments Throw {A} v.

Definition bind {A B} (c : Completion A) (k : A -> Completion B) : Completion B :=
  match c with Normal a => k a | Throw v => Throw v end.

(** Truthiness of an optional string: [undefined] and [""] are falsy. *)
Definition truthy (s : option string) : bool :=
  match s with Some (String _ _) => true | _ => false end.

(** [a ?? b] *)
Definition nullish {A} (a : option A) (b : A) : A :=
  match a with Some x => x | None => b end.

(** The double-quote character and the line feed, for composed messages. *)
Definition dquote : string := String "034"%char EmptyString.
Definition LF : string := String "010"%char EmptyString.

(** *** Strings

    A string is held as the bytes of its UTF-8 encoding, which is also how a
    string literal of this file is read: a character of the ASCII range is
    one byte, every other character two to four bytes, of which the first
    tells how many follow. *)

Definition byte (c : ascii) : N := N_of_ascii c.

Definition continuation (c : ascii) : bool := (128 <=? byte c)%N && (byte c <? 192)%N.

(** The code point that one, two or three bytes encode, when they are the
    encoding of one; none of the code points that [trim] looks for takes
    four. *)
Definition ofOne (a : ascii) : option N :=
  if (byte a <? 128)%N then Some (byte a) else None.

Definition ofTwo (a b : ascii) : option N :=
  if (194 <=? byte a)%N && (byte a <? 224)%N && continuation b
  then Some ((byte a - 192) * 64 + (byte b - 128))%N
  else None.

Definition ofThree (a b c : ascii) : option N :=
  if (224 <=? byte a)%N && (byte a <? 240)%N && continuation b && continuation c
  then
    let codePoint := ((byte a - 224) * 4096 + (byte b - 128) * 64 + (byte c - 128))%N in
    if (2048 <=? codePoint)%N then Some codePoint else None
  else None.

(** The white space and the line terminators of ECMAScript, which
    [String.prototype.trim] strips: TAB, LF, VT, FF, CR, SPACE, U+00A0,
    U+1680, U+2000 to U+200A, U+2028, U+2029, U+202F, U+205F, U+3000 and
    U+FEFF. *)
Definition isWhiteSpace (codePoint : N) : bool :=
  ((9 <=? codePoint) && (codePoint <=? 13) || (codePoint =? 32)
   || (codePoint =? 0xA0) || (codePoint =? 0x1680)
   || (0x2000 <=? codePoint) && (codePoint <=? 0x200A)
   || (codePoint =? 0x2028) || (codePoint =? 0x2029) || (codePoint =? 0x202F)
   || (codePoint =? 0x205F) || (codePoint =? 0x3000) || (codePoint =? 0xFEFF))%N.

Definition whiteSpace (codePoint : option N) : bool :=
  match codePoint with Some c => isWhiteSpace c | None => false end.

Section Stripping.

(** Whether the next byte, the next two or the next three, in the order in
    which they are met, are a white space character. *)
Variable one : ascii -> bool.
Variable two : ascii -> ascii -> bool.
Variable three : ascii -> ascii -> ascii -> bool.

(** The text starts with a white space character. *)
Definition spaceAhead (s : string) : bool :=
  match s with
  | String a r1 =>
      one a ||
      match r1 with
      | String b r2 =>
          two a b || match r2 with String c _ => three a b c | EmptyString => false end
      | EmptyString => false
      end
  | EmptyString => false
  end.

(** The text without the white space characters it starts with. *)
Fixpoint strip (s : string) : string :=
  match s with
  | String a r1 =>
      if one a then strip r1
      else
        match r1 with
        | String b r2 =>
            if two a b then strip r2
            else
              match r2 with
              | String c r3 => if three a b c then strip r3 else s
              | EmptyString => s
              end
        | EmptyString => s
        end
  | EmptyString => EmptyString
  end.

End Stripping.

Definition space1 (a : ascii) : bool := whiteSpace (ofOne a).
Definition space2 (a b : ascii) : bool := whiteSpace (ofTwo a b).
Definition space3 (a b c : ascii) : bool := whiteSpace (ofThree a b c).

(** The same, for bytes met from the end of the text backwards. *)
Definition space2Back (b a : ascii) : bool := space2 a b.
Definition space3Back (c b a : ascii) : bool := space3 a b c.

Definition trimStart (s : string) : string := strip space1 space2 space3 s.

Definition trimEnd (s : string) : string :=
  String.rev (strip space1 space2Back space3Back (String.rev s)).

(** [String.prototype.trim] *)
Definition trim (s : string) : string := trimEnd (trimStart s).

(** [s.length]: the number of UTF-16 code units of the text. A character of
    one to three bytes is one unit, a character of four bytes is two. *)
Definition codeUnits (c : ascii) : Z :=
  if (byte c <? 128)%N then 1
  else if (byte c <? 192)%N then 0
  else if (byte c <? 240)%N then 1
  else 2.

Fixpoint stringLength (s : string) : Z :=
  match s with
  | String c rest => (codeUnits c + stringLength rest)%Z
  | EmptyString => 0%Z
  end.

(** [String.prototype.toLowerCase] on ASCII letters; every other byte is
    kept. *)
Definition lowerChar (c : ascii) : ascii :=
  let n := nat_of_ascii c in
  if ((65 <=? n)%nat && (n <=? 90)%nat) then ascii_of_nat (n + 32) else c.

Fixpoint toLowerCase (s : string) : string :=
  match s with
  | String c r => String (lowerChar c) (toLowerCase r)
  | EmptyString => EmptyString
  end.

(** [s.startsWith(p)] *)
Definition startsWith (s p : string) : bool := String.prefix p s.

(** [s.includes(p)] *)
Fixpoint includes (s p : string) : bool :=
  String.prefix p s ||
  match s with
  | String _ r => includes r p
  | EmptyString => false
  end.

(** The result of [Number(raw)] as far as [Number.isInteger] tells it apart:
    an integral double, or anything else (NaN, infinities, fractions). *)
Inductive Num :=
| Integral (z : Z)
| NonIntegral.

(** The calls into the JavaScript platform and the zod validator that the
    configuration makes: [Number(raw)], whether [new URL(value)] succeeds
    (with the error it throws otherwise) and whether
    [z.string().email().parse(address)] succeeds. *)
Class Platform := {
  Number : string -> Num;
  newURL : string -> option Value;
  zodEmail : string -> option Value;
}.

End Js.

Import Js.

Notation "'let!' x ':=' c 'in' k" := (Js.bind c (fun x => k))
  (at level 10, x pattern, c at level 100, k at level 200).

(** ** src/config/env.ts *)

Module Env.

Abbreviation ProcessEnv := (gmap string string).

Definition MailProvider := string.

Record MailAuth := { user : string; pass : string }.

(** [BaseTransport & { type: "url" | "smtp", ... }] *)
Inductive MailTransport :=
| UrlTransport (connectionUrl : string) (requireTLS : option bool) (auth : option MailAuth)
| SmtpTransport (host : string) (port : Z) (secure : bool)
                (requireTLS : option bool) (auth : option MailAuth).

Record Sender := { name : string; address : string }.

Record Timeouts := { connection : Z; greeting : Z }.

(** [config.mail.exchange], as read by the Exchange adapter and the
    dispatcher. *)
Record ExchangeConfig := {
  url : string;
  username : string;
  password : string;
  fromEmail : string;
}.

(** [MailConfig]. The fields [exchange] and [defaultProvider] are read by
    the dispatcher and by the Exchange adapter; the revision of env.ts at hand
    builds the first four. *)
Record MailConfig := {
  apiKey : string;
  sender : Sender;
  transport : MailTransport;
  timeouts : Timeouts;
  exchange : option ExchangeConfig;
  defaultProvider : MailProvider;
}.

Definition truthySet : list string := ["1"; "true"; "yes"; "y"; "on"].
Definition falsySet : list string := ["0"; "false"; "no"; "n"; "off"].

Definition has (set : list string) (s : string) : bool :=
  existsb (String.eqb s) set.

Definition optional (env : ProcessEnv) (key : string) : option string :=
  match env !! key with
  | None => None
  | Some value =>
      if negb (truthy (Some value)) then None
      else
        let trimmed := trim value in
        if (0 <? String.length trimmed)%nat then Some trimmed else None
  end.

Definition required (env : ProcessEnv) (key : string) : Completion string :=
  let value := optional env key in
  if negb (truthy value) then
    Throw (newError PlainError ("Missing required environment variable " +:+ key))
  else Normal (default "" value).

Section WithPlatform.
Context {platform : Platform}.

Definition optionalInteger (env : ProcessEnv) (key : string) : Completion (option Z) :=
  match optional env key with
  | None => Normal None
  | Some raw =>
      match Number raw with
      | Integral parsed => Normal (Some parsed)
      | NonIntegral =>
          Throw (newError PlainError
                   ("Expected " +:+ key +:+ " to be an integer, received "
                      +:+ dquote +:+ raw +:+ dquote))
      end
  end.

Definition optionalBoolean (env : ProcessEnv) (key : string) : Completion (option bool) :=
  match optional env key with
  | None => Normal None
  | Some raw =>
      let normalized := toLowerCase raw in
      if has truthySet normalized then Normal (Some true)
      else if has falsySet normalized then Normal (Some false)
      else Throw (newError PlainError
                    ("Expected " +:+ key +:+ " to be a boolean-like value, received "
                       +:+ dquote +:+ raw +:+ dquote))
  end.

Definition validateUrl (value key : string) : Completion string :=
  match newURL value with
  | None => Normal value
  | Some error =>
      Throw (newErrorCause PlainError
               ("Invalid " +:+ key +:+ " " +:+ dquote +:+ value +:+ dquote) error)
  end.

Record ParsedTransport := { p_transport : MailTransport; p_auth : option MailAuth }.

Definition parseMailTransport (env : ProcessEnv) : Completion ParsedTransport :=
  let smtpUrl := optional env "SMTP_URL" in
  let smtpHost := nullish (optional env "SMTP_HOST") "smtp.gmail.com" in
  let! smtpPort := optionalInteger env "SMTP_PORT" in
  let! smtpSecure := optionalBoolean env "SMTP_SECURE" in
  let! smtpRequireTLS := optionalBoolean env "SMTP_REQUIRE_TLS" in
  let explicitUser := optional env "SMTP_USER" in
  let gmailUser := optional env "GMAIL_USER" in
  let user := match explicitUser with Some u => Some u | None => gmailUser end in
  let explicitPassword := optional env "SMTP_PASSWORD" in
  let gmailPassword := optional env "GMAIL_APP_PASSWORD" in
  let password := match explicitPassword with Some p => Some p | None => gmailPassword end in
  if truthy user && negb (truthy password) then
    Throw (newError PlainError
      "SMTP_PASSWORD (or GMAIL_APP_PASSWORD) is required when SMTP_USER (or GMAIL_USER) is provided")
  else
    let auth :=
      if truthy user && truthy password
      then Some {| user := default "" user; pass := default "" password |}
      else None in
    match smtpUrl with
    | Some u =>
        let! connectionUrl := validateUrl u "SMTP_URL" in
        Normal {| p_transport := UrlTransport connectionUrl smtpRequireTLS auth;
                  p_auth := auth |}
    | None =>
        let port := nullish smtpPort
                      (if bool_decide (smtpSecure = Some true) then 465 else 587)%Z in
        let secure := nullish smtpSecure (port =? 465)%Z in
        let requireTLS := nullish smtpRequireTLS (negb secure) in
        Normal {| p_transport := SmtpTransport smtpHost port secure (Some requireTLS) auth;
                  p_auth := auth |}
    end.

Definition parseSender (env : ProcessEnv) (auth : option MailAuth) : Completion Sender :=
  let address :=
    match optional env "MAIL_FROM_ADDRESS" with
    | Some a => Some a
    | None => match auth with Some a => Some (user a) | None => None end
    end in
  if negb (truthy address) then
    Throw (newError PlainError
      "Provide MAIL_FROM_ADDRESS or SMTP_USER/GMAIL_USER to define the sender address")
  else
    match zodEmail (default "" address) with
    | Some error => Throw error
    | None =>
        Normal {| name := nullish (optional env "MAIL_FROM_NAME") "Mail Service";
                  address := default "" address |}
    end.

(** Modelled from the spec: the Exchange settings, for which the env.ts at
    hand has no code. The configuration is present only if all four required
    fields (url, username, password, from-address) are non-empty; a partial
    configuration is treated as absent. The variable names are those of
    PROVIDERS.md. *)
Definition parseExchange (env : ProcessEnv) : option ExchangeConfig :=
  match optional env "EXCHANGE_URL", optional env "EXCHANGE_USERNAME",
        optional env "EXCHANGE_PASSWORD", optional env "EXCHANGE_FROM_EMAIL" with
  | Some u, Some n, Some p, Some f =>
      Some {| url := u; username := n; password := p; fromEmail := f |}
  | _, _, _, _ => None
  end.

(** Modelled from the spec: default provider resolution, for which the env.ts
    at hand has no code. The explicit setting wins; otherwise the Exchange
    provider if the Exchange configuration is present, else the relay. The
    providers are named as the code names them: "ews" and "smtp". *)
Definition resolveDefaultProvider
    (explicit : option MailProvider) (exchange : option ExchangeConfig) : MailProvider :=
  match explicit with
  | Some provider => provider
  | None => match exchange with Some _ => "ews" | None => "smtp" end
  end.

(** [mailConfig]: the transport first, then the API key and the sender, as
    the module evaluates them; the two fields modelled from the spec are added
    from the explicit default-provider setting [explicitProvider], whose
    parsing is not part of the source at hand. *)
Definition mailConfig (env : ProcessEnv) (explicitProvider : option MailProvider)
  : Completion MailConfig :=
  let! parsed := parseMailTransport env in
  let! key := required env "MAIL_SERVICE_API_KEY" in
  let! from := parseSender env (p_auth parsed) in
  let exchangeConfig := parseExchange env in
  Normal {| apiKey := key;
            sender := from;
            transport := p_transport parsed;
            timeouts := {| connection := 10000; greeting := 10000 |};
            exchange := exchangeConfig;
            defaultProvider := resolveDefaultProvider explicitProvider exchangeConfig |}.

End WithPlatform.

(** *** The application settings: the rest of env.ts *)

(** [raw.split(sep)] for a separator of one character: the pieces between
    the separators, at least one. *)
Fixpoint split (sep : ascii) (s : string) : list string :=
  match s with
  | EmptyString => [EmptyString]
  | String c rest =>
      if Ascii.eqb c sep then EmptyString :: split sep rest
      else match split sep rest with
           | piece :: pieces => String c piece :: pieces
           | [] => [String c EmptyString]
           end
  end.

(** The exported [config]. [NodeEnv], [LogLevel] and [LogFormat] are unions
    of string literals, kept as strings. *)
Record AppConfig := {
  nodeEnv : string;
  port : Z;
  logLevel : string;
  logFormat : string;
  corsOrigins : list string;
  mail : MailConfig;
}.

Section Application.
Context {platform : Platform}.

(** How a template literal writes an integral number ([String(value)]). *)
Variable numberToString : Z -> string.

Definition parseNodeEnv (env : ProcessEnv) : Completion string :=
  let raw := toLowerCase <$> optional env "NODE_ENV" in
  if negb (truthy raw) then Normal "development"
  else
    let raw := default "" raw in
    if String.eqb raw "development" || String.eqb raw "test" || String.eqb raw "production"
    then Normal raw
    else Throw (newError PlainError ("Unsupported NODE_ENV " +:+ dquote +:+ raw +:+ dquote)).

Definition parseLogLevel (env : ProcessEnv) : Completion string :=
  let raw := toLowerCase <$> optional env "LOG_LEVEL" in
  if negb (truthy raw) then Normal "info"
  else
    let raw := default "" raw in
    let allowed := ["fatal"; "error"; "warn"; "info"; "debug"; "trace"] in
    if has allowed raw then Normal raw
    else Throw (newError PlainError ("Unsupported LOG_LEVEL " +:+ dquote +:+ raw +:+ dquote)).

Definition parseLogFormat (env : ProcessEnv) (nodeEnv : string) : Completion string :=
  let raw := toLowerCase <$> optional env "LOG_FORMAT" in
  if negb (truthy raw) then
    Normal (if String.eqb nodeEnv "production" then "json" else "pretty")
  else
    let raw := default "" raw in
    if String.eqb raw "json" || String.eqb raw "pretty" then Normal raw
    else Throw (newError PlainError ("Unsupported LOG_FORMAT " +:+ dquote +:+ raw +:+ dquote)).

Definition parsePort (env : ProcessEnv) : Completion Z :=
  let! given := optionalInteger env "PORT" in
  let value := nullish given 3000%Z in
  if (value <? 1)%Z || (value >? 65535)%Z then
    Throw (newError PlainError
             ("PORT must be between 1 and 65535, received " +:+ numberToString value))
  else Normal value.

Definition parseCorsOrigins (env : ProcessEnv) : list string :=
  let raw := optional env "CORS_ORIGINS" in
  if negb (truthy raw) then ["http://localhost:3001"]
  else
    List.filter (fun origin => truthy (Some origin))
                (map (fun origin => trim origin) (split "," (default "" raw))).

(** [config]: the module evaluates the mail settings first, then the node
    environment, then the fields of the exported object in their order. *)
Definition config (env : ProcessEnv) (explicitProvider : option MailProvider)
  : Completion AppConfig :=
  let! mailSettings := mailConfig env explicitProvider in
  let! nodeEnv := parseNodeEnv env in
  let! port := parsePort env in
  let! logLevel := parseLogLevel env in
  let! logFormat := parseLogFormat env nodeEnv in
  Normal {| nodeEnv := nodeEnv;
            port := port;
            logLevel := logLevel;
            logFormat := logFormat;
            corsOrigins := parseCorsOrigins env;
            mail := mailSettings |}.

End Application.

End Env.

(** ** Effects: the singleton transporter, the log and the library calls *)

Module Eff.

(** [SMTPEmailPayload], [EWSEmailPayload] and the options handed to
    nodemailer's [sendMail]. *)
Record SMTPEmailPayload := {
  smtp_to : string;
  smtp_subject : string;
  smtp_text : option string;
  smtp_html : option string;
}.

Record EWSEmailPayload := {
  ews_to : string;
  ews_subject : string;
  ews_text : option string;
  ews_html : option string;
  ews_fromName : option string;
}.

Record MailOptions := {
  mo_from : string;
  mo_to : string;
  mo_subject : string;
  mo_text : option string;
  mo_html : option string;
}.

Record SentMessageInfo := {
  messageId : string;
  accepted : list string;
  rejected : list string;
}.

(** The arguments of [nodemailer.createTransport]. *)
Record SharedOptions := {
  connectionTimeout : Z;
  greetingTimeout : Z;
  opt_requireTLS : option bool;
  opt_auth : option Env.MailAuth;
}.

Inductive Transporter :=
| FromUrl (connectionUrl : string) (defaults : SharedOptions)
| FromOptions (host : string) (port : Z) (secure : bool) (options : SharedOptions).

(** An [ExchangeService] with its credentials and URL, and an [EmailMessage]
    as the adapter fills it. *)
Record ExchangeService := {
  svc_username : string;
  svc_password : string;
  svc_url : string;
}.

Inductive BodyType := HTML | Text.

Record MessageHead := {
  msg_service : ExchangeService;
  msg_fromName : string;
  msg_fromAddress : string;
  msg_to : string;
  msg_subject : string;
}.

Record EmailMessage := {
  msg_head : MessageHead;
  msg_bodyType : BodyType;
  msg_body : string;
}.

(** Entries into the exported functions of the adapters. *)
Inductive Call :=
| CallVerifySmtpTransporter
| CallSendEmailViaSmtp (payload : SMTPEmailPayload)
| CallSendEmailViaEWS (payload : EWSEmailPayload).

(** What a run leaves behind, in order: log lines (level and message),
    adapter entries, and the calls into nodemailer and ews-javascript-api
    that reach the network. *)
Inductive Event :=
| Log (level message : string)
| Enter (call : Call)
| CreateTransport (t : Transporter)
| TransporterVerify (t : Transporter)
| TransporterSendMail (t : Transporter) (options : MailOptions)
| SendAndSaveCopy (message : EmailMessage).

(** The outcome of each library call, by its arguments: [None] (or [Normal])
    when it succeeds, the thrown value when it fails. A run of [sendMail] or
    of [verifyMailTransporter] makes each call at most once. *)
Record World := {
  createTransport : Transporter -> option Value;
  verify : Transporter -> option Value;
  transporterSendMail : Transporter -> MailOptions -> Completion SentMessageInfo;
  newExchangeService : ExchangeService -> option Value;
  newEmailMessage : MessageHead -> option Value;
  newMessageBody : BodyType -> string -> option Value;
  sendAndSaveCopy : EmailMessage -> option Value;
}.

(** The module state of smtp-service.ts ([let transporter]) and the trace. *)
Record State := {
  transporter : option Transporter;
  trace : list Event;
}.

Definition initial : State := {| transporter := None; trace := [] |}.

Definition M (A : Type) : Type := State -> Completion A * State.

Definition ret {A} (a : A) : M A := fun s => (Normal a, s).

Definition throw {A} (v : Value) : M A := fun s => (Throw v, s).

Definition bind {A B} (c : M A) (k : A -> M B) : M B :=
  fun s => match c s with
           | (Normal a, s') => k a s'
           | (Throw v, s') => (Throw v, s')
           end.

(** [try { body } catch (error) { handler }] *)
Definition try_catch {A} (body : M A) (handler : Value -> M A) : M A :=
  fun s => match body s with
           | (Normal a, s') => (Normal a, s')
           | (Throw v, s') => handler v s'
           end.

Definition emit (e : Event) : M unit :=
  fun s => (Normal tt, {| transporter := transporter s; trace := trace s ++ [e] |}).

Definition log (level message : string) : M unit := emit (Log level message).

Definition getState : M State := fun s => (Normal s, s).

Definition setTransporter (t : Transporter) : M unit :=
  fun s => (Normal tt, {| transporter := Some t; trace := trace s |}).

(** A library call that either succeeds or throws. *)
Definition attempt (outcome : option Value) : M unit :=
  match outcome with None => ret tt | Some v => throw v end.

Definition lift {A} (c : Completion A) : M A := fun s => (c, s).

End Eff.

Import Eff.

Declare Scope eff_scope.
Delimit Scope eff_scope with eff.
Notation "'do!' x ':=' c 'in' k" := (Eff.bind c (fun x => k))
  (at level 10, x pattern, c at level 100, k at level 200) : eff_scope.
Notation "c ;; k" := (Eff.bind c (fun _ => k))
  (at level 100, k at level 200, right associativity) : eff_scope.

(** ** src/services/smtp-service.ts *)

Module Smtp.

Section WithConfig.
Variable world : World.
Variable config : Env.MailConfig.
Local Open Scope eff_scope.

Definition getTransporter : M Transporter :=
  do! s := getState in
  match transporter s with
  | Some existing => ret existing
  | None =>
      let transport := Env.transport config in
      let sharedOptions requireTLS auth :=
        {| connectionTimeout := Env.connection (Env.timeouts config);
           greetingTimeout := Env.greeting (Env.timeouts config);
           opt_requireTLS := requireTLS;
           opt_auth := auth |} in
      let created :=
        match transport with
        | Env.UrlTransport connectionUrl requireTLS auth =>
            FromUrl connectionUrl (sharedOptions requireTLS auth)
        | Env.SmtpTransport host port secure requireTLS auth =>
            FromOptions host port secure (sharedOptions requireTLS auth)
        end in
      emit (CreateTransport created) ;;
      attempt (createTransport world created) ;;
      setTransporter created ;;
      ret created
  end.

Definition verifySmtpTransporter : M unit :=
  emit (Enter CallVerifySmtpTransporter) ;;
  try_catch
    (do! t := getTransporter in
     emit (TransporterVerify t) ;;
     attempt (verify world t) ;;
     log "info" "SMTP transporter verified")
    (fun error =>
       log "error" "SMTP transporter verification failed" ;;
       throw (newErrorCause SMTPConfigError "Failed to verify SMTP transporter" error)).

(** The [fromHeader] constant of [sendEmailViaSmtp]. *)
Definition fromHeader : string :=
  let sender := Env.sender config in
  if truthy (Some (Env.name sender))
  then Env.name sender +:+ " <" +:+ Env.address sender +:+ ">"
  else Env.address sender.

Definition sendEmailViaSmtp (payload : SMTPEmailPayload) : M SentMessageInfo :=
  emit (Enter (CallSendEmailViaSmtp payload)) ;;
  let mailOptions :=
    {| mo_from := fromHeader;
       mo_to := smtp_to payload;
       mo_subject := smtp_subject payload;
       mo_text := smtp_text payload;
       mo_html := smtp_html payload |} in
  try_catch
    (do! t := getTransporter in
     emit (TransporterSendMail t mailOptions) ;;
     do! info := lift (transporterSendMail world t mailOptions) in
     log "info" "Email dispatched via SMTP" ;;
     ret info)
    (fun error =>
       log "error" "Failed to send email through SMTP transporter" ;;
       throw (newErrorCause SMTPSendError "Failed to send email via SMTP" error)).

End WithConfig.

End Smtp.

(** ** src/services/ews-service.ts *)

Module Ews.

(** The cheerio calls of the sanitiser: [cheerio.load(html)],
    [$(selector).html()] (the inner HTML of the first match, [null] when
    nothing matches) and [$.html()] (the whole document). *)
Class Cheerio := {
  Document : Type;
  load : string -> Document;
  selectHtml : Document -> string -> option string;
  rootHtml : Document -> string;
}.

(** [a || b] on strings. *)
Definition or_else (a : option string) (b : string) : string :=
  if truthy a then default "" a else b.

Section Sanitizer.
Context {cheerio : Cheerio}.

Definition sanitizeHtmlForEWS (html : string) : string :=
  let doc := load html in
  let styles := or_else (selectHtml doc "head style") "" in
  let bodyContent := or_else (selectHtml doc "body") (rootHtml doc) in
  if truthy (Some styles)
  then "<style>" +:+ styles +:+ "</style>" +:+ LF +:+ bodyContent
  else bodyContent.

End Sanitizer.

Record ResolvedConfig := {
  exchangeUrl : string;
  exchangeUsername : string;
  exchangePassword : string;
  exchangeFromEmail : string;
}.

Section WithConfig.
Context {cheerio : Cheerio}.
Variable world : World.
Variable config : Env.MailConfig.
Local Open Scope eff_scope.

Definition resolveConfig : Completion ResolvedConfig :=
  let exchangeUrl := Env.url <$> Env.exchange config in
  let exchangeUsername := Env.username <$> Env.exchange config in
  let exchangePassword := Env.password <$> Env.exchange config in
  let exchangeFromEmail := Env.fromEmail <$> Env.exchange config in
  if negb (truthy exchangeUrl) then
    Throw (newError EWSConfigError "EXCHANGE_URL is not set")
  else if negb (truthy exchangeUsername) then
    Throw (newError EWSConfigError "EXCHANGE_USERNAME is not set")
  else if negb (truthy exchangePassword) then
    Throw (newError EWSConfigError "EXCHANGE_PASSWORD is not set")
  else if negb (truthy exchangeFromEmail) then
    Throw (newError EWSConfigError "EXCHANGE_FROM_EMAIL is not set")
  else Normal {| exchangeUrl := default "" exchangeUrl;
                 exchangeUsername := default "" exchangeUsername;
                 exchangePassword := default "" exchangePassword;
                 exchangeFromEmail := default "" exchangeFromEmail |}.

Definition createExchangeService (cfg : ResolvedConfig) : M ExchangeService :=
  try_catch
    (let service := {| svc_username := exchangeUsername cfg;
                       svc_password := exchangePassword cfg;
                       svc_url := exchangeUrl cfg |} in
     attempt (newExchangeService world service) ;;
     ret service)
    (fun error =>
       let message := messageOf error in
       throw (newError EWSConfigError ("Failed to create Exchange service: " +:+ message))).

Definition sendEmailViaEWS (payload : EWSEmailPayload) : M unit :=
  emit (Enter (CallSendEmailViaEWS payload)) ;;
  do! cfg := lift resolveConfig in
  do! service :=
    try_catch (createExchangeService cfg)
      (fun error =>
         log "error" "[ews-service] Failed to initialize Exchange service" ;;
         throw error) in
  do! message :=
    try_catch
      (let head := {| msg_service := service;
                      msg_fromName := or_else (ews_fromName payload) "DjazairMed";
                      msg_fromAddress := exchangeFromEmail cfg;
                      msg_to := ews_to payload;
                      msg_subject := ews_subject payload |} in
       attempt (newEmailMessage world head) ;;
       if truthy (ews_html payload) then
         let sanitizedHtml := sanitizeHtmlForEWS (default "" (ews_html payload)) in
         attempt (newMessageBody world HTML sanitizedHtml) ;;
         ret {| msg_head := head; msg_bodyType := HTML; msg_body := sanitizedHtml |}
       else if truthy (ews_text payload) then
         let text := default "" (ews_text payload) in
         attempt (newMessageBody world Text text) ;;
         ret {| msg_head := head; msg_bodyType := Text; msg_body := text |}
       else throw (newError EWSSendError "Email must have either text or html content"))
      (fun error =>
         let message := messageOf error in
         log "error" "[ews-service] Failed to create email message" ;;
         throw (newErrorCause EWSSendError ("Failed to create email message: " +:+ message) error)) in
  try_catch
    (emit (SendAndSaveCopy message) ;;
     attempt (sendAndSaveCopy world message) ;;
     log "info" "[ews-service] Email sent successfully")
    (fun error =>
       let errorMessage := messageOf error in
       log "error" "[ews-service] Failed to send email" ;;
       if includes errorMessage "authentication" || includes errorMessage "credentials" then
         throw (newErrorCause EWSConnectionError
                  "Authentication failed. Please check Exchange credentials." error)
       else if includes errorMessage "timeout" || includes errorMessage "ETIMEDOUT" then
         throw (newErrorCause EWSConnectionError
                  "Connection timeout. Please check Exchange server URL." error)
       else if includes errorMessage "ENOTFOUND" || includes errorMessage "ECONNREFUSED" then
         throw (newErrorCause EWSConnectionError
                  "Cannot reach Exchange server. Please check the URL and network connectivity."
                  error)
       else
         throw (newErrorCause EWSSendError ("Failed to send email: " +:+ errorMessage) error)).

End WithConfig.

End Ews.

(** ** The dispatcher: src/services/ews-service.ts, lines 221-397 *)

Module Mail.

Record SendMailInput := {
  to : string;
  subject : string;
  text : option string;
  html : option string;
  provider : option Env.MailProvider;
}.

Definition DEFAULT_SUBJECT_PREFIX : string := "[Djazairmed]".

(** The [prefixedSubject] constant of [sendMail]. *)
Definition prefixedSubject (subject : string) : string :=
  if startsWith subject DEFAULT_SUBJECT_PREFIX
  then subject
  else DEFAULT_SUBJECT_PREFIX +:+ " " +:+ subject.

(** The [selectedProvider] constant of [sendMail]. *)
Definition selectedProvider (provider : option Env.MailProvider) (config : Env.MailConfig)
  : Env.MailProvider :=
  nullish provider (Env.defaultProvider config).

Section WithConfig.
Context {cheerio : Ews.Cheerio}.
Variable world : World.
Variable config : Env.MailConfig.
Local Open Scope eff_scope.

Definition push_if_error (errors : list Value) (error : Value) : list Value :=
  if instanceofError error then errors ++ [error] else errors.

Definition verifyMailTransporter : M unit :=
  let errors : list Value := [] in
  do! errors :=
    try_catch (Smtp.verifySmtpTransporter world config ;; ret errors)
              (fun error => ret (push_if_error errors error)) in
  do! errors :=
    try_catch
      (match Env.exchange config with
       | None => log "info" "Exchange configuration not set, skipping EWS verification"
       | Some _ => log "info" "Exchange configuration verified"
       end ;;
       ret errors)
      (fun error => ret (push_if_error errors error)) in
  if String.eqb (Env.defaultProvider config) "smtp"
     && existsb (fun e => instanceof e SMTPConfigError) errors then
    log "error" "Default provider (SMTP) failed verification" ;;
    throw (default Undefined (List.find (fun e => instanceof e SMTPConfigError) errors))
  else if String.eqb (Env.defaultProvider config) "ews"
          && negb (bool_decide (is_Some (Env.exchange config))) then
    let error := newError PlainError
                   "Default provider is EWS but Exchange configuration is missing" in
    log "error" "Exchange configuration verification failed" ;;
    throw error
  else
    log "info" "Mail service configured".

Definition sendMail (input : SendMailInput) : M unit :=
  let '{| to := to; subject := subject; text := text; html := html; provider := provider |}
    := input in
  if negb (truthy html) && negb (truthy text) then
    let message := "Missing email content (html/text)" in
    log "error" message ;;
    throw (newError MailSendError message)
  else
    let selectedProvider := selectedProvider provider config in
    log "info" "Sending email" ;;
    if String.eqb selectedProvider "smtp" then
      try_catch
        (let payload := {| smtp_to := to; smtp_subject := subject;
                           smtp_text := text; smtp_html := html |} in
         Smtp.sendEmailViaSmtp world config payload ;;
         log "info" "Mail dispatched via SMTP")
        (fun error =>
           (if instanceof error SMTPSendError || instanceof error SMTPConfigError
            then log "error" "SMTP error"
            else log "error" "Unexpected error while sending email via SMTP") ;;
           throw (newErrorCause MailSendError "Failed to send email via SMTP" error))
    else if String.eqb selectedProvider "ews" then
      if negb (bool_decide (is_Some (Env.exchange config))) then
        let message := "Exchange configuration is not set" in
        log "error" message ;;
        throw (newError MailSendError message)
      else
        let prefixedSubject := prefixedSubject subject in
        let fromName := Env.name (Env.sender config) in
        let payload :=
          {| ews_to := to;
             ews_subject := prefixedSubject;
             ews_fromName := Some fromName;
             ews_text := if truthy text then text else None;
             ews_html := if truthy html then html else None |} in
        try_catch
          (Ews.sendEmailViaEWS world config payload ;;
           log "info" "Mail dispatched via Exchange")
          (fun error =>
             (if instanceof error EWSConfigError then
                log "error" "Exchange configuration error"
              else if instanceof error EWSConnectionError then
                log "error" "Exchange connection error"
              else if instanceof error EWSSendError then
                log "error" "Exchange send error"
              else
                log "error" "Unexpected error while sending email via Exchange") ;;
             throw (newErrorCause MailSendError "Failed to send email via Exchange" error))
    else
      throw (newError MailSendError ("Unsupported provider: " +:+ selectedProvider)).

End WithConfig.

End Mail.

(** ** src/services/mail.ts: the dispatcher of the Exchange-only revision

    The revision of the dispatcher that knows one provider: every mail goes to
    the Exchange adapter. Its [MailSendError] is the class of the same name. *)

Module MailExchange.

Record SendMailInput := {
  to : string;
  subject : string;
  text : option string;
  html : option string;
}.

Definition DEFAULT_SUBJECT_PREFIX : string := "[Djazairmed]".

Section WithConfig.
Context {cheerio : Ews.Cheerio}.
Variable world : World.
Variable config : Env.MailConfig.
Local Open Scope eff_scope.

Definition verifyMailTransporter : M unit :=
  try_catch
    (if negb (bool_decide (is_Some (Env.exchange config))) then
       throw (newError PlainError "Exchange configuration is not set")
     else
       log "info" "Exchange configuration verified")
    (fun error =>
       log "error" "Exchange configuration verification failed" ;;
       throw (newErrorCause PlainError "Failed to verify Exchange configuration" error)).

Definition sendMail (input : SendMailInput) : M unit :=
  let '{| to := to; subject := subject; text := text; html := html |} := input in
  if negb (truthy html) && negb (truthy text) then
    let message := "Missing email content (html/text)" in
    log "error" message ;;
    throw (newError MailSendError message)
  else
    let prefixedSubject :=
      if startsWith subject DEFAULT_SUBJECT_PREFIX
      then subject
      else DEFAULT_SUBJECT_PREFIX +:+ " " +:+ subject in
    let fromName := Env.name (Env.sender config) in
    let payload :=
      {| ews_to := to;
         ews_subject := prefixedSubject;
         ews_fromName := Some fromName;
         ews_text := if truthy text then text else None;
         ews_html := if truthy html then html else None |} in
    try_catch
      (Ews.sendEmailViaEWS world config payload ;;
       log "info" "Mail dispatched via Exchange")
      (fun error =>
         (if instanceof error EWSConfigError then
            log "error" "Exchange configuration error"
          else if instanceof error EWSConnectionError then
            log "error" "Exchange connection error"
          else if instanceof error EWSSendError then
            log "error" "Exchange send error"
          else
            log "error" "Unexpected error while sending email") ;;
         throw (newErrorCause MailSendError "Failed to send email" error)).

End WithConfig.

End MailExchange.

(** ** services/mail.ts: the relay-only revision

    The revision before the adapters were split off: one nodemailer
    transporter, kept in the module, and [sendMail] on top of it. Its
    [getTransporter] has the text of the one in smtp-service.ts, and its
    [fromHeader] the text of the one in [sendEmailViaSmtp]. *)

Module MailRelay.

Record SendMailInput := {
  to : string;
  subject : string;
  text : option string;
  html : option string;
}.

Section WithConfig.
Variable world : World.
Variable config : Env.MailConfig.
Local Open Scope eff_scope.

Definition getTransporter : M Transporter := Smtp.getTransporter world config.

Definition verifyMailTransporter : M unit :=
  try_catch
    (do! t := getTransporter in
     emit (TransporterVerify t) ;;
     attempt (verify world t) ;;
     log "info" "Mail transporter verified")
    (fun error =>
       log "error" "Mail transporter verification failed" ;;
       throw (newErrorCause PlainError "Failed to verify mail transporter" error)).

Definition sendMail (input : SendMailInput) : M SentMessageInfo :=
  let fromHeader := Smtp.fromHeader config in
  let mailOptions :=
    {| mo_from := fromHeader;
       mo_to := to input;
       mo_subject := subject input;
       mo_text := text input;
       mo_html := html input |} in
  try_catch
    (do! t := getTransporter in
     emit (TransporterSendMail t mailOptions) ;;
     do! info := lift (transporterSendMail world t mailOptions) in
     log "info" "Email dispatched" ;;
     ret info)
    (fun error =>
       log "error" "Failed to send email through transporter" ;;
       throw (newErrorCause MailSendError "Failed to send email" error)).

End WithConfig.

End MailRelay.

(** ** routes/email.ts: POST /send-email

    The route of the relay-only revision: the body is checked against
    [mailRequestSchema] by the validator middleware, then the handler compares
    the API key and starts the send in the background. The background send is
    run here to its end before the answer is returned; the answer is built
    without its result. *)

Module Routes.

(** A member of the JSON body, as far as the schema tells values apart: a
    string, or a value of another type. A member that is left out is [None].
    The body is a JSON object; members that the schema does not name are
    dropped. *)
Inductive Json :=
| JString (s : string)
| JOther.

Record Body := {
  body_to : option Json;
  body_subject : option Json;
  body_text : option Json;
  body_html : option Json;
}.

Section Schema.

(** The address format of [z.email()]. *)
Variable isEmail : string -> bool.

(** [z.email()] *)
Definition email (value : Json) : option string :=
  match value with
  | JString s => if isEmail s then Some s else None
  | JOther => None
  end.

(** [z.string().min(least).max(most)]: zod compares the bounds with
    [value.length]. *)
Definition stringOfLength (least most : Z) (value : Json) : option string :=
  match value with
  | JString s =>
      let length := stringLength s in
      if (least <=? length)%Z && (length <=? most)%Z then Some s else None
  | JOther => None
  end.

(** A member that must be there, and [.optional()]. *)
Definition member {A} (check : Json -> option A) (value : option Json) : option A :=
  match value with
  | Some given => check given
  | None => None
  end.

Definition optionalMember {A} (check : Json -> option A) (value : option Json)
  : option (option A) :=
  match value with
  | Some given => match check given with Some a => Some (Some a) | None => None end
  | None => Some None
  end.

(** [mailRequestSchema]: the parsed payload, or [None] when the body has an
    issue. *)
Definition mailRequestSchema (body : Body) : option MailRelay.SendMailInput :=
  match member email (body_to body),
        member (stringOfLength 2 120) (body_subject body),
        optionalMember (stringOfLength 2 1000) (body_text body),
        optionalMember (stringOfLength 2 5000) (body_html body) with
  | Some to, Some subject, Some text, Some html =>
      if truthy text || truthy html
      then Some {| MailRelay.to := to; MailRelay.subject := subject;
                   MailRelay.text := text; MailRelay.html := html |}
      else None
  | _, _, _, _ => None
  end.

End Schema.

(** The answers of the handler: status, message and the request id. *)
Record Response := {
  status : Z;
  message : string;
  requestId : option string;
}.

(** What the route answers: the validator's own rejection of the body, or
    the answer of the handler. *)
Inductive Outcome :=
| Rejected
| Handled (response : Response).

Section WithConfig.
Variable isEmail : string -> bool.
Variable world : World.
Variable config : Env.MailConfig.
Local Open Scope eff_scope.

(** The handler, with the [x-api-key] header and the [requestId] of the
    context. *)
Definition handler (apiKey requestId : option string) (payload : MailRelay.SendMailInput)
  : M Response :=
  if negb (bool_decide (apiKey = Some (Env.apiKey config))) then
    log "warn" "Unauthorized request" ;;
    ret {| status := 401; message := "Unauthorized"; requestId := None |}
  else
    log "info" "Email accepted for background send" ;;
    try_catch
      (do! info := MailRelay.sendMail world config payload in
       log "info" "Email sent successfully")
      (fun error =>
         if instanceof error MailSendError then
           log "error" "Failed to send email"
         else
           log "error" "Unexpected error while sending email") ;;
    ret {| status := 202; message := "Email accepted for delivery"; requestId := requestId |}.

Definition postSendEmail (apiKey requestId : option string) (body : Body) : M Outcome :=
  match mailRequestSchema isEmail body with
  | None => ret Rejected
  | Some payload =>
      do! response := handler apiKey requestId payload in
      ret (Handled response)
  end.

End WithConfig.

End Routes.

(** ** server.ts and index.ts: startup

    [startServer] awaits the verification of whichever revision of
    services/mail.ts it is built with, then serves; the entry point logs a
    rejection and exits with code 1. *)

Module Server.

(** How the entry point ends: serving on a port, or [process.exit(code)]. *)
Inductive Fate :=
| Serving (port : Z)
| Exit (code : Z).

Section WithStartup.
Variable verifyMailTransporter : M unit.
Variable appConfig : Env.AppConfig.
Local Open Scope eff_scope.

(** [startServer]; the result is the port handed to [serve]. *)
Definition startServer : M Z :=
  verifyMailTransporter ;;
  log "info" "Mail service is running" ;;
  ret (Env.port appConfig).

(** [startServer().catch(...)] *)
Definition main : M Fate :=
  try_catch
    (do! port := startServer in ret (Serving port))
    (fun error =>
       log "fatal" "Failed to start mail service" ;;
       ret (Exit 1)).

End WithStartup.

End Server.

(** ** The client of the service: [EmailServiceClient]

    The class that callers copy into their project. [fetch] is the
    platform's; a call of it is recorded with its URL and its options, and the
    methods return their completion together with the calls they made. *)

Module Client.

Record EmailServiceClient := {
  baseUrl : string;
  apiKey : string;
}.

(** [s.replace(/\/$/, '')]: a slash that ends the text is removed, one at
    most. *)
Definition withoutTrailingSlash (s : string) : string :=
  match String.rev s with
  | String "/" rest => String.rev rest
  | _ => s
  end.

(** [new EmailServiceClient({ baseUrl, apiKey })] *)
Definition newClient (configBaseUrl configApiKey : string) : EmailServiceClient :=
  {| baseUrl := withoutTrailingSlash configBaseUrl; apiKey := configApiKey |}.

Record SendEmailRequest := {
  to : string;
  subject : string;
  text : option string;
  html : option string;
  provider : option string;
}.

(** A call of [fetch]: the URL and, of the options, the method, the headers
    and the request that [JSON.stringify] writes into the body. *)
Record FetchCall := {
  url : string;
  method : option string;
  headers : list (string * string);
  body : option SendEmailRequest;
}.

(** A JavaScript value as [||] and [new Error(value)] see it: whether it is
    truthy, and its [String(value)]. *)
Record Seen := {
  isTruthy : bool;
  asString : string;
}.

(** [a || b] *)
Definition orElse (a : option Seen) (b : Seen) : Seen :=
  match a with
  | Some value => if isTruthy value then value else b
  | None => b
  end.

(** An answer of [fetch]: [response.ok], [response.status] and what
    [response.json()] resolves to or rejects with. *)
Record Response (Data : Type) := {
  ok : bool;
  status : Z;
  json : Completion Data;
}.
Arguments ok {Data} _.
Arguments status {Data} _.
Arguments json {Data} _.

(** The platform of the client: the values that [response.json()] resolves
    to, with their members [error] and [message] ([None] for a member that is
    not there; reading a member of [null] throws a [TypeError], with the
    message of the engine); [fetch] itself; and how a template literal writes
    the status. *)
Class Web := {
  Data : Type;
  members : Data -> option (option Seen * option Seen);
  nullMemberMessage : string;
  fetch : FetchCall -> Completion (Response Data);
  numberToString : Z -> string;
}.

Section WithWeb.
Context {web : Web}.

Definition sendEmail (client : EmailServiceClient) (request : SendEmailRequest)
  : Completion Data * list FetchCall :=
  if negb (truthy (text request)) && negb (truthy (html request)) then
    (Throw (newError PlainError "Either text or html must be provided"), [])
  else
    let call :=
      {| url := baseUrl client +:+ "/send-email";
         method := Some "POST";
         headers := [("Content-Type", "application/json"); ("x-api-key", apiKey client)];
         body := Some request |} in
    let attempted : Completion Data :=
      let! response := fetch call in
      if negb (ok response) then
        let errorData :=
          match json response with
          | Normal data => members data
          | Throw _ => Some (None, None)
          end in
        if (status response =? 401)%Z then
          Throw (newError PlainError "Unauthorized: Invalid API key")
        else
          match errorData with
          | None => Throw (newError (LibraryError "TypeError") nullMemberMessage)
          | Some (error, message) =>
              let fallback :=
                {| isTruthy := true;
                   asString := "HTTP error! status: " +:+ numberToString (status response) |} in
              Throw (newError PlainError (asString (orElse error (orElse message fallback))))
          end
      else json response in
    (match attempted with
     | Normal data => Normal data
     | Throw error =>
         if instanceofError error then Throw error
         else Throw (newError PlainError "Failed to send email: Unknown error")
     end,
     [call]).

(** The convenience methods. *)
Definition sendTextViaSMTP (client : EmailServiceClient) (to subject text : string) :=
  sendEmail client {| to := to; subject := subject; text := Some text; html := None;
                      provider := Some "smtp" |}.

Definition sendHtmlViaSMTP (client : EmailServiceClient) (to subject html : string) :=
  sendEmail client {| to := to; subject := subject; text := None; html := Some html;
                      provider := Some "smtp" |}.

Definition sendTextViaEWS (client : EmailServiceClient) (to subject text : string) :=
  sendEmail client {| to := to; subject := subject; text := Some text; html := None;
                      provider := Some "ews" |}.

Definition sendHtmlViaEWS (client : EmailServiceClient) (to subject html : string) :=
  sendEmail client {| to := to; subject := subject; text := None; html := Some html;
                      provider := Some "ews" |}.

Definition healthCheck (client : EmailServiceClient) : bool * list FetchCall :=
  let call :=
    {| url := baseUrl client +:+ "/health"; method := None; headers := []; body := None |} in
  (match fetch call with
   | Normal response => ok response
   | Throw _ => false
   end,
   [call]).

End WithWeb.

End Client.

(** ** A model of [cheerio.load] on a fragment of HTML

    [cheerio.load] parses its argument as a whole document with the tree
    construction of the HTML standard: [html], [head] and [body] are created
    when the markup leaves them out. The model below follows the tokenizer
    states and the insertion modes of that algorithm on a fragment of the
    language: the tags [html], [head], [body] and [style] written without
    attributes; the tags [p], [div], [span], [br] and [img], with
    attributes written as [key="value"]; and ASCII character data with the
    references [&amp;], [&lt;] and [&gt;]. On anything else [parse] answers
    [None]. *)

Module Html.

Definition Attribute : Type := string * string.

#[warnings="-register-all"]
Inductive Node :=
| Element (name : string) (attributes : list Attribute) (children : list Node)
| Text (data : string).

Inductive Token :=
| Chr (c : ascii)
| StartTag (name : string) (attributes : list Attribute)
| EndTag (name : string)
| RawElement (name content : string)  (* a raw text element, start tag to end tag *)
| EOF.

Definition tagNames : list string :=
  ["html"; "head"; "body"; "style"; "p"; "div"; "span"; "br"; "img"].

(** The tags that the fragment has without attributes only. *)
Definition bare : list string := ["html"; "head"; "body"; "style"].

(** The void elements of the fragment: no content and no end tag. *)
Definition void : list string := ["br"; "img"].

Definition isAlpha (c : ascii) : bool :=
  let n := nat_of_ascii c in
  ((65 <=? n)%nat && (n <=? 90)%nat) || ((97 <=? n)%nat && (n <=? 122)%nat).

Definition isDigit (c : ascii) : bool :=
  let n := nat_of_ascii c in
  (48 <=? n)%nat && (n <=? 57)%nat.

(** Characters of the fragment: ASCII without NUL and CR. *)
Definition plainChar (c : ascii) : bool :=
  let n := nat_of_ascii c in
  (n <? 128)%nat && negb (n =? 0)%nat && negb (n =? 13)%nat.

(** TAB, LF, FF and SPACE (CR is outside the fragment). *)
Definition isSpace (c : ascii) : bool :=
  let n := nat_of_ascii c in
  (n =? 9)%nat || (n =? 10)%nat || (n =? 12)%nat || (n =? 32)%nat.

(** The characters of an attribute name in the fragment: letters, digits and
    the hyphen. *)
Definition keyChar (c : ascii) : bool := isAlpha c || isDigit c || Ascii.eqb c "-".

(** The characters of an attribute value in the fragment: all but the
    double quote, which ends the value, and the ampersand and the angle
    brackets. *)
Definition valueChar (c : ascii) : bool :=
  plainChar c && negb (Ascii.eqb c "034") && negb (Ascii.eqb c "&")
  && negb (Ascii.eqb c "<") && negb (Ascii.eqb c ">").

(** The character references of the fragment. *)
Definition references : list (string * ascii) :=
  [("amp", "&"%char); ("lt", "<"%char); ("gt", ">"%char)].

Definition referred (name : string) : option ascii :=
  snd <$> List.find (fun reference => String.eqb (fst reference) name) references.

Definition snoc (s : string) (c : ascii) : string := s +:+ String c EmptyString.

Definition hasKey (key : string) (attributes : list Attribute) : bool :=
  existsb (fun attribute => String.eqb (fst attribute) key) attributes.

(** *** Tokenizer *)

Inductive TokState :=
| Data
| Reference (name : string)
| TagOpen
| EndTagOpen
| TagName (closing : bool) (name : string)
| BeforeAttributeName (name : string) (attributes : list Attribute)
| AttributeName (name : string) (attributes : list Attribute) (key : string)
| BeforeAttributeValue (name : string) (attributes : list Attribute) (key : string)
| AttributeValue (name : string) (attributes : list Attribute) (key value : string)
| AfterAttributeValue (name : string) (attributes : list Attribute)
| Rawtext (content : string)
| RawtextLessThan (content : string)
| RawtextEndTagOpen (content : string)
| RawtextEndTagName (content buffer : string).

(** A character consumed in the RAWTEXT state. *)
Definition rawtextChar (content : string) (c : ascii) : TokState :=
  if Ascii.eqb c "<" then RawtextLessThan content else Rawtext (snoc content c).

Definition emitStart (name : string) (attributes : list Attribute)
  : option (TokState * list Token) :=
  if Env.has tagNames name then
    if Env.has bare name then
      match attributes with
      | [] =>
          if String.eqb name "style" then Some (Rawtext "", [])
          else Some (Data, [StartTag name []])
      | _ :: _ => None
      end
    else Some (Data, [StartTag name attributes])
  else None.

Definition emitEnd (name : string) : option (TokState * list Token) :=
  if Env.has tagNames name then
    if String.eqb name "style" then None else Some (Data, [EndTag name])
  else None.

Definition emitTag (closing : bool) (name : string) : option (TokState * list Token) :=
  if closing then emitEnd name else emitStart name [].

Definition tokenStep (st : TokState) (c : ascii) : option (TokState * list Token) :=
  if negb (plainChar c) then None else
  match st with
  | Data =>
      if Ascii.eqb c "<" then Some (TagOpen, [])
      else if Ascii.eqb c "&" then Some (Reference "", [])
      else Some (Data, [Chr c])
  | Reference name =>
      if Ascii.eqb c ";" then
        match referred name with
        | Some d => Some (Data, [Chr d])
        | None => None
        end
      else if isAlpha c then Some (Reference (snoc name c), [])
      else None
  | TagOpen =>
      if Ascii.eqb c "/" then Some (EndTagOpen, [])
      else if isAlpha c then Some (TagName false (String (lowerChar c) ""), [])
      else None
  | EndTagOpen =>
      if isAlpha c then Some (TagName true (String (lowerChar c) ""), [])
      else None
  | TagName closing name =>
      if Ascii.eqb c ">" then emitTag closing name
      else if isSpace c then
        if closing then None else Some (BeforeAttributeName name [], [])
      else if Ascii.eqb c "/" then None
      else Some (TagName closing (snoc name (lowerChar c)), [])
  | BeforeAttributeName name attributes =>
      if isSpace c then Some (BeforeAttributeName name attributes, [])
      else if Ascii.eqb c ">" then emitStart name attributes
      else if keyChar c then Some (AttributeName name attributes (String (lowerChar c) ""), [])
      else None
  | AttributeName name attributes key =>
      if Ascii.eqb c "=" then Some (BeforeAttributeValue name attributes key, [])
      else if keyChar c then Some (AttributeName name attributes (snoc key (lowerChar c)), [])
      else None
  | BeforeAttributeValue name attributes key =>
      if isSpace c then Some (BeforeAttributeValue name attributes key, [])
      else if Ascii.eqb c "034" then Some (AttributeValue name attributes key "", [])
      else None
  | AttributeValue name attributes key value =>
      if Ascii.eqb c "034" then
        if hasKey key attributes then None
        else Some (AfterAttributeValue name (attributes ++ [(key, value)]), [])
      else if valueChar c then Some (AttributeValue name attributes key (snoc value c), [])
      else None
  | AfterAttributeValue name attributes =>
      if isSpace c then Some (BeforeAttributeName name attributes, [])
      else if Ascii.eqb c ">" then emitStart name attributes
      else None
  | Rawtext content => Some (rawtextChar content c, [])
  | RawtextLessThan content =>
      if Ascii.eqb c "/" then Some (RawtextEndTagOpen content, [])
      else Some (rawtextChar (snoc content "<") c, [])
  | RawtextEndTagOpen content =>
      if isAlpha c then Some (RawtextEndTagName content (String c ""), [])
      else Some (rawtextChar (content +:+ "</") c, [])
  | RawtextEndTagName content buffer =>
      if isAlpha c then Some (RawtextEndTagName content (snoc buffer c), [])
      else if String.eqb (toLowerCase buffer) "style" then
        if Ascii.eqb c ">" then Some (Data, [RawElement "style" content])
        else if isSpace c || Ascii.eqb c "/" then None
        else Some (rawtextChar (content +:+ "</" +:+ buffer) c, [])
      else Some (rawtextChar (content +:+ "</" +:+ buffer) c, [])
  end.

Fixpoint tokenizeFrom (st : TokState) (input : string) : option (list Token) :=
  match input with
  | EmptyString => match st with Data => Some [EOF] | _ => None end
  | String c rest =>
      match tokenStep st c with
      | None => None
      | Some (st', out) =>
          match tokenizeFrom st' rest with
          | None => None
          | Some tokens => Some (out ++ tokens)%list
          end
      end
  end.

Definition tokenize (input : string) : option (list Token) := tokenizeFrom Data input.

(** *** Tree construction *)

Inductive Mode :=
| Initial | BeforeHtml | BeforeHead | InHead | AfterHead
| InBody | AfterBody | AfterAfterBody.

(** An open element with the children it has so far, newest first. *)
Record Frame := {
  f_name : string;
  f_attributes : list Attribute;
  f_children : list Node;
}.

(** The [head] children and the children of [html] between [head] and
    [body] (newest first), and the stack of open elements from the current
    node down to [body]. *)
Record Builder := {
  mode : Mode;
  headRev : list Node;
  gapRev : list Node;
  stack : list Frame;
}.

Definition start : Builder :=
  {| mode := Initial; headRev := []; gapRev := []; stack := [] |}.

Definition setMode (m : Mode) (b : Builder) : Builder :=
  {| mode := m; headRev := headRev b; gapRev := gapRev b; stack := stack b |}.

Definition setStack (st : list Frame) (b : Builder) : Builder :=
  {| mode := mode b; headRev := headRev b; gapRev := gapRev b; stack := st |}.

(** "Insert a character": extend the last child when it is a text node. *)
Definition insertChar (c : ascii) (children : list Node) : list Node :=
  match children with
  | Text d :: rest => Text (snoc d c) :: rest
  | _ => Text (String c "") :: children
  end.

Definition toNode (f : Frame) : Node :=
  Element (f_name f) (f_attributes f) (rev (f_children f)).

Definition addChild (n : Node) (f : Frame) : Frame :=
  {| f_name := f_name f; f_attributes := f_attributes f; f_children := n :: f_children f |}.

Definition onTop (change : list Node -> list Node) (st : list Frame) : list Frame :=
  match st with
  | f :: rest =>
      {| f_name := f_name f; f_attributes := f_attributes f;
         f_children := change (f_children f) |} :: rest
  | [] => []
  end.

Definition rawNode (name content : string) : Node :=
  Element name [] (match content with EmptyString => [] | _ => [Text content] end).

(** Pop elements until one named [name] has been popped; [body], the last
    frame, stays open. *)
Fixpoint popUntil (name : string) (top : Frame) (below : list Frame) : list Frame :=
  match below with
  | [] => [top]
  | g :: rest =>
      let g' := addChild (toNode top) g in
      if String.eqb (f_name top) name then g' :: rest else popUntil name g' rest
  end.

Definition inStack (name : string) (st : list Frame) : bool :=
  existsb (fun f => String.eqb (f_name f) name) st.

Definition popTo (name : string) (st : list Frame) : list Frame :=
  match st with
  | top :: below => if inStack name st then popUntil name top below else st
  | [] => []
  end.

(** Of the elements of the fragment that stay open only [span] is not in
    the "special" category. *)
Definition special (name : string) : bool := negb (String.eqb name "span").

(** "Any other end tag" in body: the nearest open element of that name,
    unless a special element is met first. *)
Fixpoint endTagMatches (name : string) (st : list Frame) : bool :=
  match st with
  | f :: rest =>
      if String.eqb (f_name f) name then true
      else if special (f_name f) then false
      else endTagMatches name rest
  | [] => false
  end.

Definition insertElement (name : string) (attributes : list Attribute) (b : Builder)
  : Builder :=
  setStack ({| f_name := name; f_attributes := attributes; f_children := [] |} :: stack b) b.

(** A void element is inserted and popped at once. *)
Definition insertVoid (name : string) (attributes : list Attribute) (b : Builder) : Builder :=
  setStack (onTop (cons (Element name attributes [])) (stack b)) b.

Definition inBody (b : Builder) (t : Token) : Builder :=
  match t with
  | Chr c => setStack (onTop (insertChar c) (stack b)) b
  | RawElement name content =>
      setStack (onTop (cons (rawNode name content)) (stack b)) b
  | StartTag name attributes =>
      if Env.has ["html"; "body"; "head"] name then b
      else if Env.has ["p"; "div"] name then
        insertElement name attributes (setStack (popTo "p" (stack b)) b)
      else if Env.has void name then insertVoid name attributes b
      else insertElement name attributes b
  | EndTag name =>
      if String.eqb name "body" then setMode AfterBody b
      else if String.eqb name "html" then setMode AfterAfterBody b
      else if String.eqb name "p" then
        if inStack "p" (stack b) then setStack (popTo "p" (stack b)) b
        else setStack (popTo "p" (stack (insertElement "p" [] b))) b
      else if String.eqb name "div" then setStack (popTo "div" (stack b)) b
      else if String.eqb name "br" then insertVoid "br" [] b
      else if endTagMatches name (stack b) then setStack (popTo name (stack b)) b
      else b
  | EOF => b
  end.

(** The end tags that are acted on, not ignored, before the body is open. *)
Definition actedOn (name : string) : bool := Env.has ["body"; "html"; "br"] name.

Definition afterHead (b : Builder) (t : Token) : Builder :=
  let insertBody :=
    setStack [{| f_name := "body"; f_attributes := []; f_children := [] |}]
             (setMode InBody b) in
  match t with
  | Chr c =>
      if isSpace c
      then {| mode := mode b; headRev := headRev b;
              gapRev := insertChar c (gapRev b); stack := stack b |}
      else inBody insertBody t
  | StartTag name _ =>
      if String.eqb name "html" then b
      else if String.eqb name "body" then insertBody
      else if String.eqb name "head" then b
      else inBody insertBody t
  | RawElement name content =>
      {| mode := mode b; headRev := rawNode name content :: headRev b;
         gapRev := gapRev b; stack := stack b |}
  | EndTag name => if actedOn name then inBody insertBody t else b
  | EOF => inBody insertBody t
  end.

Definition inHead (b : Builder) (t : Token) : Builder :=
  match t with
  | Chr c =>
      if isSpace c
      then {| mode := mode b; headRev := insertChar c (headRev b);
              gapRev := gapRev b; stack := stack b |}
      else afterHead (setMode AfterHead b) t
  | StartTag name _ =>
      if String.eqb name "html" then b
      else if String.eqb name "head" then b
      else afterHead (setMode AfterHead b) t
  | RawElement name content =>
      {| mode := mode b; headRev := rawNode name content :: headRev b;
         gapRev := gapRev b; stack := stack b |}
  | EndTag name =>
      if String.eqb name "head" then setMode AfterHead b
      else if actedOn name then afterHead (setMode AfterHead b) t
      else b
  | EOF => afterHead (setMode AfterHead b) t
  end.

Definition beforeHead (b : Builder) (t : Token) : Builder :=
  match t with
  | Chr c => if isSpace c then b else inHead (setMode InHead b) t
  | StartTag name _ =>
      if String.eqb name "html" then b
      else if String.eqb name "head" then setMode InHead b
      else inHead (setMode InHead b) t
  | EndTag name =>
      if String.eqb name "head" || actedOn name then inHead (setMode InHead b) t
      else b
  | RawElement _ _ | EOF => inHead (setMode InHead b) t
  end.

Definition beforeHtml (b : Builder) (t : Token) : Builder :=
  match t with
  | Chr c => if isSpace c then b else beforeHead (setMode BeforeHead b) t
  | StartTag name _ =>
      if String.eqb name "html" then setMode BeforeHead b
      else beforeHead (setMode BeforeHead b) t
  | EndTag name =>
      if String.eqb name "head" || actedOn name then beforeHead (setMode BeforeHead b) t
      else b
  | RawElement _ _ | EOF => beforeHead (setMode BeforeHead b) t
  end.

Definition afterBody (b : Builder) (t : Token) : Builder :=
  match t with
  | Chr c => if isSpace c then inBody b t else inBody (setMode InBody b) t
  | StartTag name _ => if String.eqb name "html" then b else inBody (setMode InBody b) t
  | EndTag name =>
      if String.eqb name "html" then setMode AfterAfterBody b
      else inBody (setMode InBody b) t
  | RawElement _ _ => inBody (setMode InBody b) t
  | EOF => b
  end.

Definition afterAfterBody (b : Builder) (t : Token) : Builder :=
  match t with
  | Chr c => if isSpace c then inBody b t else inBody (setMode InBody b) t
  | StartTag name _ => if String.eqb name "html" then b else inBody (setMode InBody b) t
  | EOF => b
  | _ => inBody (setMode InBody b) t
  end.

Definition treeStep (b : Builder) (t : Token) : Builder :=
  match mode b with
  | Initial =>
      match t with
      | Chr c => if isSpace c then b else beforeHtml (setMode BeforeHtml b) t
      | _ => beforeHtml (setMode BeforeHtml b) t
      end
  | BeforeHtml => beforeHtml b t
  | BeforeHead => beforeHead b t
  | InHead => inHead b t
  | AfterHead => afterHead b t
  | InBody => inBody b t
  | AfterBody => afterBody b t
  | AfterAfterBody => afterAfterBody b t
  end.

(** Close what is still open, down to [body]. *)
Fixpoint closeAll (top : Frame) (below : list Frame) : Node :=
  match below with
  | [] => toNode top
  | g :: rest => closeAll (addChild (toNode top) g) rest
  end.

(** The [html] element of the finished document. *)
Definition document (b : Builder) : Node :=
  let body :=
    match stack b with
    | top :: below => closeAll top below
    | [] => Element "body" [] []
    end in
  Element "html" [] (Element "head" [] (rev (headRev b)) :: (rev (gapRev b) ++ [body])%list).

Definition parse (input : string) : option Node :=
  match tokenize input with
  | Some tokens => Some (document (fold_left treeStep tokens start))
  | None => None
  end.

(** *** Serialising and selecting *)

Fixpoint escapeText (s : string) : string :=
  match s with
  | EmptyString => EmptyString
  | String c r =>
      (if Ascii.eqb c "&" then "&amp;"
       else if Ascii.eqb c "<" then "&lt;"
       else if Ascii.eqb c ">" then "&gt;"
       else String c "") +:+ escapeText r
  end.

Fixpoint escapeValue (s : string) : string :=
  match s with
  | EmptyString => EmptyString
  | String c r =>
      (if Ascii.eqb c "&" then "&amp;"
       else if Ascii.eqb c "034" then "&quot;"
       else String c "") +:+ escapeValue r
  end.

(** An attribute as it is written in a start tag. *)
Definition writeAttribute (attribute : Attribute) : string :=
  " " +:+ fst attribute +:+ "=" +:+ dquote +:+ escapeValue (snd attribute) +:+ dquote.

Definition writeAttributes (attributes : list Attribute) : string :=
  String.concat "" (map writeAttribute attributes).

(** Outer HTML; the text of a [style] element is written as it is, and a
    void element has its start tag only. *)
Fixpoint serialize (raw : bool) (n : Node) : string :=
  match n with
  | Text d => if raw then d else escapeText d
  | Element name attributes children =>
      "<" +:+ name +:+ writeAttributes attributes +:+ ">"
      +:+ (if Env.has void name then ""
           else String.concat "" (map (serialize (String.eqb name "style")) children)
                +:+ "</" +:+ name +:+ ">")
  end.

Definition outerHtml (n : Node) : string := serialize false n.

Definition innerHtml (n : Node) : string :=
  match n with
  | Text d => escapeText d
  | Element name _ children =>
      String.concat "" (map (serialize (String.eqb name "style")) children)
  end.

(** The elements named [name] at or below [n], in document order. *)
Fixpoint elementsNamed (name : string) (n : Node) : list Node :=
  match n with
  | Text _ => []
  | Element nm _ children =>
      ((if String.eqb nm name then [n] else []) ++ flat_map (elementsNamed name) children)%list
  end.

Definition descendantsNamed (name : string) (n : Node) : list Node :=
  match n with
  | Text _ => []
  | Element _ _ children => flat_map (elementsNamed name) children
  end.

(** [$("body").html()] and [$("head style").html()] *)
Definition bodyHtml (doc : Node) : option string :=
  innerHtml <$> head (elementsNamed "body" doc).

Definition headStyleHtml (doc : Node) : option string :=
  innerHtml <$> head (flat_map (descendantsNamed "style") (elementsNamed "head" doc)).

(** The model as an implementation of the calls of the sanitiser. Outside the
    fragment it has no document, and what it answers there says nothing
    about cheerio: the statements use it on markup of the fragment only. *)
Definition model : Ews.Cheerio :=
  {| Ews.Document := option Node;
     Ews.load := parse;
     Ews.selectHtml doc selector :=
       match doc with
       | Some d =>
           if String.eqb selector "body" then bodyHtml d
           else if String.eqb selector "head style" then headStyleHtml d
           else None
       | None => None
       end;
     Ews.rootHtml doc := match doc with Some d => outerHtml d | None => "" end |}.

(** An implementation agrees with the model when its answers on the markup
    of the fragment are those of the model. *)
Definition Agrees (cheerio : Ews.Cheerio) : Prop :=
  forall input doc, parse input = Some doc ->
    Ews.selectHtml (Ews.load input) "head style" = headStyleHtml doc /\
    Ews.selectHtml (Ews.load input) "body" = bodyHtml doc /\
    Ews.rootHtml (Ews.load input) = outerHtml doc.

(** *** Documents that a second parse gives back

    The tokenizer run over a piece of its input, the tokens of a node as it
    is serialised, and the nodes whose serialisation parses to themselves. *)

#[global] Instance Token_eq_dec : EqDecision Token.
Proof. solve_decision. Defined.

#[global] Instance TokState_eq_dec : EqDecision TokState.
Proof. solve_decision. Defined.

Fixpoint tokenRun (st : TokState) (input : string) : option (TokState * list Token) :=
  match input with
  | EmptyString => Some (st, [])
  | String c rest =>
      match tokenStep st c with
      | None => None
      | Some (st', out) =>
          match tokenRun st' rest with
          | None => None
          | Some (st'', out') => Some (st'', (out ++ out')%list)
          end
      end
  end.

Fixpoint tokensOf (n : Node) : list Token :=
  match n with
  | Text d => map Chr (list_ascii_of_string d)
  | Element name attributes children =>
      if String.eqb name "style"
      then [RawElement "style" (String.concat "" (map (serialize true) children))]
      else if Env.has void name then [StartTag name attributes]
      else (StartTag name attributes :: flat_map tokensOf children ++ [EndTag name])%list
  end.

(** Text of the fragment. *)
Fixpoint safeChars (s : string) : bool :=
  match s with
  | EmptyString => true
  | String c r => plainChar c && safeChars r
  end.

Definition safeText (s : string) : bool :=
  match s with
  | EmptyString => false
  | String _ _ => safeChars s
  end.

(** Attributes that are read back as they are written: names of lower-case
    letters, digits and hyphens, no name twice, and values of the
    fragment. *)
Definition lowerKeyChar (c : ascii) : bool :=
  let n := nat_of_ascii c in
  ((97 <=? n)%nat && (n <=? 122)%nat) || isDigit c || Ascii.eqb c "-".

Fixpoint allChars (test : ascii -> bool) (s : string) : bool :=
  match s with
  | EmptyString => true
  | String c r => test c && allChars test r
  end.

Definition plainKey (key : string) : bool :=
  match key with
  | EmptyString => false
  | String _ _ => allChars lowerKeyChar key
  end.

Fixpoint distinctKeys (seen : list Attribute) (attributes : list Attribute) : bool :=
  match attributes with
  | [] => true
  | attribute :: rest =>
      negb (hasKey (fst attribute) seen) && distinctKeys (seen ++ [attribute]) rest
  end.

Definition plainAttributes (attributes : list Attribute) : bool :=
  forallb (fun attribute => plainKey (fst attribute) && allChars valueChar (snd attribute))
          attributes
  && distinctKeys [] attributes.

(** Style text that the RAWTEXT states read back up to its end tag. *)
Definition rawSafe (content : string) : bool :=
  bool_decide (tokenRun (Rawtext "") (content +:+ "</style>")
               = Some (Data, [RawElement "style" content])).

Fixpoint noAdjacentText (l : list Node) : bool :=
  match l with
  | Text _ :: rest =>
      match rest with
      | Text _ :: _ => false
      | _ => noAdjacentText rest
      end
  | Element _ _ _ :: rest => noAdjacentText rest
  | [] => true
  end.

Definition isEmpty {A} (l : list A) : bool :=
  match l with [] => true | _ :: _ => false end.

(** [inP]: a [p] element is open. Inside it no [p] and no [div] may start. *)
Fixpoint stableNode (inP : bool) (n : Node) : bool :=
  match n with
  | Text d => safeText d
  | Element name attributes children =>
      if String.eqb name "span" then
        plainAttributes attributes
        && forallb (stableNode inP) children && noAdjacentText children
      else if String.eqb name "p" then
        plainAttributes attributes
        && negb inP && forallb (stableNode true) children && noAdjacentText children
      else if String.eqb name "div" then
        plainAttributes attributes
        && negb inP && forallb (stableNode false) children && noAdjacentText children
      else if Env.has void name then
        plainAttributes attributes && isEmpty children
      else if String.eqb name "style" then
        isEmpty attributes &&
        match children with
        | [] => true
        | [Text content] => negb (String.eqb content "") && rawSafe content
        | _ => false
        end
      else false
  end.

(** Body content that does not start with white space or a style element. *)
Definition startsSolid (l : list Node) : bool :=
  match l with
  | Text (String c _) :: _ => negb (isSpace c)
  | Element name _ _ :: _ => negb (String.eqb name "style")
  | _ => false
  end.

Definition bodyChildren (doc : Node) : list Node :=
  match head (elementsNamed "body" doc) with
  | Some (Element _ _ children) => children
  | _ => []
  end.

Definition headStyleText (doc : Node) : string :=
  match head (flat_map (descendantsNamed "style") (elementsNamed "head" doc)) with
  | Some n => innerHtml n
  | None => ""
  end.

(** Body content that the sanitiser's output gives back: stable nodes, no
    two texts in a row, and a solid start. *)
Definition stableContent (content : list Node) : bool :=
  forallb (stableNode false) content && noAdjacentText content && startsSolid content.

(** Body content as it is written: [$("body").html()] of a body with these
    children. *)
Definition written (content : list Node) : string := innerHtml (Element "body" [] content).

(** The tokenizer reads [input] from state [st] to state [st'] and emits
    [out]. *)
Definition Reads (st : TokState) (input : string) (st' : TokState) (out : list Token) : Prop :=
  tokenRun st input = Some (st', out).

(** The builder in body, with the [head] children [h], the gap [g] and the
    stack [st]. *)
Definition inBodyState (h g : list Node) (st : list Frame) : Builder :=
  {| mode := InBody; headRev := h; gapRev := g; stack := st |}.

Definition frame (name : string) (attributes : list Attribute) (children : list Node) : Frame :=
  {| f_name := name; f_attributes := attributes; f_children := children |}.

Definition startsWithText (l : list Node) : bool :=
  match l with Text _ :: _ => true | _ => false end.

(** What rebuilding a node means: its tokens add it to the children of the
    current node. *)
Definition Rebuilds (n : Node) : Prop :=
  forall inP h g name attributes children below,
    inStack "p" (frame name attributes children :: below) = inP ->
    stableNode inP n = true ->
    startsWithText [n] && startsWithText children = false ->
    fold_left treeStep (tokensOf n) (inBodyState h g (frame name attributes children :: below))
    = inBodyState h g (frame name attributes (n :: children) :: below).

(** Tokens that open the body when they come first: a character that is not
    white space, or the start of an element of the body. *)
Definition solidToken (t : Token) : bool :=
  match t with
  | Chr c => negb (isSpace c)
  | StartTag name _ => Env.has ["span"; "p"; "div"; "br"; "img"] name
  | _ => false
  end.

End Html.

(** ** Vocabulary of the statements *)

Module Observe.

(** Events of the relay adapter: its entries and its nodemailer calls. *)
Definition smtpAdapterEvent (e : Event) : bool :=
  match e with
  | Enter CallVerifySmtpTransporter | Enter (CallSendEmailViaSmtp _)
  | CreateTransport _ | TransporterVerify _ | TransporterSendMail _ _ => true
  | _ => false
  end.

(** Events of the Exchange adapter: its entry and its network call. *)
Definition ewsAdapterEvent (e : Event) : bool :=
  match e with
  | Enter (CallSendEmailViaEWS _) | SendAndSaveCopy _ => true
  | _ => false
  end.

Definition adapterEvent (e : Event) : bool := smtpAdapterEvent e || ewsAdapterEvent e.

(** A run that starts in [s] and ends in [s'] added the events [added]. *)
Definition added_events (s s' : State) (added : list Event) : Prop :=
  trace s' = (trace s ++ added)%list.

(** Every run of [m] adds only events that satisfy [P]. *)
Definition Emits {A} (P : Event -> bool) (m : M A) : Prop :=
  forall s, exists added, added_events s (snd (m s)) added /\ forallb P added = true.

(** Every run of [m] adds only events that satisfy [P], and a result it
    returns satisfies [R]. *)
Definition Run {A} (P : Event -> Prop) (R : A -> Prop) (m : M A) : Prop :=
  forall s, exists added,
    added_events s (snd (m s)) added
    /\ Forall P added
    /\ forall a, fst (m s) = Normal a -> R a.

(** Whatever [m] throws satisfies [Q]. *)
Definition Throws {A} (Q : Value -> Prop) (m : M A) : Prop :=
  forall s v s', m s = (Throw v, s') -> Q v.

(** The configuration error classes of the repository. *)
Definition isConfigurationError (v : Value) : bool :=
  instanceof v SMTPConfigError || instanceof v EWSConfigError.

(** A configuration error, or an error with one on its cause chain. *)
Fixpoint carriesConfigurationError (v : Value) : bool :=
  isConfigurationError v ||
  match v with
  | ErrorObject _ _ cause => carriesConfigurationError cause
  | _ => false
  end.

Definition contentPresent (input : Mail.SendMailInput) : bool :=
  truthy (Mail.html input) || truthy (Mail.text input).

Definition withProvider (p : option Env.MailProvider) (input : Mail.SendMailInput)
  : Mail.SendMailInput :=
  {| Mail.to := Mail.to input; Mail.subject := Mail.subject input;
     Mail.text := Mail.text input; Mail.html := Mail.html input;
     Mail.provider := p |}.

Definition withDefaultProvider (d : Env.MailProvider) (config : Env.MailConfig)
  : Env.MailConfig :=
  {| Env.apiKey := Env.apiKey config; Env.sender := Env.sender config;
     Env.transport := Env.transport config; Env.timeouts := Env.timeouts config;
     Env.exchange := Env.exchange config; Env.defaultProvider := d |}.

(** The payloads [sendMail] builds for the two adapters. *)
Definition smtpPayload (input : Mail.SendMailInput) : SMTPEmailPayload :=
  {| smtp_to := Mail.to input; smtp_subject := Mail.subject input;
     smtp_text := Mail.text input; smtp_html := Mail.html input |}.

Definition ewsPayload (config : Env.MailConfig) (input : Mail.SendMailInput)
  : EWSEmailPayload :=
  {| ews_to := Mail.to input;
     ews_subject := Mail.prefixedSubject (Mail.subject input);
     ews_fromName := Some (Env.name (Env.sender config));
     ews_text := if truthy (Mail.text input) then Mail.text input else None;
     ews_html := if truthy (Mail.html input) then Mail.html input else None |}.

(** The state in which [sendMail] calls an adapter: after its
    "Sending email" line. *)
Definition dispatching (s : State) : State :=
  {| transporter := transporter s; trace := (trace s ++ [Log "info" "Sending email"])%list |}.

(** The state [s] with one more log line. *)
Definition logged (s : State) (level message : string) : State :=
  {| transporter := transporter s; trace := (trace s ++ [Log level message])%list |}.

(** The line that records the Exchange presence check at startup. *)
Definition exchangeCheckLine (config : Env.MailConfig) : string :=
  match Env.exchange config with
  | None => "Exchange configuration not set, skipping EWS verification"
  | Some _ => "Exchange configuration verified"
  end.

(** Whether a completion is a throw. *)
Definition threw {A} (c : Completion A) : bool :=
  match c with Throw _ => true | Normal _ => false end.

(** The credentials check of [parseMailTransport]: a user comes with a
    password. *)
Definition credentialsComplete (env : gmap string string) : bool :=
  let user := match Env.optional env "SMTP_USER" with
              | Some u => Some u
              | None => Env.optional env "GMAIL_USER"
              end in
  let password := match Env.optional env "SMTP_PASSWORD" with
                  | Some p => Some p
                  | None => Env.optional env "GMAIL_APP_PASSWORD"
                  end in
  negb (truthy user && negb (truthy password)).

(** A sample platform: [Number] on strings of decimal digits, every URL and
    every address accepted. *)
Fixpoint digits (s : string) (acc : Z) : option Z :=
  match s with
  | EmptyString => Some acc
  | String c r =>
      let n := nat_of_ascii c in
      if ((48 <=? n)%nat && (n <=? 57)%nat)
      then digits r (10 * acc + Z.of_nat (n - 48))%Z
      else None
  end.

Definition decimalPlatform : Platform :=
  {| Number raw := match digits raw 0 with Some z => Integral z | None => NonIntegral end;
     newURL _ := None;
     zodEmail _ := None |}.

(** The documents of the sanitiser's examples. *)
Definition styledDocument : string :=
  "<html><head><style>.a{color:red}</style></head><body><p>hi</p></body></html>".

Definition styledFragment : string :=
  "<style>.a{color:red}</style>" +:+ LF +:+ "<p>hi</p>".

Definition styleInBody : string := "<body><style>a</style><p>hi</p></body>".

(** What the sanitiser reads in a markup: its [styles] and its
    [bodyContent]. *)
Definition stylesOf {cheerio : Ews.Cheerio} (html : string) : string :=
  Ews.or_else (Ews.selectHtml (Ews.load html) "head style") "".

Definition bodyContentOf {cheerio : Ews.Cheerio} (html : string) : string :=
  Ews.or_else (Ews.selectHtml (Ews.load html) "body") (Ews.rootHtml (Ews.load html)).

(** A sample implementation that reads more than the model does: a document
    type declaration in front of markup of the fragment, which [$.html()]
    writes back. *)
Definition doctype : string := "<!DOCTYPE html>".

Fixpoint after (start s : string) : option string :=
  match start, s with
  | EmptyString, _ => Some s
  | String a start', String b s' => if Ascii.eqb a b then after start' s' else None
  | String _ _, EmptyString => None
  end.

Definition withDoctype : Ews.Cheerio :=
  {| Ews.Document := bool * option Html.Node;
     Ews.load input :=
       match after doctype input with
       | Some markup => (true, Html.parse markup)
       | None => (false, Html.parse input)
       end;
     Ews.selectHtml doc selector := Ews.selectHtml (Cheerio := Html.model) (snd doc) selector;
     Ews.rootHtml doc :=
       (if fst doc then doctype else "") +:+ Ews.rootHtml (Cheerio := Html.model) (snd doc) |}.

Definition declaredDocument : string := doctype +:+ styledDocument.

(** A sample of body content: attributes, character references and line
    breaks. *)
Definition messageContent : list Html.Node :=
  [Html.Element "div" [("style", "color:#333")]
     [Html.Element "p" [("class", "lead")]
        [Html.Text "Q&A: 1 < 2";
         Html.Element "br" [] [];
         Html.Element "span" [("style", "font-weight:bold")] [Html.Text "hi"]];
      Html.Element "img" [("src", "logo.png"); ("alt", "logo")] []]].

Definition styledMessage : string := Html.written messageContent.

(** A sample configuration (relay only) and sample requests. *)
Definition relayOnly : Env.MailConfig :=
  {| Env.apiKey := "key";
     Env.sender := {| Env.name := "Mail Service"; Env.address := "a@b.com" |};
     Env.transport := Env.SmtpTransport "smtp.gmail.com" 587 false (Some true) None;
     Env.timeouts := {| Env.connection := 10000; Env.greeting := 10000 |};
     Env.exchange := None;
     Env.defaultProvider := "smtp" |}.

Definition withExchange : Env.MailConfig :=
  {| Env.apiKey := "key";
     Env.sender := {| Env.name := "Mail Service"; Env.address := "a@b.com" |};
     Env.transport := Env.SmtpTransport "smtp.gmail.com" 587 false (Some true) None;
     Env.timeouts := {| Env.connection := 10000; Env.greeting := 10000 |};
     Env.exchange := Some {| Env.url := "https://mail.example.com/EWS/Exchange.asmx";
                             Env.username := "svc"; Env.password := "pw";
                             Env.fromEmail := "svc@example.com" |};
     Env.defaultProvider := "ews" |}.

Definition request (text html : option string) (provider : option Env.MailProvider)
  : Mail.SendMailInput :=
  {| Mail.to := "a@b.com"; Mail.subject := "Hello";
     Mail.text := text; Mail.html := html; Mail.provider := provider |}.

(** A world in which every library call succeeds, and one in which the
    network calls fail. *)
Definition calm : World :=
  {| createTransport _ := None;
     verify _ := None;
     transporterSendMail _ _ :=
       Normal {| messageId := "<1@b.com>"; accepted := ["a@b.com"]; rejected := [] |};
     newExchangeService _ := None;
     newEmailMessage _ := None;
     newMessageBody _ _ := None;
     sendAndSaveCopy _ := None |}.

Definition stormy : World :=
  {| createTransport _ := None;
     verify _ := Some (newError PlainError "connect ECONNREFUSED");
     transporterSendMail _ _ := Throw (newError PlainError "connect ECONNREFUSED");
     newExchangeService _ := None;
     newEmailMessage _ := None;
     newMessageBody _ _ := None;
     sendAndSaveCopy _ := Some (newError PlainError "connect ETIMEDOUT") |}.

End Observe.

Import Observe.

(** ** Vocabulary of the further properties *)

Module Describe.

(** *** Strings and settings *)

(** The text starts, or ends, with a character that [trim] strips. *)
Definition startsWithSpace (s : string) : bool := spaceAhead space1 space2 space3 s.

Definition endsWithSpace (s : string) : bool :=
  spaceAhead space1 space2Back space3Back (String.rev s).

(** No white space at either end. *)
Definition trimmed (s : string) : bool :=
  negb (startsWithSpace s) && negb (endsWithSpace s).

(** The no-break space U+00A0 and the byte order mark U+FEFF, as they are
    held. *)
Definition noBreakSpace : string := String "194" (String "160" "").
Definition byteOrderMark : string := String "239" (String "187" (String "191" "")).

(** The character [c] occurs in [s]. *)
Fixpoint mentions (c : ascii) (s : string) : bool :=
  match s with
  | String d rest => Ascii.eqb d c || mentions c rest
  | EmptyString => false
  end.

(** [a ?? b] on optional values. *)
Definition firstOf {A} (a b : option A) : option A :=
  match a with Some x => Some x | None => b end.

(** [transport.auth] *)
Definition transportAuth (t : Env.MailTransport) : option Env.MailAuth :=
  match t with
  | Env.UrlTransport _ _ auth => auth
  | Env.SmtpTransport _ _ _ _ auth => auth
  end.

(** A sample [String(value)]: the decimal digits, with a sign. *)
Definition decimal (z : Z) : string := pretty.pretty z.

(** Sample environments: production behind a given port, and a relay given
    by its URL. *)
Definition production : gmap string string :=
  {[ "MAIL_SERVICE_API_KEY" := "key"; "MAIL_FROM_ADDRESS" := "a@b.com";
     "NODE_ENV" := " Production "; "PORT" := "8080" ]}.

Definition relayByUrl : gmap string string :=
  {[ "SMTP_URL" := " smtps://relay.example.com:465 ";
     "SMTP_USER" := "u"; "SMTP_PASSWORD" := "p" ]}.

(** *** The dispatcher and the adapters *)

(** The options with which the relay path of [sendMail] calls nodemailer. *)
Definition relayOptions (config : Env.MailConfig) (input : Mail.SendMailInput) : MailOptions :=
  {| mo_from := Smtp.fromHeader config;
     mo_to := Mail.to input;
     mo_subject := Mail.subject input;
     mo_text := Mail.text input;
     mo_html := Mail.html input |}.

(** Whether the Exchange configuration is present with its four fields
    non-empty, as [resolveConfig] asks. *)
Definition exchangeComplete (config : Env.MailConfig) : bool :=
  match Env.exchange config with
  | Some exchange =>
      truthy (Some (Env.url exchange)) && truthy (Some (Env.username exchange))
      && truthy (Some (Env.password exchange)) && truthy (Some (Env.fromEmail exchange))
  | None => false
  end.

(** The settings that [resolveConfig] asks for, in the order in which it
    asks, each with its value in the configuration. *)
Definition exchangeSettings (config : Env.MailConfig) : list (string * option string) :=
  [("EXCHANGE_URL", Env.url <$> Env.exchange config);
   ("EXCHANGE_USERNAME", Env.username <$> Env.exchange config);
   ("EXCHANGE_PASSWORD", Env.password <$> Env.exchange config);
   ("EXCHANGE_FROM_EMAIL", Env.fromEmail <$> Env.exchange config)].

(** The first of them that is missing or empty. *)
Definition firstMissing (config : Env.MailConfig) : option string :=
  fst <$> List.find (fun setting => negb (truthy (snd setting))) (exchangeSettings config).

(** The payload with which the Exchange-only [sendMail] enters the adapter. *)
Definition exchangeOnlyPayload (config : Env.MailConfig) (input : MailExchange.SendMailInput)
  : EWSEmailPayload :=
  {| ews_to := MailExchange.to input;
     ews_subject := Mail.prefixedSubject (MailExchange.subject input);
     ews_fromName := Some (Env.name (Env.sender config));
     ews_text := if truthy (MailExchange.text input) then MailExchange.text input else None;
     ews_html := if truthy (MailExchange.html input) then MailExchange.html input else None |}.

(** The transporter that [getTransporter] creates from the configuration. *)
Definition relayTransporter (config : Env.MailConfig) : Transporter :=
  let shared requireTLS auth :=
    {| connectionTimeout := Env.connection (Env.timeouts config);
       greetingTimeout := Env.greeting (Env.timeouts config);
       opt_requireTLS := requireTLS;
       opt_auth := auth |} in
  match Env.transport config with
  | Env.UrlTransport connectionUrl requireTLS auth =>
      FromUrl connectionUrl (shared requireTLS auth)
  | Env.SmtpTransport host port secure requireTLS auth =>
      FromOptions host port secure (shared requireTLS auth)
  end.

(** The step at which the relay verification fails when it starts in the
    state [s], by the error of that step: the creation of the transporter,
    when none is held yet, or else the transporter's [verify]. *)
Definition failedStep (world : World) (config : Env.MailConfig) (s : State) : option Value :=
  match transporter s with
  | Some held => verify world held
  | None =>
      match createTransport world (relayTransporter config) with
      | Some error => Some error
      | None => verify world (relayTransporter config)
      end
  end.

(** The state [s] after the entry into an adapter. *)
Definition entered (s : State) (call : Call) : State :=
  {| transporter := transporter s; trace := (trace s ++ [Enter call])%list |}.

(** The words by which [sendEmailViaEWS] takes a failed send for a
    connection failure. *)
Definition connectionMarkers : list string :=
  ["authentication"; "credentials"; "timeout"; "ETIMEDOUT"; "ENOTFOUND"; "ECONNREFUSED"].

Definition connectionFailure (message : string) : bool :=
  existsb (includes message) connectionMarkers.

(** A message handed to Exchange. *)
Definition submission (e : Event) : bool :=
  match e with SendAndSaveCopy _ => true | _ => false end.

(** An event of a run that goes through the transporter [t] and creates
    none. *)
Definition reuses (t : Transporter) (e : Event) : Prop :=
  match e with
  | CreateTransport _ => False
  | TransporterVerify used | TransporterSendMail used _ => used = t
  | _ => True
  end.

(** Started with the transporter [t] in the module variable, [m] ends with
    it, adds only events that reuse it, and returns results that satisfy
    [R]. *)
Definition Holding {A} (t : Transporter) (R : A -> Prop) (m : M A) : Prop :=
  forall s, transporter s = Some t ->
    transporter (snd (m s)) = Some t
    /\ (exists added, added_events s (snd (m s)) added /\ Forall (reuses t) added)
    /\ forall a, fst (m s) = Normal a -> R a.

(** [m] neither reads nor writes the state: its completion [r] and the
    events [added] are the same from every state, and the transporter
    stays. *)
Definition Stateless {A} (m : M A) (r : Completion A) (added : list Event) : Prop :=
  forall s, m s = (r, {| transporter := transporter s; trace := (trace s ++ added)%list |}).

(** A request of the dispatcher of both providers as a request of the
    Exchange-only dispatcher. *)
Definition withoutProvider (input : Mail.SendMailInput) : MailExchange.SendMailInput :=
  {| MailExchange.to := Mail.to input; MailExchange.subject := Mail.subject input;
     MailExchange.text := Mail.text input; MailExchange.html := Mail.html input |}.

(** Sample configurations and worlds: an Exchange configuration without its
    password, a transporter in place, and an Exchange server that refuses the
    credentials in words that start with a capital letter. *)
Definition withoutPassword : Env.MailConfig :=
  {| Env.apiKey := "key";
     Env.sender := {| Env.name := "Mail Service"; Env.address := "a@b.com" |};
     Env.transport := Env.SmtpTransport "smtp.gmail.com" 587 false (Some true) None;
     Env.timeouts := {| Env.connection := 10000; Env.greeting := 10000 |};
     Env.exchange := Some {| Env.url := "https://mail.example.com/EWS/Exchange.asmx";
                             Env.username := "svc"; Env.password := "";
                             Env.fromEmail := "svc@example.com" |};
     Env.defaultProvider := "ews" |}.

Definition inPlace : Transporter :=
  FromOptions "smtp.gmail.com" 587 false
    {| connectionTimeout := 10000; greetingTimeout := 10000;
       opt_requireTLS := Some true; opt_auth := None |}.

Definition refusing : World :=
  {| createTransport _ := None;
     verify _ := None;
     transporterSendMail _ _ := Throw (NonError "rejected");
     newExchangeService _ := None;
     newEmailMessage _ := None;
     newMessageBody _ _ := None;
     sendAndSaveCopy _ := Some (newError PlainError "Authentication failed") |}.

Definition textOnly : EWSEmailPayload :=
  {| ews_to := "a@b.com"; ews_subject := "[Djazairmed] Hello";
     ews_text := Some "hey"; ews_html := None; ews_fromName := Some "Mail Service" |}.

Definition contentless : EWSEmailPayload :=
  {| ews_to := "a@b.com"; ews_subject := "[Djazairmed] Hello";
     ews_text := None; ews_html := Some ""; ews_fromName := None |}.

(** *** The sanitiser *)

(** Text of white space only (TAB, LF, FF, SPACE), the empty text too. *)
Fixpoint blank (s : string) : bool :=
  match s with
  | EmptyString => true
  | String c rest => Html.isSpace c && blank rest
  end.

(** The document that [cheerio.load] makes of no markup at all. *)
Definition emptyDocument : string := "<html><head></head><body></body></html>".

(** *** The route *)

(** The answers of the handler. *)
Definition unauthorized : Routes.Response :=
  {| Routes.status := 401; Routes.message := "Unauthorized"; Routes.requestId := None |}.

Definition acceptedForDelivery (requestId : option string) : Routes.Response :=
  {| Routes.status := 202; Routes.message := "Email accepted for delivery";
     Routes.requestId := requestId |}.

(** The options with which the relay-only [sendMail] calls nodemailer. *)
Definition mailOptionsOf (config : Env.MailConfig) (payload : MailRelay.SendMailInput)
  : MailOptions :=
  {| mo_from := Smtp.fromHeader config;
     mo_to := MailRelay.to payload;
     mo_subject := MailRelay.subject payload;
     mo_text := MailRelay.text payload;
     mo_html := MailRelay.html payload |}.

(** A member of the body that is the string [s], of a length within the
    bounds. *)
Definition textWithin (least most : Z) (value : option Routes.Json) (s : string) : Prop :=
  value = Some (Routes.JString s) /\ (least <= stringLength s <= most)%Z.

(** Sample bodies: a body with a given subject; a body and its payload. *)
Definition titled (subject : string) : Routes.Body :=
  {| Routes.body_to := Some (Routes.JString "a@b.com");
     Routes.body_subject := Some (Routes.JString subject);
     Routes.body_text := Some (Routes.JString "hey");
     Routes.body_html := None |}.

Definition hello : Routes.Body :=
  {| Routes.body_to := Some (Routes.JString "a@b.com");
     Routes.body_subject := Some (Routes.JString "Hello");
     Routes.body_text := Some (Routes.JString "hey");
     Routes.body_html := None |}.

Definition helloPayload : MailRelay.SendMailInput :=
  {| MailRelay.to := "a@b.com"; MailRelay.subject := "Hello";
     MailRelay.text := Some "hey"; MailRelay.html := None |}.

(** *** The client *)

(** The call of [fetch] that [sendEmail] makes. *)
Definition posted (client : Client.EmailServiceClient) (request : Client.SendEmailRequest)
  : Client.FetchCall :=
  {| Client.url := Client.baseUrl client +:+ "/send-email";
     Client.method := Some "POST";
     Client.headers := [("Content-Type", "application/json");
                        ("x-api-key", Client.apiKey client)];
     Client.body := Some request |}.

(** Whether a text ends with a slash. *)
Definition endsWithSlash (s : string) : bool :=
  match String.rev s with String "/" _ => true | _ => false end.

Definition note : Client.SendEmailRequest :=
  {| Client.to := "a@b.com"; Client.subject := "Hello"; Client.text := Some "hey";
     Client.html := None; Client.provider := None |}.

(** A sample platform: no network, every call of [fetch] rejects. *)
Definition offline : Client.Web :=
  {| Client.Data := unit;
     Client.members _ := Some (None, None);
     Client.nullMemberMessage := "Cannot read properties of null";
     Client.fetch _ := Throw (NonError "offline");
     Client.numberToString := decimal |}.

End Describe.

Import Describe.

(** * Properties *)

(** ** Reasoning about runs *)

Section Runs.
Context {A B : Type}.
Variable P : Event -> bool.
Variable Q : Value -> Prop.

Lemma Emits_ret (a : A) : Emits P (ret a).
Proof. intros s. exists []. split; [unfold added_events; cbn; now rewrite app_nil_r | easy]. Qed.

Lemma Emits_throw (v : Value) : Emits P (@throw A v).
Proof. intros s. exists []. split; [unfold added_events; cbn; now rewrite app_nil_r | easy]. Qed.

Lemma Emits_lift (c : Completion A) : Emits P (lift c).
Proof. intros s. exists []. split; [unfold added_events; cbn; now rewrite app_nil_r | easy]. Qed.

Lemma Emits_bind (m : M A) (k : A -> M B) :
  Emits P m -> (forall a, Emits P (k a)) -> Emits P (Eff.bind m k).
Proof.
  intros Hm Hk s. unfold Eff.bind.
  destruct (Hm s) as (e1 & H1 & F1). destruct (m s) as [[a|v] s1]; cbn in *.
  - destruct (Hk a s1) as (e2 & H2 & F2). exists (e1 ++ e2)%list. split.
    + unfold added_events in *. rewrite H2, H1. now rewrite app_assoc.
    + rewrite forallb_app, F1, F2. reflexivity.
  - exists e1. auto.
Qed.

Lemma Emits_try_catch (m : M A) (h : Value -> M A) :
  Emits P m -> (forall v, Emits P (h v)) -> Emits P (try_catch m h).
Proof.
  intros Hm Hh s. unfold try_catch.
  destruct (Hm s) as (e1 & H1 & F1). destruct (m s) as [[a|v] s1]; cbn in *.
  - exists e1. auto.
  - destruct (Hh v s1) as (e2 & H2 & F2). exists (e1 ++ e2)%list. split.
    + unfold added_events in *. rewrite H2, H1. now rewrite app_assoc.
    + rewrite forallb_app, F1, F2. reflexivity.
Qed.

Lemma Throws_ret (a : A) : Throws Q (ret a).
Proof. intros s v s' H. discriminate. Qed.

Lemma Throws_throw (v : Value) : Q v -> Throws Q (@throw A v).
Proof. intros Hq s v' s' H. injection H as <- _. exact Hq. Qed.

Lemma Throws_bind (m : M A) (k : A -> M B) :
  Throws Q m -> (forall a, Throws Q (k a)) -> Throws Q (Eff.bind m k).
Proof.
  intros Hm Hk s v s'. unfold Eff.bind.
  destruct (m s) as [[a|w] s1] eqn:E.
  - apply Hk.
  - intros H. injection H as <- _. eapply Hm, E.
Qed.

Lemma Throws_try_catch (m : M A) (h : Value -> M A) :
  (forall v, Throws Q (h v)) -> Throws Q (try_catch m h).
Proof.
  intros Hh s v s'. unfold try_catch.
  destruct (m s) as [[a|w] s1]; [discriminate | apply Hh].
Qed.

End Runs.

Lemma Emits_emit (P : Event -> bool) (e : Event) : P e = true -> Emits P (emit e).
Proof.
  intros He s. exists [e]. split; [reflexivity | cbn; now rewrite He].
Qed.

Lemma Emits_log (P : Event -> bool) (level message : string) :
  P (Log level message) = true -> Emits P (log level message).
Proof. apply Emits_emit. Qed.

Lemma Emits_attempt (P : Event -> bool) (o : option Value) : Emits P (attempt o).
Proof. destruct o; [apply Emits_throw | apply Emits_ret]. Qed.

Lemma Emits_getState (P : Event -> bool) : Emits P getState.
Proof. intros s. exists []. split; [unfold added_events; cbn; now rewrite app_nil_r | easy]. Qed.

Lemma Emits_setTransporter (P : Event -> bool) (t : Transporter) : Emits P (setTransporter t).
Proof. intros s. exists []. split; [unfold added_events; cbn; now rewrite app_nil_r | easy]. Qed.

Lemma Throws_emit (Q : Value -> Prop) (e : Event) : Throws Q (emit e).
Proof. intros s v s' H. discriminate. Qed.

Lemma Throws_log (Q : Value -> Prop) (level message : string) : Throws Q (log level message).
Proof. apply Throws_emit. Qed.

Create HintDb runs discriminated.
#[export] Hint Resolve Emits_ret Emits_throw Emits_lift Emits_attempt Emits_getState
  Emits_setTransporter Throws_ret Throws_emit Throws_log : runs.

(** Walks a computation along its binds, handlers and branches. *)
Ltac walk :=
  repeat first
    [ apply Emits_bind; [ | intros ? ]
    | apply Emits_try_catch; [ | intros ? ]
    | apply Emits_emit; reflexivity
    | apply Emits_log; reflexivity
    | apply Throws_bind; [ | intros ? ]
    | apply Throws_try_catch; intros ?
    | apply Throws_throw
    | solve [ auto with runs ]
    | match goal with
      | |- Emits _ (match ?x with _ => _ end) => destruct x
      | |- Throws _ (match ?x with _ => _ end) => destruct x
      end ].

(** ** The adapters *)

Section Adapters.
Context {cheerio : Ews.Cheerio}.
Variable world : World.
Variable config : Env.MailConfig.

Lemma getTransporter_emits (P : Event -> bool) :
  (forall t, P (CreateTransport t) = true) ->
  Emits P (Smtp.getTransporter world config).
Proof.
  intros Hp. unfold Smtp.getTransporter. walk.
  all: apply Emits_emit, Hp.
Qed.

(** The relay adapter adds no event of the Exchange adapter. *)
Lemma sendEmailViaSmtp_emits (payload : SMTPEmailPayload) :
  Emits (fun e => negb (ewsAdapterEvent e)) (Smtp.sendEmailViaSmtp world config payload).
Proof.
  unfold Smtp.sendEmailViaSmtp. walk.
Qed.

Lemma verifySmtpTransporter_emits :
  Emits (fun e => negb (ewsAdapterEvent e)) (Smtp.verifySmtpTransporter world config).
Proof.
  unfold Smtp.verifySmtpTransporter. walk.
Qed.

(** The Exchange adapter adds no event of the relay adapter. *)
Lemma sendEmailViaEWS_emits (payload : EWSEmailPayload) :
  Emits (fun e => negb (smtpAdapterEvent e)) (Ews.sendEmailViaEWS world config payload).
Proof.
  unfold Ews.sendEmailViaEWS, Ews.createExchangeService. walk.
Qed.

(** X4. Every error that leaves [sendEmailViaSmtp] is an [SMTPSendError]. *)
Lemma sendEmailViaSmtp_throws (payload : SMTPEmailPayload) :
  Throws (fun v => instanceof v SMTPSendError = true)
         (Smtp.sendEmailViaSmtp world config payload).
Proof. unfold Smtp.sendEmailViaSmtp. walk. Qed.

(** Every error that leaves [verifySmtpTransporter] is an [SMTPConfigError]. *)
Lemma verifySmtpTransporter_throws :
  Throws (fun v => instanceof v SMTPConfigError = true)
         (Smtp.verifySmtpTransporter world config).
Proof. unfold Smtp.verifySmtpTransporter. walk. Qed.

End Adapters.

Lemma Emits_after_emit {A} (P : Event -> bool) (e : Event) (m : M A) (s : State) :
  Emits P m ->
  exists rest, added_events s (snd (Eff.bind (emit e) (fun _ => m) s)) (e :: rest)
               /\ forallb P rest = true.
Proof.
  intros Hm. unfold Eff.bind, emit.
  destruct (Hm {| transporter := transporter s; trace := (trace s ++ [e])%list |})
    as (rest & Hr & Fr).
  exists rest. split; [ | exact Fr ].
  unfold added_events in *. rewrite Hr. cbn. now rewrite <- app_assoc.
Qed.

(** ** [sendMail] *)

Arguments Smtp.sendEmailViaSmtp : simpl never.
Arguments Smtp.verifySmtpTransporter : simpl never.
Arguments Ews.sendEmailViaEWS : simpl never.

Section Dispatch.
Context {cheerio : Ews.Cheerio}.
Variable world : World.
Variable config : Env.MailConfig.

Lemma sendMail_without_content (input : Mail.SendMailInput) (s : State) :
  contentPresent input = false ->
  Mail.sendMail world config input s =
    (Throw (newError MailSendError "Missing email content (html/text)"),
     logged s "error" "Missing email content (html/text)").
Proof.
  unfold contentPresent. intros Hc.
  apply orb_false_elim in Hc as [Hh Ht].
  destruct input as [to subject text html provider]; cbn in *.
  rewrite Hh, Ht. reflexivity.
Qed.

(** The relay path: what [sendMail] makes of the completion of the relay
    adapter. *)
Lemma sendMail_smtp_outcome (input : Mail.SendMailInput) (s s2 : State)
      (r : Completion SentMessageInfo) :
  contentPresent input = true ->
  Mail.selectedProvider (Mail.provider input) config = "smtp" ->
  Smtp.sendEmailViaSmtp world config (smtpPayload input) (dispatching s) = (r, s2) ->
  match r with
  | Normal _ =>
      Mail.sendMail world config input s = (Normal tt, logged s2 "info" "Mail dispatched via SMTP")
  | Throw e =>
      exists line,
        Mail.sendMail world config input s =
          (Throw (newErrorCause MailSendError "Failed to send email via SMTP" e),
           logged s2 "error" line)
  end.
Proof.
  unfold contentPresent. intros Hc Hsel Hrun.
  destruct input as [to subject text html provider]; cbn in *.
  assert (Hn : negb (truthy html) && negb (truthy text) = false)
    by (destruct (truthy html), (truthy text); cbn in *; congruence).
  unfold Mail.sendMail. cbn. rewrite Hn, Hsel. cbn.
  unfold Eff.bind at 1. cbn [log emit].
  unfold try_catch, Eff.bind.
  unfold smtpPayload, dispatching in Hrun. cbn in Hrun. rewrite Hrun.
  destruct r as [info | e].
  - reflexivity.
  - destruct (instanceof e SMTPSendError || instanceof e SMTPConfigError);
      eexists; reflexivity.
Qed.

(** The Exchange path: what [sendMail] makes of the completion of the
    Exchange adapter. *)
Lemma sendMail_ews_outcome (input : Mail.SendMailInput) (s s2 : State)
      (r : Completion unit) :
  contentPresent input = true ->
  Mail.selectedProvider (Mail.provider input) config = "ews" ->
  is_Some (Env.exchange config) ->
  Ews.sendEmailViaEWS world config (ewsPayload config input) (dispatching s) = (r, s2) ->
  match r with
  | Normal _ =>
      Mail.sendMail world config input s =
        (Normal tt, logged s2 "info" "Mail dispatched via Exchange")
  | Throw e =>
      exists line,
        Mail.sendMail world config input s =
          (Throw (newErrorCause MailSendError "Failed to send email via Exchange" e),
           logged s2 "error" line)
  end.
Proof.
  unfold contentPresent. intros Hc Hsel [ex Hex] Hrun.
  destruct input as [to subject text html provider]; cbn in *.
  assert (Hn : negb (truthy html) && negb (truthy text) = false)
    by (destruct (truthy html), (truthy text); cbn in *; congruence).
  unfold Mail.sendMail. cbn. rewrite Hn, Hsel. cbn.
  unfold Eff.bind at 1. cbn [log emit].
  rewrite Hex. rewrite bool_decide_eq_true_2 by eauto. cbn [negb].
  unfold try_catch, Eff.bind.
  unfold ewsPayload, dispatching in Hrun. cbn in Hrun. rewrite Hrun.
  destruct r as [[] | e].
  - reflexivity.
  - destruct (instanceof e EWSConfigError); [ eexists; reflexivity | ].
    destruct (instanceof e EWSConnectionError); [ eexists; reflexivity | ].
    destruct (instanceof e EWSSendError); eexists; reflexivity.
Qed.

(** The Exchange provider without an Exchange configuration. *)
Lemma sendMail_ews_unconfigured (input : Mail.SendMailInput) (s : State) :
  contentPresent input = true ->
  Mail.selectedProvider (Mail.provider input) config = "ews" ->
  Env.exchange config = None ->
  Mail.sendMail world config input s =
    (Throw (newError MailSendError "Exchange configuration is not set"),
     logged (dispatching s) "error" "Exchange configuration is not set").
Proof.
  unfold contentPresent. intros Hc Hsel Hex.
  destruct input as [to subject text html provider]; cbn in *.
  assert (Hn : negb (truthy html) && negb (truthy text) = false)
    by (destruct (truthy html), (truthy text); cbn in *; congruence).
  unfold Mail.sendMail. cbn. rewrite Hn, Hsel, Hex. reflexivity.
Qed.

(** Every error that leaves [sendMail] is a [MailSendError]. *)
Lemma sendMail_throws (input : Mail.SendMailInput) :
  Throws (fun v => instanceof v MailSendError = true) (Mail.sendMail world config input).
Proof.
  destruct input as [to subject text html provider].
  unfold Mail.sendMail.
  repeat match goal with
         | |- Throws _ (if ?b then _ else _) => destruct b
         end; walk.
Qed.

End Dispatch.

Section Routing.
Context {cheerio : Ews.Cheerio}.
Variable world : World.
Variable config : Env.MailConfig.

Lemma sendEmailViaSmtp_trace (payload : SMTPEmailPayload) (s : State) :
  exists rest,
    added_events s (snd (Smtp.sendEmailViaSmtp world config payload s))
                 (Enter (CallSendEmailViaSmtp payload) :: rest)
    /\ forallb (fun e => negb (ewsAdapterEvent e)) rest = true.
Proof. apply Emits_after_emit. walk. Qed.

Lemma sendEmailViaEWS_trace (payload : EWSEmailPayload) (s : State) :
  exists rest,
    added_events s (snd (Ews.sendEmailViaEWS world config payload s))
                 (Enter (CallSendEmailViaEWS payload) :: rest)
    /\ forallb (fun e => negb (smtpAdapterEvent e)) rest = true.
Proof. apply Emits_after_emit. unfold Ews.createExchangeService. walk. Qed.

(** On the relay path the run enters the relay adapter with the request as
    it came, and adds no event of the Exchange adapter. *)
Lemma sendMail_smtp_trace (input : Mail.SendMailInput) (s : State) :
  contentPresent input = true ->
  Mail.selectedProvider (Mail.provider input) config = "smtp" ->
  exists rest,
    added_events s (snd (Mail.sendMail world config input s))
      (Log "info" "Sending email" :: Enter (CallSendEmailViaSmtp (smtpPayload input)) :: rest)
    /\ forallb (fun e => negb (ewsAdapterEvent e)) rest = true.
Proof.
  intros Hc Hsel.
  destruct (Smtp.sendEmailViaSmtp world config (smtpPayload input) (dispatching s))
    as [r s2] eqn:Hrun.
  destruct (sendEmailViaSmtp_trace (smtpPayload input) (dispatching s)) as (rest & Hr & Fr).
  rewrite Hrun in Hr. cbn in Hr.
  pose proof (sendMail_smtp_outcome world config input s s2 r Hc Hsel Hrun) as Hout.
  destruct r as [info | e]; [ | destruct Hout as (line & Hout) ]; rewrite Hout; cbn.
  all: eexists (rest ++ [_])%list; split;
    [ unfold added_events in *; cbn in *; rewrite Hr, <- !app_assoc; reflexivity
    | rewrite forallb_app, Fr; reflexivity ].
Qed.

(** On the Exchange path the run enters the Exchange adapter, and adds no
    event of the relay adapter. *)
Lemma sendMail_ews_trace (input : Mail.SendMailInput) (s : State) :
  contentPresent input = true ->
  Mail.selectedProvider (Mail.provider input) config = "ews" ->
  is_Some (Env.exchange config) ->
  exists rest,
    added_events s (snd (Mail.sendMail world config input s))
      (Log "info" "Sending email" :: Enter (CallSendEmailViaEWS (ewsPayload config input)) :: rest)
    /\ forallb (fun e => negb (smtpAdapterEvent e)) rest = true.
Proof.
  intros Hc Hsel Hex.
  destruct (Ews.sendEmailViaEWS world config (ewsPayload config input) (dispatching s))
    as [r s2] eqn:Hrun.
  destruct (sendEmailViaEWS_trace (ewsPayload config input) (dispatching s))
    as (rest & Hr & Fr).
  rewrite Hrun in Hr. cbn in Hr.
  pose proof (sendMail_ews_outcome world config input s s2 r Hc Hsel Hex Hrun) as Hout.
  destruct r as [u | e]; [ | destruct Hout as (line & Hout) ]; rewrite Hout; cbn.
  all: eexists (rest ++ [_])%list; split;
    [ unfold added_events in *; cbn in *; rewrite Hr, <- !app_assoc; reflexivity
    | rewrite forallb_app, Fr; reflexivity ].
Qed.

End Routing.

(** ** The claims about [sendMail] *)

(** C1. For every request in which both [text] and [html] are absent,
    [sendMail] fails with a [MailSendError] whose message is
    "Missing email content (html/text)"; the run only logs that message, so
    neither the relay adapter nor the Exchange adapter is invoked and the
    transporter is left as it was. *)
Theorem sendMail_rejects_missing_content
    (cheerio : Ews.Cheerio) (world : World) (config : Env.MailConfig)
    (to subject : string) (provider : option Env.MailProvider) (s : State) :
  let input := {| Mail.to := to; Mail.subject := subject; Mail.text := None;
                  Mail.html := None; Mail.provider := provider |} in
  exists s',
    Mail.sendMail world config input s =
      (Throw (ErrorObject MailSendError "Missing email content (html/text)" Undefined), s')
    /\ transporter s' = transporter s
    /\ exists added, added_events s s' added
                     /\ forallb (fun e => negb (adapterEvent e)) added = true.
Proof.
  intros input. eexists. split; [ | split ].
  - apply sendMail_without_content. reflexivity.
  - reflexivity.
  - exists [Log "error" "Missing email content (html/text)"]. split; reflexivity.
Qed.

(** C2. For every request with content, the provider [sendMail] selects is
    the request's [provider] when it is set, whatever the configured default
    is, and the configured default otherwise; the selection is the total
    function [selectedProvider] of those two values, and it decides which
    adapter the run enters. *)
Theorem sendMail_selects_provider
    (cheerio : Ews.Cheerio) (world : World) (config : Env.MailConfig)
    (input : Mail.SendMailInput) (s : State) :
  contentPresent input = true ->
  let selected := Mail.selectedProvider (Mail.provider input) config in
  let s' := snd (Mail.sendMail world config input s) in
  (forall p, Mail.provider input = Some p ->
     selected = p /\
     forall d, Mail.selectedProvider (Mail.provider input) (withDefaultProvider d config) = p)
  /\ (Mail.provider input = None -> selected = Env.defaultProvider config)
  /\ (selected = "smtp" ->
      exists rest,
        added_events s s'
          (Log "info" "Sending email" :: Enter (CallSendEmailViaSmtp (smtpPayload input)) :: rest)
        /\ forallb (fun e => negb (ewsAdapterEvent e)) rest = true)
  /\ (selected = "ews" -> is_Some (Env.exchange config) ->
      exists rest,
        added_events s s'
          (Log "info" "Sending email"
             :: Enter (CallSendEmailViaEWS (ewsPayload config input)) :: rest)
        /\ forallb (fun e => negb (smtpAdapterEvent e)) rest = true).
Proof.
  intros Hc selected s'. split; [ | split; [ | split ] ].
  - intros p Hp. unfold selected. rewrite Hp. split; [ reflexivity | ].
    intros d. reflexivity.
  - intros Hp. unfold selected. rewrite Hp. reflexivity.
  - intros Hsel. now apply sendMail_smtp_trace.
  - intros Hsel Hex. now apply sendMail_ews_trace.
Qed.

Lemma sendMail_selects_provider_witness :
  exists rest,
    added_events initial
      (snd (Mail.sendMail (cheerio := Html.model) calm withExchange
              (request (Some "hey") None (Some "smtp")) initial))
      (Log "info" "Sending email"
         :: Enter (CallSendEmailViaSmtp (smtpPayload (request (Some "hey") None (Some "smtp"))))
         :: rest)
    /\ forallb (fun e => negb (ewsAdapterEvent e)) rest = true.
Proof.
  destruct (sendMail_selects_provider Html.model calm withExchange
              (request (Some "hey") None (Some "smtp")) initial eq_refl)
    as (_ & _ & Hsmtp & _).
  apply Hsmtp. reflexivity.
Defined.




(** C4. Whatever error an adapter raises during [sendMail], on the relay
    path as on the Exchange path, [sendMail] throws a [MailSendError] that
    has that very error as its cause; and every error that leaves [sendMail]
    is a [MailSendError]. *)
Theorem sendMail_wraps_adapter_errors
    (cheerio : Ews.Cheerio) (world : World) (config : Env.MailConfig)
    (input : Mail.SendMailInput) (s : State) :
  contentPresent input = true ->
  let selected := Mail.selectedProvider (Mail.provider input) config in
  (selected = "smtp" ->
   forall e s2,
     Smtp.sendEmailViaSmtp world config (smtpPayload input) (dispatching s) = (Throw e, s2) ->
     exists s3,
       Mail.sendMail world config input s =
         (Throw (ErrorObject MailSendError "Failed to send email via SMTP" e), s3))
  /\ (selected = "ews" -> is_Some (Env.exchange config) ->
      forall e s2,
        Ews.sendEmailViaEWS world config (ewsPayload config input) (dispatching s)
          = (Throw e, s2) ->
        exists s3,
          Mail.sendMail world config input s =
            (Throw (ErrorObject MailSendError "Failed to send email via Exchange" e), s3))
  /\ (forall v s', Mail.sendMail world config input s = (Throw v, s') ->
                   instanceof v MailSendError = true).
Proof.
  intros Hc selected. split; [ | split ].
  - intros Hsel e s2 Hrun.
    destruct (sendMail_smtp_outcome world config input s s2 (Throw e) Hc Hsel Hrun)
      as (line & Hout).
    eexists. exact Hout.
  - intros Hsel Hex e s2 Hrun.
    destruct (sendMail_ews_outcome world config input s s2 (Throw e) Hc Hsel Hex Hrun)
      as (line & Hout).
    eexists. exact Hout.
  - intros v s' Hrun. exact (sendMail_throws world config input s v s' Hrun).
Qed.

Lemma sendMail_wraps_adapter_errors_witness :
  exists s3,
    Mail.sendMail (cheerio := Html.model) stormy withExchange
                  (request (Some "hey") None None) initial =
      (Throw (ErrorObject MailSendError "Failed to send email via Exchange"
                (ErrorObject EWSConnectionError
                   "Connection timeout. Please check Exchange server URL."
                   (ErrorObject PlainError "connect ETIMEDOUT" Undefined))), s3).
Proof.
  destruct (sendMail_wraps_adapter_errors Html.model stormy withExchange
              (request (Some "hey") None None) initial eq_refl)
    as (_ & Hews & _).
  eapply Hews; [ reflexivity | eexists; reflexivity | vm_compute; reflexivity ].
Defined.

(** C6. Prefixing the subject on the Exchange path is idempotent: "Hello"
    becomes "[Djazairmed] Hello", a subject that already starts with
    "[Djazairmed]" is passed through unchanged, prefixing twice is prefixing
    once, and the subject handed to the Exchange adapter is the prefixed
    one. *)
Theorem subject_prefix_idempotent :
  Mail.prefixedSubject "Hello" = "[Djazairmed] Hello"
  /\ (forall subject, startsWith subject "[Djazairmed]" = true ->
                      Mail.prefixedSubject subject = subject)
  /\ (forall subject,
        Mail.prefixedSubject (Mail.prefixedSubject subject) = Mail.prefixedSubject subject)
  /\ (forall (cheerio : Ews.Cheerio) world config input s,
        contentPresent input = true ->
        Mail.selectedProvider (Mail.provider input) config = "ews" ->
        is_Some (Env.exchange config) ->
        exists payload rest,
          added_events s (snd (Mail.sendMail world config input s))
            (Log "info" "Sending email" :: Enter (CallSendEmailViaEWS payload) :: rest)
          /\ ews_subject payload = Mail.prefixedSubject (Mail.subject input)).
Proof.
  split; [ reflexivity | split; [ | split ] ].
  - intros subject Hp. unfold Mail.prefixedSubject, Mail.DEFAULT_SUBJECT_PREFIX.
    now rewrite Hp.
  - intros subject. unfold Mail.prefixedSubject, Mail.DEFAULT_SUBJECT_PREFIX.
    destruct (startsWith subject "[Djazairmed]") eqn:Hp.
    + now rewrite Hp.
    + reflexivity.
  - intros cheerio world config input s Hc Hsel Hex.
    destruct (sendMail_ews_trace world config input s Hc Hsel Hex) as (rest & Hr & _).
    exists (ewsPayload config input), rest. split; [ exact Hr | reflexivity ].
Qed.

Lemma subject_prefix_idempotent_witness :
  Mail.prefixedSubject "[Djazairmed] Hello" = "[Djazairmed] Hello"
  /\ exists payload rest,
       added_events initial
         (snd (Mail.sendMail (cheerio := Html.model) calm withExchange
                 (request (Some "hey") None None) initial))
         (Log "info" "Sending email" :: Enter (CallSendEmailViaEWS payload) :: rest)
       /\ ews_subject payload = "[Djazairmed] Hello".
Proof.
  destruct subject_prefix_idempotent as (_ & Hkeep & _ & Hsent).
  split.
  - apply Hkeep. reflexivity.
  - apply (Hsent Html.model calm withExchange (request (Some "hey") None None) initial);
      [ reflexivity | reflexivity | eexists; reflexivity ].
Defined.

(** ** Startup verification *)

Section Startup.
Variable world : World.
Variable config : Env.MailConfig.

(** What [verifyMailTransporter] makes of the completion of the relay
    verification. *)
Lemma verifyMailTransporter_outcome (s s1 : State) (r : Completion unit) :
  Smtp.verifySmtpTransporter world config s = (r, s1) ->
  Mail.verifyMailTransporter world config s =
    let s2 := logged s1 "info" (exchangeCheckLine config) in
    if threw r && String.eqb (Env.defaultProvider config) "smtp" then
      (r, logged s2 "error" "Default provider (SMTP) failed verification")
    else if String.eqb (Env.defaultProvider config) "ews"
            && negb (bool_decide (is_Some (Env.exchange config))) then
      (Throw (newError PlainError
                "Default provider is EWS but Exchange configuration is missing"),
       logged s2 "error" "Exchange configuration verification failed")
    else (Normal tt, logged s2 "info" "Mail service configured").
Proof.
  intros Hrun.
  unfold Mail.verifyMailTransporter.
  unfold Eff.bind at 1. unfold try_catch at 1. unfold Eff.bind at 1.
  rewrite Hrun.
  destruct r as [[] | e].
  - cbn [ret threw andb]. unfold Eff.bind at 1. unfold try_catch at 1.
    unfold exchangeCheckLine.
    destruct (Env.exchange config) as [ex | ];
      cbn; rewrite andb_false_r;
      destruct (String.eqb (Env.defaultProvider config) "ews"); reflexivity.
  - pose proof (verifySmtpTransporter_throws world config s e s1 Hrun) as Hcls.
    destruct e as [cls message cause | | shown]; try discriminate.
    cbn in Hcls. apply bool_decide_eq_true_1 in Hcls. subst cls.
    cbn [ret threw andb]. unfold Eff.bind at 1. unfold try_catch at 1.
    unfold exchangeCheckLine.
    destruct (Env.exchange config) as [ex | ]; cbn;
      destruct (String.eqb (Env.defaultProvider config) "smtp") eqn:Hsmtp;
      try reflexivity;
      destruct (String.eqb (Env.defaultProvider config) "ews"); reflexivity.
Qed.

(** A failed relay verification leaves its own error line in the log. *)
Lemma verifySmtpTransporter_logs_failure (s s1 : State) (e : Value) :
  Smtp.verifySmtpTransporter world config s = (Throw e, s1) ->
  exists before,
    trace s1 = (before ++ [Log "error" "SMTP transporter verification failed"])%list.
Proof.
  unfold Smtp.verifySmtpTransporter.
  unfold Eff.bind at 1. cbn [emit]. unfold try_catch.
  match goal with |- context [let (_, _) := ?body ?st in _] => destruct (body st) as [[u | v] s'] end.
  - discriminate.
  - cbn. intros H. injection H as _ <-. eexists. reflexivity.
Qed.

End Startup.

(** C7. [verifyMailTransporter] always enters the relay verification; when
    that fails the failure is logged and the run goes on to the Exchange
    presence check, which is a log line and no event of the Exchange adapter;
    and the run throws exactly when the default provider is the relay and the
    relay verification failed, or the default provider is Exchange and the
    Exchange configuration is absent. *)
Theorem verifyMailTransporter_default_provider
    (world : World) (config : Env.MailConfig) (s : State) :
  let relay := Smtp.verifySmtpTransporter world config s in
  let run := Mail.verifyMailTransporter world config s in
  (exists rest,
     added_events s (snd run) (Enter CallVerifySmtpTransporter :: rest)
     /\ forallb (fun e => negb (ewsAdapterEvent e)) rest = true)
  /\ (threw (fst relay) = true ->
      exists before,
        trace (snd relay)
          = (before ++ [Log "error" "SMTP transporter verification failed"])%list)
  /\ (exists rest,
        added_events (snd relay) (snd run) (Log "info" (exchangeCheckLine config) :: rest))
  /\ (threw (fst run) = true <->
        (Env.defaultProvider config = "smtp" /\ threw (fst relay) = true)
        \/ (Env.defaultProvider config = "ews" /\ Env.exchange config = None)).
Proof.
  intros relay run.
  destruct (Smtp.verifySmtpTransporter world config s) as [r s1] eqn:Hrelay.
  pose proof (verifyMailTransporter_outcome world config s s1 r Hrelay) as Hout.
  assert (Hlast : exists level line,
             run = (fst run, logged (logged s1 "info" (exchangeCheckLine config)) level line)).
  { unfold run. rewrite Hout. cbv zeta.
    destruct (threw r && String.eqb (Env.defaultProvider config) "smtp");
      [ do 2 eexists; reflexivity | ].
    destruct (String.eqb (Env.defaultProvider config) "ews"
              && negb (bool_decide (is_Some (Env.exchange config))));
      do 2 eexists; reflexivity. }
  destruct Hlast as (level & line & Hlast).
  split; [ | split; [ | split ] ].
  - destruct (Emits_after_emit (fun e => negb (ewsAdapterEvent e))
                (Enter CallVerifySmtpTransporter)
                (try_catch
                   (Eff.bind (Smtp.getTransporter world config)
                      (fun t => Eff.bind (emit (TransporterVerify t))
                         (fun _ => Eff.bind (attempt (verify world t))
                            (fun _ => log "info" "SMTP transporter verified"))))
                   (fun error =>
                      Eff.bind (log "error" "SMTP transporter verification failed")
                        (fun _ => throw (newErrorCause SMTPConfigError
                                           "Failed to verify SMTP transporter" error))))
                s) as (rest & Hr & Fr); [ walk | ].
    change (added_events s (snd (Smtp.verifySmtpTransporter world config s))
              (Enter CallVerifySmtpTransporter :: rest)) in Hr.
    rewrite Hrelay in Hr. cbn in Hr.
    exists (rest ++ [Log "info" (exchangeCheckLine config); Log level line])%list.
    split.
    + rewrite Hlast. unfold added_events in *. cbn. rewrite Hr.
      rewrite <- !app_assoc. reflexivity.
    + rewrite forallb_app, Fr. reflexivity.
  - subst relay. cbn. destruct r as [u | e]; [ discriminate | ]. intros _.
    eapply verifySmtpTransporter_logs_failure, Hrelay.
  - subst relay. cbn. exists [Log level line].
    rewrite Hlast. unfold added_events. cbn. rewrite <- !app_assoc. reflexivity.
  - subst relay. cbn [fst]. unfold run. rewrite Hout. cbv zeta.
    destruct (String.eqb_spec (Env.defaultProvider config) "smtp") as [Hs | Hs];
      destruct (String.eqb_spec (Env.defaultProvider config) "ews") as [He | He];
      destruct (Env.exchange config) as [ex | ] eqn:Hex;
      destruct r as [u | e]; cbn;
      try (rewrite bool_decide_eq_true_2 by eauto);
      try (rewrite bool_decide_eq_false_2 by (intros [? ?]; discriminate));
      cbn; split; intros H;
      try discriminate; try reflexivity; try tauto;
      try (destruct H as [[? ?] | [? ?]]; congruence).
Qed.

Lemma verifyMailTransporter_default_provider_witness :
  threw (fst (Mail.verifyMailTransporter stormy relayOnly initial)) = true
  /\ threw (fst (Mail.verifyMailTransporter stormy
                   (withDefaultProvider "ews" withExchange) initial)) = false.
Proof.
  split.
  - apply (verifyMailTransporter_default_provider stormy relayOnly initial).
    left. split; reflexivity.
  - reflexivity.
Defined.

(** ** Configuration *)

Section Configuration.
Context {platform : Platform}.

Lemma optional_truthy (env : gmap string string) (key value : string) :
  Env.optional env key = Some value -> truthy (Some value) = true.
Proof.
  unfold Env.optional. destruct (env !! key) as [raw | ]; [ | discriminate ].
  destruct (negb (truthy (Some raw))); [ discriminate | ].
  destruct (trim raw) as [ | c rest ]; cbn; [ discriminate | ].
  intros H. injection H as <-. reflexivity.
Qed.

(** An unset, empty or blank variable reads as [undefined]. *)
Lemma optional_blank (env : gmap string string) (key : string) :
  (env !! key = None \/ exists raw, env !! key = Some raw /\ trim raw = "") ->
  Env.optional env key = None.
Proof.
  unfold Env.optional. intros [-> | (raw & -> & Hblank)]; [ reflexivity | ].
  destruct (negb (truthy (Some raw))); [ reflexivity | ].
  rewrite Hblank. reflexivity.
Qed.

(** C8. Without a connection URL, [parseMailTransport] builds a host
    transport whose port is the given one, else 465 when [secure] is
    explicitly true and 587 otherwise; whose [secure] is the given one, else
    whether the port is 465; and whose [requireTLS] is the given one, else the
    negation of [secure]. Given only port 465 the transport is secure and does
    not require TLS; given no port, no secure flag and no requireTLS flag, it
    has port 587, is not secure and requires TLS. *)
Theorem parseMailTransport_host_defaults
    (env : gmap string string)
    (smtpPort : option Z) (smtpSecure smtpRequireTLS : option bool) :
  Env.optional env "SMTP_URL" = None ->
  Env.optionalInteger env "SMTP_PORT" = Normal smtpPort ->
  Env.optionalBoolean env "SMTP_SECURE" = Normal smtpSecure ->
  Env.optionalBoolean env "SMTP_REQUIRE_TLS" = Normal smtpRequireTLS ->
  credentialsComplete env = true ->
  let port := match smtpPort with
              | Some p => p
              | None => match smtpSecure with Some true => 465 | _ => 587 end
              end%Z in
  let secure := match smtpSecure with Some b => b | None => (port =? 465)%Z end in
  let requireTLS := match smtpRequireTLS with Some b => b | None => negb secure end in
  (exists host auth,
     Env.parseMailTransport env =
       Normal {| Env.p_transport := Env.SmtpTransport host port secure (Some requireTLS) auth;
                 Env.p_auth := auth |})
  /\ (smtpPort = Some 465%Z -> smtpSecure = None -> smtpRequireTLS = None ->
      secure = true /\ requireTLS = false)
  /\ (smtpPort = None -> smtpSecure = None -> smtpRequireTLS = None ->
      port = 587%Z /\ secure = false /\ requireTLS = true).
Proof.
  intros Hurl Hport Hsecure Htls Hcred port secure requireTLS.
  split; [ | split ].
  - unfold Env.parseMailTransport. rewrite Hurl, Hport, Hsecure, Htls. cbn [Js.bind].
    unfold credentialsComplete in Hcred. apply negb_true_iff in Hcred. rewrite Hcred.
    do 2 eexists. f_equal. f_equal.
    unfold port, secure, requireTLS, nullish.
    destruct smtpPort as [p | ], smtpSecure as [[ | ] | ], smtpRequireTLS as [[ | ] | ];
      reflexivity.
  - intros -> -> ->. split; reflexivity.
  - intros -> -> ->. repeat split; reflexivity.
Qed.

End Configuration.

Lemma parseMailTransport_host_defaults_witness :
  exists host auth,
    Env.parseMailTransport (platform := decimalPlatform) {[ "SMTP_PORT" := "465" ]} =
      Normal {| Env.p_transport := Env.SmtpTransport host 465 true (Some false) auth;
                Env.p_auth := auth |}.
Proof.
  destruct (parseMailTransport_host_defaults (platform := decimalPlatform)
              {[ "SMTP_PORT" := "465" ]} (Some 465%Z) None None)
    as (Hbuilt & _); try (vm_compute; reflexivity).
  exact Hbuilt.
Defined.

(** C9. The resolved default provider is a function of the explicit setting
    and of the presence of the Exchange configuration alone: an explicit
    setting wins whether or not the Exchange configuration is present; with
    no explicit setting the default is "ews" when the Exchange configuration
    is present and "smtp" otherwise; and this is the default provider of every
    configuration that [mailConfig] builds. *)
Theorem resolveDefaultProvider_rule :
  (forall provider exchange, Env.resolveDefaultProvider (Some provider) exchange = provider)
  /\ (forall exchange, Env.resolveDefaultProvider None (Some exchange) = "ews")
  /\ Env.resolveDefaultProvider None None = "smtp"
  /\ (forall (platform : Platform) env explicit config,
        Env.mailConfig env explicit = Normal config ->
        Env.exchange config = Env.parseExchange env
        /\ Env.defaultProvider config
           = Env.resolveDefaultProvider explicit (Env.exchange config)).
Proof.
  split; [ reflexivity | split; [ reflexivity | split; [ reflexivity | ] ] ].
  intros platform env explicit config Hconfig.
  unfold Env.mailConfig in Hconfig.
  destruct (Env.parseMailTransport env) as [parsed | ]; [ | discriminate ].
  cbn in Hconfig.
  destruct (Env.required env "MAIL_SERVICE_API_KEY") as [key | ]; [ | discriminate ].
  cbn in Hconfig.
  destruct (Env.parseSender env (Env.p_auth parsed)) as [from | ]; [ | discriminate ].
  cbn in Hconfig. injection Hconfig as <-. split; reflexivity.
Qed.

Lemma resolveDefaultProvider_rule_witness :
  Env.resolveDefaultProvider (Some "smtp") (Env.exchange withExchange) = "smtp"
  /\ Env.resolveDefaultProvider None (Env.exchange withExchange) = "ews"
  /\ Env.resolveDefaultProvider None (Env.exchange relayOnly) = "smtp".
Proof.
  destruct resolveDefaultProvider_rule as (Hexplicit & Hpresent & Habsent & _).
  split; [ apply Hexplicit | split; [ apply Hpresent | exact Habsent ] ].
Defined.

(** ** The sender *)

Section SenderName.
Context {platform : Platform}.

Lemma parseSender_name (env : gmap string string) (auth : option Env.MailAuth)
      (from : Env.Sender) :
  Env.parseSender env auth = Normal from ->
  Env.name from = nullish (Env.optional env "MAIL_FROM_NAME") "Mail Service".
Proof.
  unfold Env.parseSender.
  match goal with |- context [negb (truthy ?a)] => destruct (negb (truthy a)) end;
    [ discriminate | ].
  match goal with |- context [zodEmail ?a] => destruct (zodEmail a) end;
    [ discriminate | ].
  intros H. injection H as <-. reflexivity.
Qed.

Lemma mailConfig_sender (env : gmap string string) (explicit : option Env.MailProvider)
      (config : Env.MailConfig) :
  Env.mailConfig env explicit = Normal config ->
  exists auth, Env.parseSender env auth = Normal (Env.sender config).
Proof.
  unfold Env.mailConfig.
  destruct (Env.parseMailTransport env) as [parsed | ]; [ | discriminate ]. cbn.
  destruct (Env.required env "MAIL_SERVICE_API_KEY") as [key | ]; [ | discriminate ]. cbn.
  destruct (Env.parseSender env (Env.p_auth parsed)) as [from | ] eqn:Hfrom;
    [ | discriminate ]. cbn.
  intros H. injection H as <-. exists (Env.p_auth parsed). exact Hfrom.
Qed.

(** The relay adapter hands its [fromHeader] to nodemailer. *)
Lemma sendEmailViaSmtp_from (world : World) (config : Env.MailConfig)
      (payload : SMTPEmailPayload) :
  Emits (fun e => match e with
                  | TransporterSendMail _ options =>
                      String.eqb (mo_from options) (Smtp.fromHeader config)
                  | _ => true
                  end)
        (Smtp.sendEmailViaSmtp world config payload).
Proof.
  unfold Smtp.sendEmailViaSmtp. walk.
  apply Emits_emit. cbn. apply String.eqb_refl.
Qed.

(** C10. In every configuration that [mailConfig] builds the sender name is
    a non-empty string, "Mail Service" when MAIL_FROM_NAME is unset, empty or
    blank; so the from-header of [sendEmailViaSmtp] is the name, a space and
    the address in angle brackets, never the bare address, and that is the
    header of every message the adapter hands to nodemailer. *)
Theorem sender_name_never_empty
    (env : gmap string string) (explicit : option Env.MailProvider)
    (config : Env.MailConfig) :
  Env.mailConfig env explicit = Normal config ->
  let name := Env.name (Env.sender config) in
  let header := name +:+ " <" +:+ Env.address (Env.sender config) +:+ ">" in
  name <> ""
  /\ ((env !! "MAIL_FROM_NAME" = None
       \/ exists raw, env !! "MAIL_FROM_NAME" = Some raw /\ trim raw = "") ->
      name = "Mail Service")
  /\ Smtp.fromHeader config = header
  /\ forall world payload,
       Emits (fun e => match e with
                       | TransporterSendMail _ options => String.eqb (mo_from options) header
                       | _ => true
                       end)
             (Smtp.sendEmailViaSmtp world config payload).
Proof.
  intros Hconfig name header.
  destruct (mailConfig_sender env explicit config Hconfig) as (auth & Hsender).
  pose proof (parseSender_name env auth (Env.sender config) Hsender) as Hname.
  assert (Hne : truthy (Some name) = true).
  { unfold name. rewrite Hname. unfold nullish.
    destruct (Env.optional env "MAIL_FROM_NAME") as [given | ] eqn:Hgiven.
    - eapply optional_truthy, Hgiven.
    - reflexivity. }
  assert (Hheader : Smtp.fromHeader config = header).
  { unfold Smtp.fromHeader. fold name. rewrite Hne. reflexivity. }
  split; [ | split; [ | split ] ].
  - intros Hempty. rewrite Hempty in Hne. discriminate.
  - intros Hblank. unfold name. rewrite Hname, (optional_blank env _ Hblank). reflexivity.
  - exact Hheader.
  - intros world payload. rewrite <- Hheader. apply sendEmailViaSmtp_from.
Qed.

End SenderName.

Lemma sender_name_never_empty_witness :
  exists config,
    Env.mailConfig (platform := decimalPlatform)
      {[ "MAIL_SERVICE_API_KEY" := "key"; "MAIL_FROM_ADDRESS" := "a@b.com";
         "MAIL_FROM_NAME" := "   " ]} None = Normal config
    /\ Env.name (Env.sender config) = "Mail Service"
    /\ Smtp.fromHeader config = "Mail Service <a@b.com>".
Proof.
  eexists. split; [ vm_compute; reflexivity | ].
  match goal with
  | |- Env.name (Env.sender ?c) = _ /\ _ =>
      destruct (sender_name_never_empty (platform := decimalPlatform)
                  {[ "MAIL_SERVICE_API_KEY" := "key"; "MAIL_FROM_ADDRESS" := "a@b.com";
                     "MAIL_FROM_NAME" := "   " ]} None c)
        as (_ & Hdefault & Hheader & _)
  end.
  - vm_compute. reflexivity.
  - split; [ | exact Hheader ].
    apply Hdefault. right. exists "   ". split; vm_compute; reflexivity.
Defined.

(** ** The sanitiser *)

Section OnFragment.
Context {cheerio : Ews.Cheerio}.
Hypothesis agrees : Html.Agrees cheerio.

(** On markup of the fragment, the sanitiser over an implementation that
    agrees with the model is the sanitiser over the model. *)
Lemma sanitize_on_fragment (input : string) (doc : Html.Node) :
  Html.parse input = Some doc ->
  Ews.sanitizeHtmlForEWS input = Ews.sanitizeHtmlForEWS (cheerio := Html.model) input.
Proof.
  intros Hparse. destruct (agrees input doc Hparse) as (Hstyle & Hbody & Hroot).
  unfold Ews.sanitizeHtmlForEWS. rewrite Hstyle, Hbody, Hroot.
  cbn. rewrite Hparse. reflexivity.
Qed.

End OnFragment.

(** ** Reading back what the serialiser writes *)

(** A name that a list of names has is one of them. *)
Lemma has_cases (names : list string) (name : string) :
  Env.has names name = true -> In name names.
Proof.
  unfold Env.has. intros H. apply existsb_exists in H as (candidate & Hin & Heq).
  apply String.eqb_eq in Heq. now subst.
Qed.

(** One case for each name of the list. *)
Ltac each_name H :=
  apply has_cases in H; unfold Html.void in H; cbn [In] in H;
  repeat match type of H with
         | _ \/ _ => destruct H as [H | H]
         end;
  [ match type of H with _ = ?given => subst given end .. | contradiction ].

Section ReadingBack.
Import Html.

Lemma append_cons (c : ascii) (a b : string) : String c a +:+ b = String c (a +:+ b).
Proof. reflexivity. Qed.

Lemma append_empty (s : string) : s +:+ "" = s.
Proof.
  induction s as [ | c s IH ]; [ reflexivity | ]. rewrite append_cons. now rewrite IH.
Qed.

Lemma append_associative (a b c : string) : (a +:+ b) +:+ c = a +:+ (b +:+ c).
Proof.
  induction a as [ | x a IH ]; [ reflexivity | ]. rewrite !append_cons. now rewrite IH.
Qed.

Lemma concat_cons (x : string) (xs : list string) :
  String.concat "" (x :: xs) = x +:+ String.concat "" xs.
Proof. destruct xs; [ symmetry; apply append_empty | reflexivity ]. Qed.

Lemma Node_forall_ind (P : Node -> Prop) :
  (forall d, P (Text d)) ->
  (forall name attributes children,
     Forall P children -> P (Element name attributes children)) ->
  forall n, P n.
Proof.
  intros Htext Helement. fix IH 1. intros [name attributes children | d].
  - apply Helement. induction children as [ | c cs IHcs ]; constructor.
    + apply IH.
    + exact IHcs.
  - apply Htext.
Qed.

Lemma Reads_empty (st : TokState) : Reads st "" st [].
Proof. reflexivity. Qed.

Lemma Reads_app (st st1 st2 : TokState) (a b : string) (o1 o2 : list Token) :
  Reads st a st1 o1 -> Reads st1 b st2 o2 -> Reads st (a +:+ b) st2 (o1 ++ o2)%list.
Proof.
  unfold Reads. revert st o1. induction a as [ | c a IH ]; intros st o1.
  - cbn. intros H Hb. injection H as Hst Ho. subst. exact Hb.
  - rewrite append_cons. cbn [tokenRun tokenizeFrom].
    destruct (tokenStep st c) as [[st' o] | ]; [ | discriminate ].
    destruct (tokenRun st' a) as [[st'' o'] | ] eqn:Ha; [ | discriminate ].
    intros H Hb. injection H as Hst Ho. subst.
    rewrite (IH st' o' Ha Hb). now rewrite app_assoc.
Qed.

Lemma Reads_tokenize (st : TokState) (a b : string) (o1 o2 : list Token) :
  Reads st a Data o1 -> tokenizeFrom Data b = Some o2 ->
  tokenizeFrom st (a +:+ b) = Some (o1 ++ o2)%list.
Proof.
  unfold Reads. revert st o1. induction a as [ | c a IH ]; intros st o1.
  - cbn. intros H Hb. injection H as Hst Ho. subst. exact Hb.
  - rewrite append_cons. cbn [tokenRun tokenizeFrom].
    destruct (tokenStep st c) as [[st' o] | ]; [ | discriminate ].
    destruct (tokenRun st' a) as [[st'' o'] | ] eqn:Ha; [ | discriminate ].
    intros H Hb. injection H as Hst Ho. subst.
    rewrite (IH st' o' Ha Hb). now rewrite app_assoc.
Qed.

(** One character read, then the rest. *)
Lemma Reads_cons (st st1 st2 : TokState) (c : ascii) (rest : string) (o1 o2 : list Token) :
  tokenStep st c = Some (st1, o1) -> Reads st1 rest st2 o2 ->
  Reads st (String c rest) st2 (o1 ++ o2)%list.
Proof. unfold Reads. cbn [tokenRun]. now intros -> ->. Qed.

(** A character of a text, as it is written, is read back as itself. *)
Lemma Reads_char (c : ascii) :
  plainChar c = true ->
  Reads Data (if Ascii.eqb c "&" then "&amp;"
              else if Ascii.eqb c "<" then "&lt;"
              else if Ascii.eqb c ">" then "&gt;"
              else String c "")
        Data [Chr c].
Proof.
  intros Hplain.
  destruct (Ascii.eqb_spec c "&") as [-> | Hamp]; [ reflexivity | ].
  destruct (Ascii.eqb_spec c "<") as [-> | Hlt]; [ reflexivity | ].
  destruct (Ascii.eqb_spec c ">") as [-> | Hgt]; [ reflexivity | ].
  unfold Reads. cbn [tokenRun]. unfold tokenStep. rewrite Hplain. cbn [negb].
  apply Ascii.eqb_neq in Hamp, Hlt. now rewrite Hlt, Hamp.
Qed.

Lemma Reads_text (t : string) :
  safeChars t = true -> Reads Data (escapeText t) Data (map Chr (list_ascii_of_string t)).
Proof.
  induction t as [ | c t IH ]; cbn [safeChars escapeText list_ascii_of_string map];
    [ reflexivity | ].
  intros H. apply andb_prop in H as [Hplain Ht].
  change (Chr c :: map Chr (list_ascii_of_string t))
    with ([Chr c] ++ map Chr (list_ascii_of_string t))%list.
  eapply Reads_app; [ now apply Reads_char | now apply IH ].
Qed.

Lemma safeText_chars (t : string) : safeText t = true -> safeChars t = true.
Proof. destruct t; [ discriminate | auto ]. Qed.

(** *** Attributes *)

Lemma lowerKeyChar_read (c : ascii) :
  lowerKeyChar c = true ->
  plainChar c = true /\ keyChar c = true /\ lowerChar c = c
  /\ isSpace c = false /\ Ascii.eqb c "=" = false /\ Ascii.eqb c ">" = false.
Proof.
  destruct c as [[] [] [] [] [] [] [] []]; intros H; try discriminate H;
    repeat split; reflexivity.
Qed.

Lemma valueChar_read (c : ascii) :
  valueChar c = true ->
  plainChar c = true /\ Ascii.eqb c "034" = false /\ Ascii.eqb c "&" = false.
Proof.
  unfold valueChar. intros H.
  apply andb_prop in H as [H _]. apply andb_prop in H as [H _].
  apply andb_prop in H as [H Hamp]. apply andb_prop in H as [Hplain Hquote].
  apply negb_true_iff in Hamp, Hquote. auto.
Qed.

Lemma value_as_written (value : string) :
  allChars valueChar value = true -> escapeValue value = value.
Proof.
  induction value as [ | c value IH ]; cbn; [ reflexivity | ].
  intros H. apply andb_prop in H as [Hc Hvalue].
  destruct (valueChar_read c Hc) as (_ & Hquote & Hamp).
  rewrite Hamp, Hquote. cbn. now rewrite IH.
Qed.

Lemma Reads_key (name : string) (attributes : list Attribute) (key : string) :
  forall before,
    allChars lowerKeyChar key = true ->
    Reads (AttributeName name attributes before) key
          (AttributeName name attributes (before +:+ key)) [].
Proof.
  induction key as [ | c key IH ]; intros before; cbn [allChars].
  - intros _. rewrite append_empty. reflexivity.
  - intros H. apply andb_prop in H as [Hc Hkey].
    destruct (lowerKeyChar_read c Hc) as (Hplain & Hk & Hlower & _ & Hequals & _).
    change (@nil Token) with ([] ++ @nil Token)%list.
    eapply Reads_cons.
    + unfold tokenStep. rewrite Hplain, Hequals, Hk, Hlower. reflexivity.
    + replace (before +:+ String c key) with (snoc before c +:+ key)
        by apply append_associative.
      apply IH. exact Hkey.
Qed.

Lemma Reads_value (name : string) (attributes : list Attribute) (key value : string) :
  forall before,
    allChars valueChar value = true ->
    Reads (AttributeValue name attributes key before) value
          (AttributeValue name attributes key (before +:+ value)) [].
Proof.
  induction value as [ | c value IH ]; intros before; cbn [allChars].
  - intros _. rewrite append_empty. reflexivity.
  - intros H. apply andb_prop in H as [Hc Hvalue].
    destruct (valueChar_read c Hc) as (Hplain & Hquote & _).
    change (@nil Token) with ([] ++ @nil Token)%list.
    eapply Reads_cons.
    + unfold tokenStep. rewrite Hplain, Hquote, Hc. reflexivity.
    + replace (before +:+ String c value) with (snoc before c +:+ value)
        by apply append_associative.
      apply IH. exact Hvalue.
Qed.

(** One attribute, read from a state in which a space leads to the next
    attribute name. *)
Lemma Reads_attribute (st : TokState) (name : string) (seen : list Attribute)
      (attribute : Attribute) :
  tokenStep st " " = Some (BeforeAttributeName name seen, []) ->
  plainKey (fst attribute) = true ->
  allChars valueChar (snd attribute) = true ->
  hasKey (fst attribute) seen = false ->
  Reads st (writeAttribute attribute) (AfterAttributeValue name (seen ++ [attribute])) [].
Proof.
  destruct attribute as [key value]. cbn [fst snd]. intros Hspace Hkey Hvalue Hnew.
  unfold writeAttribute. cbn [fst snd]. rewrite (value_as_written value Hvalue).
  destruct key as [ | c key ]; [ discriminate | ]. cbn [plainKey allChars] in Hkey.
  apply andb_prop in Hkey as [Hc Hkey].
  destruct (lowerKeyChar_read c Hc) as (Hplain & Hk & Hlower & Hnospace & _ & Hgt).
  unfold dquote.
  change (" " +:+ String c key +:+ "=" +:+ String "034" "" +:+ value +:+ String "034" "")
    with (String " " (String c (key +:+ String "=" (String "034" (value +:+ String "034" ""))))).
  change (@nil Token) with ([] ++ [] ++ [] ++ [] ++ [] ++ [] ++ [] ++ @nil Token)%list.
  eapply Reads_cons; [ exact Hspace | ].
  eapply Reads_cons.
  { unfold tokenStep. rewrite Hplain, Hnospace, Hgt, Hk, Hlower. reflexivity. }
  eapply Reads_app; [ apply (Reads_key name seen key (String c "") Hkey) | ].
  eapply Reads_cons; [ reflexivity | ].
  eapply Reads_cons; [ reflexivity | ].
  eapply Reads_app; [ apply (Reads_value name seen (String c key) value "" Hvalue) | ].
  eapply Reads_cons; [ | apply Reads_empty ].
  unfold tokenStep. cbn [plainChar negb Ascii.eqb Bool.eqb]. cbn.
  cbn in Hnew. now rewrite Hnew.
Qed.

Lemma Reads_attributes (name : string) (attributes : list Attribute) :
  forall st seen,
    tokenStep st " " = Some (BeforeAttributeName name seen, []) ->
    attributes <> [] ->
    forallb (fun attribute => plainKey (fst attribute) && allChars valueChar (snd attribute))
            attributes = true ->
    distinctKeys seen attributes = true ->
    Reads st (writeAttributes attributes) (AfterAttributeValue name (seen ++ attributes)) [].
Proof.
  induction attributes as [ | attribute rest IH ]; intros st seen Hspace Hsome Hplain Hnew;
    [ contradiction | ].
  cbn [forallb distinctKeys] in Hplain, Hnew.
  apply andb_prop in Hplain as [Ha Hrest]. apply andb_prop in Ha as [Hkey Hvalue].
  apply andb_prop in Hnew as [Hnew Hlater]. apply negb_true_iff in Hnew.
  unfold writeAttributes. cbn [map]. rewrite concat_cons.
  pose proof (Reads_attribute st name seen attribute Hspace Hkey Hvalue Hnew) as Hfirst.
  destruct rest as [ | next rest ].
  - cbn. rewrite append_empty. exact Hfirst.
  - change (@nil Token) with ([] ++ @nil Token)%list.
    eapply Reads_app; [ exact Hfirst | ].
    change (seen ++ attribute :: next :: rest)%list
      with (seen ++ [attribute] ++ next :: rest)%list.
    rewrite app_assoc. apply IH; [ reflexivity | discriminate | exact Hrest | exact Hlater ].
Qed.

(** A start tag with its attributes, read from after its name. *)
Lemma Reads_startTag (name : string) (attributes : list Attribute) :
  emitStart name [] = Some (Data, [StartTag name []]) ->
  emitStart name attributes = Some (Data, [StartTag name attributes]) ->
  plainAttributes attributes = true ->
  Reads (TagName false name) (writeAttributes attributes +:+ ">") Data
        [StartTag name attributes].
Proof.
  intros Hbare Hemit Hplain. unfold plainAttributes in Hplain.
  apply andb_prop in Hplain as [Hplain Hnew].
  destruct attributes as [ | attribute rest ].
  - change (Reads (TagName false name) ">" Data ([StartTag name []] ++ [])%list).
    eapply Reads_cons; [ | apply Reads_empty ].
    change (tokenStep (TagName false name) ">") with (emitStart name []). exact Hbare.
  - change [StartTag name (attribute :: rest)]
      with ([] ++ [StartTag name (attribute :: rest)] ++ [])%list.
    eapply Reads_app.
    + apply (Reads_attributes name (attribute :: rest) (TagName false name) []);
        [ reflexivity | discriminate | exact Hplain | exact Hnew ].
    + eapply Reads_cons; [ | apply Reads_empty ].
      change (tokenStep (AfterAttributeValue name (attribute :: rest)) ">")
        with (emitStart name (attribute :: rest)).
      exact Hemit.
Qed.

Lemma Reads_open (name : string) (attributes : list Attribute) :
  Env.has ["span"; "p"; "div"; "br"; "img"] name = true ->
  plainAttributes attributes = true ->
  Reads Data ("<" +:+ name +:+ writeAttributes attributes +:+ ">") Data
        [StartTag name attributes].
Proof.
  intros Hname Hplain.
  assert (Hafter : Reads (TagName false name) (writeAttributes attributes +:+ ">") Data
                         [StartTag name attributes]).
  { each_name Hname; apply Reads_startTag; (reflexivity || exact Hplain). }
  change [StartTag name attributes] with ([] ++ [StartTag name attributes])%list.
  rewrite <- append_associative.
  eapply Reads_app; [ | exact Hafter ].
  each_name Hname; reflexivity.
Qed.

Lemma Reads_close (name : string) :
  Env.has ["span"; "p"; "div"] name = true ->
  Reads Data ("</" +:+ name +:+ ">") Data [EndTag name].
Proof. intros Hname. each_name Hname; reflexivity. Qed.

(** Reading a list of serialised nodes, given that each of them is read
    back. *)
Lemma Reads_nodes (inP : bool) (l : list Node) :
  Forall (fun n => forall inP, stableNode inP n = true ->
                               Reads Data (serialize false n) Data (tokensOf n)) l ->
  forallb (stableNode inP) l = true ->
  Reads Data (String.concat "" (map (serialize false) l)) Data (flat_map tokensOf l).
Proof.
  induction 1 as [ | n l Hn Hl IH ]; intros Hs.
  - reflexivity.
  - cbn [map flat_map]. rewrite concat_cons.
    cbn in Hs. apply andb_prop in Hs as [Hsn Hsl].
    eapply Reads_app; [ apply (Hn inP Hsn) | apply (IH Hsl) ].
Qed.

Lemma Reads_rawSafe (content : string) :
  rawSafe content = true ->
  Reads (Rawtext "") (content +:+ "</style>") Data [RawElement "style" content].
Proof. unfold rawSafe, Reads. apply bool_decide_eq_true_1. Qed.

(** An element with content, as it is written, is read back as its start
    tag, the tokens of its children and its end tag. *)
Lemma Reads_element (inP : bool) (name : string) (attributes : list Attribute)
      (children : list Node) :
  Env.has ["span"; "p"; "div"] name = true ->
  plainAttributes attributes = true ->
  Forall (fun n => forall inP, stableNode inP n = true ->
                               Reads Data (serialize false n) Data (tokensOf n)) children ->
  forallb (stableNode inP) children = true ->
  Reads Data
        (("<" +:+ name +:+ writeAttributes attributes +:+ ">")
         +:+ (String.concat "" (map (serialize false) children) +:+ ("</" +:+ name +:+ ">")))
        Data
        ([StartTag name attributes] ++ flat_map tokensOf children ++ [EndTag name])%list.
Proof.
  intros Hname Hplain IH Hs.
  eapply Reads_app.
  { apply Reads_open; [ | exact Hplain ]. each_name Hname; reflexivity. }
  eapply Reads_app; [ apply (Reads_nodes inP _ IH Hs) | now apply Reads_close ].
Qed.

(** How an element is written. *)
Lemma serialize_element (raw : bool) (name : string) (attributes : list Attribute)
      (children : list Node) :
  Env.has void name = false ->
  serialize raw (Element name attributes children)
  = ("<" +:+ name +:+ writeAttributes attributes +:+ ">")
    +:+ (String.concat "" (map (serialize (String.eqb name "style")) children)
         +:+ ("</" +:+ name +:+ ">")).
Proof. intros Hvoid. cbn [serialize]. rewrite Hvoid, !append_associative. reflexivity. Qed.

Lemma serialize_void (raw : bool) (name : string) (attributes : list Attribute)
      (children : list Node) :
  Env.has void name = true ->
  serialize raw (Element name attributes children)
  = "<" +:+ name +:+ writeAttributes attributes +:+ ">".
Proof. intros Hvoid. cbn [serialize]. rewrite Hvoid. reflexivity. Qed.

(** A serialised stable node is read back as its tokens. *)
Lemma Reads_node (n : Node) :
  forall inP, stableNode inP n = true -> Reads Data (serialize false n) Data (tokensOf n).
Proof.
  induction n as [ d | name attributes children IH ] using Node_forall_ind; intros inP Hs.
  - cbn in *. apply Reads_text. now apply safeText_chars.
  - cbn [stableNode] in Hs.
    destruct (String.eqb_spec name "span") as [-> | Hspan].
    { apply andb_prop in Hs as [Hs _]. apply andb_prop in Hs as [Hplain Hs].
      rewrite serialize_element by reflexivity.
      apply (Reads_element inP "span"); [ reflexivity | assumption .. ]. }
    destruct (String.eqb_spec name "p") as [-> | Hp].
    { apply andb_prop in Hs as [Hs _]. apply andb_prop in Hs as [Hs Hchildren].
      apply andb_prop in Hs as [Hplain _].
      rewrite serialize_element by reflexivity.
      apply (Reads_element true "p"); [ reflexivity | assumption .. ]. }
    destruct (String.eqb_spec name "div") as [-> | Hdiv].
    { apply andb_prop in Hs as [Hs _]. apply andb_prop in Hs as [Hs Hchildren].
      apply andb_prop in Hs as [Hplain _].
      rewrite serialize_element by reflexivity.
      apply (Reads_element false "div"); [ reflexivity | assumption .. ]. }
    destruct (Env.has void name) eqn:Hvoid.
    { apply andb_prop in Hs as [Hplain _].
      rewrite serialize_void by exact Hvoid.
      assert (Htokens : tokensOf (Element name attributes children) = [StartTag name attributes])
        by (cbn [tokensOf]; rewrite Hvoid; each_name Hvoid; reflexivity).
      rewrite Htokens.
      apply Reads_open; [ | exact Hplain ]. each_name Hvoid; reflexivity. }
    destruct (String.eqb_spec name "style") as [-> | Hstyle]; [ | discriminate ].
    apply andb_prop in Hs as [Hbare Hs].
    destruct attributes; [ | discriminate ].
    destruct children as [ | [ ? ? ? | content ] [ | ? ? ] ]; try discriminate.
    + reflexivity.
    + apply andb_prop in Hs as [_ Hraw].
      change (Reads Data ("<style>" +:+ (content +:+ "</style>"))
                    Data ([] ++ [RawElement "style" content])).
      eapply Reads_app; [ reflexivity | now apply Reads_rawSafe ].
Qed.

End ReadingBack.

(** ** Rebuilding the tree from the tokens of its serialisation *)

Section Rebuilding.
Import Html.


Lemma snoc_append (d : string) (c : ascii) (cs : string) :
  snoc d c +:+ cs = d +:+ String c cs.
Proof. unfold snoc. now rewrite append_associative. Qed.

Lemma build_chars (cs : string) :
  forall h g name attributes d rest below,
    fold_left treeStep (map Chr (list_ascii_of_string cs))
              (inBodyState h g (frame name attributes (Text d :: rest) :: below))
    = inBodyState h g (frame name attributes (Text (d +:+ cs) :: rest) :: below).
Proof.
  induction cs as [ | c cs IH ]; intros h g name attributes d rest below.
  - cbn. now rewrite append_empty.
  - cbn [list_ascii_of_string map fold_left].
    change (treeStep (inBodyState h g (frame name attributes (Text d :: rest) :: below)) (Chr c))
      with (inBodyState h g (frame name attributes (Text (snoc d c) :: rest) :: below)).
    rewrite IH. now rewrite snoc_append.
Qed.

Lemma build_text (t : string) :
  forall h g name attributes children below,
    safeText t = true -> startsWithText children = false ->
    fold_left treeStep (map Chr (list_ascii_of_string t))
              (inBodyState h g (frame name attributes children :: below))
    = inBodyState h g (frame name attributes (Text t :: children) :: below).
Proof.
  intros h g name attributes children below Ht Hc.
  destruct t as [ | c cs ]; [ discriminate | ].
  cbn [list_ascii_of_string map fold_left].
  assert (Hstep : treeStep (inBodyState h g (frame name attributes children :: below)) (Chr c)
                  = inBodyState h g
                      (frame name attributes (Text (String c "") :: children) :: below)).
  { destruct children as [ | [ ? ? ? | ? ] ? ]; try discriminate; reflexivity. }
  rewrite Hstep, build_chars. reflexivity.
Qed.


Lemma rebuild_list (l : list Node) :
  Forall Rebuilds l ->
  forall inP h g name attributes children below,
    inStack "p" (frame name attributes children :: below) = inP ->
    forallb (stableNode inP) l = true ->
    noAdjacentText l = true ->
    startsWithText l && startsWithText children = false ->
    fold_left treeStep (flat_map tokensOf l)
              (inBodyState h g (frame name attributes children :: below))
    = inBodyState h g (frame name attributes (rev l ++ children)%list :: below).
Proof.
  induction 1 as [ | n l Hn Hl IH ];
    intros inP h g name attributes children below Hp Hs Hadj Hjoin.
  - reflexivity.
  - cbn [flat_map]. rewrite fold_left_app.
    cbn in Hs. apply andb_prop in Hs as [Hsn Hsl].
    rewrite (Hn inP h g name attributes children below Hp Hsn)
      by (destruct n; [ reflexivity | exact Hjoin ]).
    rewrite (IH inP h g name attributes (n :: children) below); try assumption.
    + cbn [rev]. now rewrite <- app_assoc.
    + destruct n as [ nm at' ch | d ];
        exact Hadj || (cbn in Hadj; now destruct l as [ | [ ? ? ? | ? ] ? ]).
    + destruct n as [ nm at' ch | d ]; cbn in *.
      * apply andb_false_r.
      * destruct l as [ | [ ? ? ? | ? ] ? ]; try discriminate; reflexivity.
Qed.

(** An element with content: its start tag opens it, its children are
    rebuilt in it, and its end tag closes it. *)
Lemma rebuild_element (inP inside : bool) (nm : string) (attributes : list Attribute)
      (ch : list Node) :
  Forall Rebuilds ch ->
  forall h g name attributes' children below,
    inStack "p" (frame name attributes' children :: below) = inP ->
    Env.has ["span"; "p"; "div"] nm = true ->
    (String.eqb nm "span" = false -> inP = false) ->
    inside = (String.eqb nm "p" || (String.eqb nm "span" && inP)) ->
    forallb (stableNode inside) ch = true ->
    noAdjacentText ch = true ->
    fold_left treeStep ((StartTag nm attributes :: flat_map tokensOf ch) ++ [EndTag nm])
              (inBodyState h g (frame name attributes' children :: below))
    = inBodyState h g
        (frame name attributes' (Element nm attributes ch :: children) :: below).
Proof.
  intros IH h g name attributes' children below Hp Hnm Hout Hinside Hs Hadj.
  assert (Hstart : treeStep (inBodyState h g (frame name attributes' children :: below))
                            (StartTag nm attributes)
                   = inBodyState h g (frame nm attributes []
                                        :: frame name attributes' children :: below)).
  { each_name Hnm.
    - reflexivity.
    - rewrite (Hout eq_refl) in Hp.
      unfold treeStep, inBody, popTo.
      cbn [mode stack inBodyState Env.has existsb String.eqb Ascii.eqb Bool.eqb orb].
      unfold frame in Hp. cbn in Hp. cbn. rewrite Hp. reflexivity.
    - rewrite (Hout eq_refl) in Hp.
      unfold treeStep, inBody, popTo.
      cbn [mode stack inBodyState Env.has existsb String.eqb Ascii.eqb Bool.eqb orb].
      unfold frame in Hp. cbn in Hp. cbn. rewrite Hp. reflexivity. }
  rewrite fold_left_app. cbn [fold_left flat_map]. rewrite Hstart.
  rewrite (rebuild_list ch IH inside h g nm attributes []
             (frame name attributes' children :: below));
    [ | | exact Hs | exact Hadj | apply andb_false_r ].
  - rewrite app_nil_r.
    each_name Hnm; cbn; unfold setStack, addChild, toNode, frame, inBodyState; cbn;
      rewrite rev_involutive; reflexivity.
  - subst inside. unfold frame in *. cbn [inStack existsb f_name] in *.
    each_name Hnm; cbn [String.eqb Ascii.eqb Bool.eqb orb andb]; try reflexivity.
    + exact Hp.
    + rewrite Hp. now apply Hout.
Qed.

Lemma rebuild_node (n : Node) : Rebuilds n.
Proof.
  induction n as [ d | nm attributes ch IH ] using Node_forall_ind;
    intros inP h g name attributes' children below Hp Hs Hjoin.
  - apply build_text; [ exact Hs | ].
    cbn in Hjoin. exact Hjoin.
  - cbn [stableNode] in Hs. cbn [tokensOf].
    destruct (String.eqb_spec nm "span") as [-> | Hspan].
    { apply andb_prop in Hs as [Hs Hadj]. apply andb_prop in Hs as [_ Hs].
      cbn [String.eqb Ascii.eqb Bool.eqb Env.has existsb void orb].
      apply (rebuild_element inP inP "span"); try assumption; try reflexivity.
      discriminate. }
    destruct (String.eqb_spec nm "p") as [-> | Hnp].
    { apply andb_prop in Hs as [Hs Hadj]. apply andb_prop in Hs as [Hs Hch].
      apply andb_prop in Hs as [_ HinP]. apply negb_true_iff in HinP.
      cbn [String.eqb Ascii.eqb Bool.eqb Env.has existsb void orb].
      apply (rebuild_element inP true "p"); try assumption; try reflexivity.
      intros _. exact HinP. }
    destruct (String.eqb_spec nm "div") as [-> | Hdiv].
    { apply andb_prop in Hs as [Hs Hadj]. apply andb_prop in Hs as [Hs Hch].
      apply andb_prop in Hs as [_ HinP]. apply negb_true_iff in HinP.
      cbn [String.eqb Ascii.eqb Bool.eqb Env.has existsb void orb].
      apply (rebuild_element inP false "div"); try assumption; try reflexivity.
      intros _. exact HinP. }
    destruct (Env.has void nm) eqn:Hvoid.
    { apply andb_prop in Hs as [_ Hch]. destruct ch; [ | discriminate ].
      assert (Hstyle : String.eqb nm "style" = false) by (each_name Hvoid; reflexivity).
      rewrite Hstyle. each_name Hvoid; reflexivity. }
    destruct (String.eqb_spec nm "style") as [-> | Hstyle]; [ | discriminate ].
    apply andb_prop in Hs as [Hbare Hs]. destruct attributes; [ | discriminate ].
    destruct ch as [ | [ ? ? ? | content ] [ | ? ? ] ]; try discriminate.
    + reflexivity.
    + apply andb_prop in Hs as [Hne _].
      destruct content; [ discriminate | reflexivity ].
Qed.

End Rebuilding.

(** ** The second pass of the sanitiser *)

Section SecondPass.
Import Html.
Local Arguments isSpace : simpl never.


Lemma solid_first (l : list Node) :
  startsSolid l = true -> forallb (stableNode false) l = true ->
  exists t rest, flat_map tokensOf l = t :: rest /\ solidToken t = true.
Proof.
  destruct l as [ | [ name attributes children | [ | c d ] ] l ]; try discriminate.
  - cbn [startsSolid flat_map tokensOf forallb stableNode]. intros Hstyle Hs.
    apply negb_true_iff in Hstyle. rewrite Hstyle.
    apply andb_prop in Hs as [Hs _].
    destruct (String.eqb_spec name "span") as [-> | Hspan]; [ do 2 eexists; split; reflexivity | ].
    destruct (String.eqb_spec name "p") as [-> | Hp]; [ do 2 eexists; split; reflexivity | ].
    destruct (String.eqb_spec name "div") as [-> | Hdiv]; [ do 2 eexists; split; reflexivity | ].
    destruct (Env.has void name) eqn:Hvoid; [ | rewrite Hstyle in Hs; discriminate ].
    do 2 eexists. split; [ reflexivity | ]. each_name Hvoid; reflexivity.
  - cbn. intros Hc _. do 2 eexists. split; [ reflexivity | exact Hc ].
Qed.

(** A solid token met in the head, or before anything else, is handled in
    body. *)
Lemma solid_from_head (t : Token) (h : list Node) :
  solidToken t = true ->
  treeStep {| mode := InHead; headRev := h; gapRev := []; stack := [] |} t
  = treeStep (inBodyState h [] [frame "body" [] []]) t.
Proof.
  destruct t as [ c | name attributes | name | name content | ]; try discriminate.
  - cbn. intros Hc. apply negb_true_iff in Hc. rewrite Hc. reflexivity.
  - cbn [solidToken]. intros Hn. each_name Hn; reflexivity.
Qed.

Lemma solid_from_start (t : Token) :
  solidToken t = true ->
  treeStep start t = treeStep (inBodyState [] [] [frame "body" [] []]) t.
Proof.
  destruct t as [ c | name attributes | name | name content | ]; try discriminate.
  - cbn. intros Hc. apply negb_true_iff in Hc. rewrite !Hc. reflexivity.
  - cbn [solidToken]. intros Hn. each_name Hn; reflexivity.
Qed.

Lemma document_at_end (h children : list Node) :
  document (fold_left treeStep [EOF] (inBodyState h [] [frame "body" [] children]))
  = Element "html" [] [Element "head" [] (rev h); Element "body" [] (rev children)].
Proof. reflexivity. Qed.

Section Body.
Variable bc : list Node.
Hypothesis stable : forallb (stableNode false) bc = true.
Hypothesis apart : noAdjacentText bc = true.
Hypothesis solid : startsSolid bc = true.

Let written : string := String.concat "" (map (serialize false) bc).

Lemma body_reads : Reads Data written Data (flat_map tokensOf bc).
Proof.
  apply (Reads_nodes false); [ | exact stable ].
  apply Forall_forall. intros n _. apply Reads_node.
Qed.

Lemma body_rebuilt (h : list Node) :
  fold_left treeStep (flat_map tokensOf bc) (inBodyState h [] [frame "body" [] []])
  = inBodyState h [] [frame "body" [] (rev bc)].
Proof.
  rewrite (rebuild_list bc) with (inP := false).
  - now rewrite app_nil_r.
  - apply Forall_forall. intros n _. apply rebuild_node.
  - reflexivity.
  - exact stable.
  - exact apart.
  - apply andb_false_r.
Qed.

(** The output without a style block parses to the body content under an
    empty head. *)
Lemma parse_plain_output :
  parse written = Some (Element "html" [] [Element "head" [] []; Element "body" [] bc]).
Proof.
  unfold parse, tokenize.
  rewrite <- (append_empty written).
  rewrite (Reads_tokenize Data written "" _ [EOF] body_reads eq_refl).
  destruct (solid_first bc solid stable) as (t & rest & Htokens & Ht).
  rewrite fold_left_app.
  assert (Hbody : fold_left treeStep (flat_map tokensOf bc) start
                  = inBodyState [] [] [frame "body" [] (rev bc)]).
  { rewrite <- body_rebuilt. rewrite Htokens. cbn [fold_left].
    now rewrite (solid_from_start t Ht). }
  rewrite Hbody, document_at_end, rev_involutive. reflexivity.
Qed.

(** The output with a style block parses to the style and a line feed in the
    head, and the body content. *)
Lemma parse_styled_output (styles : string) :
  rawSafe styles = true -> styles <> "" ->
  parse ("<style>" +:+ styles +:+ "</style>" +:+ LF +:+ written)
  = Some (Element "html" []
            [Element "head" [] [Element "style" [] [Text styles]; Text LF];
             Element "body" [] bc]).
Proof.
  intros Hraw Hne. unfold parse, tokenize.
  assert (Hread : Reads Data ("<style>" +:+ ((styles +:+ "</style>") +:+ (LF +:+ written)))
                        Data ([] ++ [RawElement "style" styles] ++ [Chr "010"%char]
                                 ++ flat_map tokensOf bc)%list).
  { eapply Reads_app; [ reflexivity | ].
    eapply Reads_app; [ now apply Reads_rawSafe | ].
    eapply Reads_app; [ reflexivity | exact body_reads ]. }
  rewrite append_associative in Hread.
  rewrite <- (append_empty written).
  assert (Hwhole : "<style>" +:+ styles +:+ "</style>" +:+ LF +:+ written +:+ ""
                   = ("<style>" +:+ styles +:+ "</style>" +:+ LF +:+ written) +:+ "").
  { now rewrite !append_empty. }
  rewrite Hwhole.
  rewrite (Reads_tokenize Data _ "" _ [EOF] Hread eq_refl).
  destruct (solid_first bc solid stable) as (t & rest & Htokens & Ht).
  cbn [app fold_left].
  change (treeStep start (RawElement "style" styles))
    with {| mode := InHead; headRev := [rawNode "style" styles]; gapRev := []; stack := [] |}.
  change (treeStep {| mode := InHead; headRev := [rawNode "style" styles];
                      gapRev := []; stack := [] |} (Chr "010"%char))
    with {| mode := InHead; headRev := [Text LF; rawNode "style" styles];
            gapRev := []; stack := [] |}.
  assert (Hbody : fold_left treeStep (flat_map tokensOf bc)
                    {| mode := InHead; headRev := [Text LF; rawNode "style" styles];
                       gapRev := []; stack := [] |}
                  = inBodyState [Text LF; rawNode "style" styles] [] [frame "body" [] (rev bc)]).
  { rewrite <- body_rebuilt. rewrite Htokens. cbn [fold_left].
    now rewrite (solid_from_head t _ Ht). }
  rewrite fold_left_app, Hbody, document_at_end, rev_involutive.
  destruct styles; [ contradiction | reflexivity ].
Qed.

(** Body content that starts solid is written as a non-empty string. *)
Lemma written_truthy : truthy (Some written) = true.
Proof.
  unfold written. destruct bc as [ | [ name attributes children | [ | c d ] ] l ];
    try discriminate.
  - rewrite map_cons, concat_cons. reflexivity.
  - rewrite map_cons, concat_cons. cbn.
    destruct (Ascii.eqb c "&"); [ reflexivity | ].
    destruct (Ascii.eqb c "<"); [ reflexivity | ].
    destruct (Ascii.eqb c ">"); reflexivity.
Qed.

End Body.

End SecondPass.

Section Idempotence.
Import Html.

Lemma elementsNamed_named (name : string) (doc : Node) :
  Forall (fun n => exists attributes children, n = Element name attributes children)
         (elementsNamed name doc).
Proof.
  induction doc as [ d | nm at' ch IH ] using Node_forall_ind; cbn [elementsNamed].
  - constructor.
  - apply Forall_app. split.
    + destruct (String.eqb_spec nm name) as [Heq | Hne]; [ | constructor ].
      subst nm. constructor; [ eauto | constructor ].
    + induction IH as [ | c cs Hc Hcs IHcs ]; cbn [flat_map]; [ constructor | ].
      apply Forall_app. split; assumption.
Qed.

(** A stable node has no [head] element in it. *)
Lemma stable_without_head (n : Node) :
  forall inP, stableNode inP n = true -> elementsNamed "head" n = [].
Proof.
  induction n as [ d | nm at' ch IH ] using Node_forall_ind; intros inP Hs;
    cbn [elementsNamed]; [ reflexivity | ].
  cbn [stableNode] in Hs.
  assert (Hinner : forall inP', forallb (stableNode inP') ch = true ->
                                flat_map (elementsNamed "head") ch = []).
  { clear Hs. intros inP'. induction IH as [ | c cs Hc Hcs IHcs ]; cbn; [ reflexivity | ].
    intros H. apply andb_prop in H as [H1 H2]. now rewrite (Hc inP' H1), (IHcs H2). }
  destruct (String.eqb_spec nm "span") as [Heq | Hspan].
  { subst nm. apply andb_prop in Hs as [Hs _]. apply andb_prop in Hs as [_ Hs].
    now rewrite (Hinner inP Hs). }
  destruct (String.eqb_spec nm "p") as [Heq | Hp].
  { subst nm. apply andb_prop in Hs as [Hs _]. apply andb_prop in Hs as [_ Hs].
    now rewrite (Hinner true Hs). }
  destruct (String.eqb_spec nm "div") as [Heq | Hdiv].
  { subst nm. apply andb_prop in Hs as [Hs _]. apply andb_prop in Hs as [_ Hs].
    now rewrite (Hinner false Hs). }
  destruct (Env.has void nm) eqn:Hvoid.
  { apply andb_prop in Hs as [_ Hch]. destruct ch; [ | discriminate ].
    each_name Hvoid; reflexivity. }
  destruct (String.eqb_spec nm "style") as [Heq | Hstyle]; [ | discriminate ].
  subst nm. apply andb_prop in Hs as [_ Hs].
  destruct ch as [ | [ ? ? ? | content ] [ | ? ? ] ]; try discriminate; reflexivity.
Qed.

Lemma stable_list_without_head (l : list Node) :
  forallb (stableNode false) l = true -> flat_map (elementsNamed "head") l = [].
Proof.
  induction l as [ | n l IH ]; cbn; [ reflexivity | ].
  intros H. apply andb_prop in H as [Hn Hl].
  now rewrite (stable_without_head n false Hn), (IH Hl).
Qed.

Lemma or_else_empty (a : option string) :
  Ews.or_else a "" = match a with Some s => s | None => "" end.
Proof. destruct a as [ [ | c s ] | ]; reflexivity. Qed.

Context {cheerio : Ews.Cheerio}.
Hypothesis agrees : Agrees cheerio.

(** What the sanitiser reads in markup of the fragment. *)
Lemma reads_on_fragment (input : string) (doc : Node) :
  parse input = Some doc ->
  stylesOf input = Ews.or_else (headStyleHtml doc) ""
  /\ bodyContentOf input = Ews.or_else (bodyHtml doc) (outerHtml doc).
Proof.
  intros Hparse. destruct (agrees input doc Hparse) as (Hstyle & Hbody & Hroot).
  unfold stylesOf, bodyContentOf. now rewrite Hstyle, Hbody, Hroot.
Qed.

(** The sanitiser by what it reads. *)
Lemma sanitize_reads (input : string) :
  Ews.sanitizeHtmlForEWS input
  = if truthy (Some (stylesOf input))
    then "<style>" +:+ stylesOf input +:+ "</style>" +:+ LF +:+ bodyContentOf input
    else bodyContentOf input.
Proof. reflexivity. Qed.

(** A second pass that reads what the first pass read returns what the first
    pass returned. *)
Lemma same_reads_same_output (input : string) :
  stylesOf (Ews.sanitizeHtmlForEWS input) = stylesOf input ->
  bodyContentOf (Ews.sanitizeHtmlForEWS input) = bodyContentOf input ->
  Ews.sanitizeHtmlForEWS (Ews.sanitizeHtmlForEWS input) = Ews.sanitizeHtmlForEWS input.
Proof.
  intros Hstyles Hbody.
  rewrite (sanitize_reads (Ews.sanitizeHtmlForEWS input)), Hstyles, Hbody.
  symmetry. apply sanitize_reads.
Qed.

(** Stable content, alone or under a style block, is read back as the
    content and the style text it was written from. *)
Lemma stable_output_reads (content : list Node) (styles : string) :
  stableContent content = true ->
  styles = "" \/ rawSafe styles = true ->
  let output :=
    if truthy (Some styles)
    then "<style>" +:+ styles +:+ "</style>" +:+ LF +:+ written content
    else written content in
  stylesOf output = styles /\ bodyContentOf output = written content.
Proof.
  intros Hstable Hraw.
  unfold stableContent in Hstable.
  apply andb_prop in Hstable as [Hstable Hsolid].
  apply andb_prop in Hstable as [Hnodes Hapart].
  pose proof (written_truthy content Hnodes Hapart Hsolid) as Htruthy.
  change (String.concat "" (map (serialize false) content)) with (written content) in Htruthy.
  destruct styles as [ | c s ]; cbn [truthy]; cbv zeta.
  - pose proof (parse_plain_output content Hnodes Hapart Hsolid) as Hsecond.
    change (String.concat "" (map (serialize false) content)) with (written content) in Hsecond.
    destruct (agrees _ _ Hsecond) as (Hstyle & Hbody & _).
    unfold stylesOf, bodyContentOf. rewrite Hstyle, Hbody.
    unfold headStyleHtml, bodyHtml.
    cbn [elementsNamed flat_map descendantsNamed String.eqb Ascii.eqb Bool.eqb app].
    rewrite (stable_list_without_head content Hnodes).
    cbn [head fmap option_fmap option_map app flat_map].
    split; [ reflexivity | ].
    change (innerHtml (Element "body" [] content)) with (written content).
    unfold Ews.or_else. now rewrite Htruthy.
  - destruct Hraw as [Hempty | Hraw]; [ discriminate | ].
    pose proof (parse_styled_output content Hnodes Hapart Hsolid (String c s) Hraw
                  ltac:(discriminate)) as Hsecond.
    change (String.concat "" (map (serialize false) content)) with (written content) in Hsecond.
    destruct (agrees _ _ Hsecond) as (Hstyle & Hbody & _).
    unfold stylesOf, bodyContentOf. rewrite Hstyle, Hbody.
    unfold headStyleHtml, bodyHtml.
    cbn [elementsNamed flat_map descendantsNamed String.eqb Ascii.eqb Bool.eqb app].
    cbn [head fmap option_fmap option_map innerHtml map serialize String.eqb Ascii.eqb Bool.eqb
         String.concat Ews.or_else truthy default from_option id].
    split; [ reflexivity | ].
    change (String.concat "" (map (serialize false) content)) with (written content).
    unfold Ews.or_else. now rewrite Htruthy.
Qed.

(** Whatever the markup, when the body content that the sanitiser reads in it
    is stable content as it is written, and the style text is read back as
    it is, a second pass returns the output of the first. *)
Lemma stable_content_idempotent (input : string) (content : list Node) :
  stableContent content = true ->
  bodyContentOf input = written content ->
  stylesOf input = "" \/ rawSafe (stylesOf input) = true ->
  Ews.sanitizeHtmlForEWS (Ews.sanitizeHtmlForEWS input) = Ews.sanitizeHtmlForEWS input.
Proof.
  intros Hstable Hbody Hstyles.
  destruct (stable_output_reads content (stylesOf input) Hstable Hstyles) as (Hs & Hb).
  cbv zeta in Hs, Hb. rewrite <- Hbody in Hs, Hb.
  rewrite <- sanitize_reads in Hs, Hb.
  now apply same_reads_same_output.
Qed.

End Idempotence.

(** ** The claim about the sanitiser *)

Section Sanitiser.
Context {cheerio : Ews.Cheerio}.
Hypothesis agrees : Html.Agrees cheerio.


(** A document whose body starts with a style element: the first pass keeps
    the style in the body content, the second pass finds it in the head and
    puts a line feed after it. *)
Lemma sanitize_style_in_body :
  Ews.sanitizeHtmlForEWS styleInBody = "<style>a</style><p>hi</p>"
  /\ Ews.sanitizeHtmlForEWS (Ews.sanitizeHtmlForEWS styleInBody)
     = "<style>a</style>" +:+ LF +:+ "<p>hi</p>".
Proof.
  assert (H1 : Ews.sanitizeHtmlForEWS styleInBody = "<style>a</style><p>hi</p>").
  { erewrite sanitize_on_fragment by (exact agrees || (vm_compute; reflexivity)).
    vm_compute. reflexivity. }
  split; [ exact H1 | ]. rewrite H1.
  erewrite sanitize_on_fragment by (exact agrees || (vm_compute; reflexivity)).
  vm_compute. reflexivity.
Qed.

End Sanitiser.

Lemma model_agrees : Html.Agrees Html.model.
Proof.
  intros input doc Hparse. cbn. rewrite Hparse. repeat split.
Qed.

(** The sample implementation agrees with the model: markup that starts with
    a document type declaration is outside the fragment. *)
Lemma after_append (start s markup : string) :
  after start s = Some markup -> s = start +:+ markup.
Proof.
  revert s. induction start as [ | a start IH ]; intros s; cbn.
  - intros H. now injection H as <-.
  - destruct s as [ | b s ]; [ discriminate | ].
    destruct (Ascii.eqb_spec a b) as [<- | ]; [ | discriminate ].
    intros H. rewrite append_cons. f_equal. now apply IH.
Qed.

Lemma withDoctype_agrees : Html.Agrees withDoctype.
Proof.
  intros input doc Hparse. cbn [withDoctype Ews.load Ews.selectHtml Ews.rootHtml].
  destruct (after doctype input) as [markup | ] eqn:Hafter.
  - apply after_append in Hafter. subst input. discriminate Hparse.
  - cbn [fst snd Html.model Ews.load Ews.selectHtml Ews.rootHtml].
    rewrite Hparse. repeat split.
Qed.



(** ** Further properties of the adapters *)

(** X1. Once [getTransporter] has returned a transporter, calling it again
    returns the same one and leaves the state as it is: nothing is created a
    second time. *)
Theorem getTransporter_reuses
    (world : World) (config : Env.MailConfig) (s s1 : State) (t : Transporter) :
  Smtp.getTransporter world config s = (Normal t, s1) ->
  Smtp.getTransporter world config s1 = (Normal t, s1).
Proof.
  unfold Smtp.getTransporter, Eff.bind, getState.
  destruct (transporter s) as [existing | ] eqn:Hs.
  - cbn. intros H. injection H as <- <-. rewrite Hs. reflexivity.
  - cbn. destruct (createTransport world _) as [e | ]; cbn; [ discriminate | ].
    intros H. injection H as <- <-. reflexivity.
Qed.

Lemma getTransporter_reuses_witness :
  exists t s1,
    Smtp.getTransporter calm relayOnly initial = (Normal t, s1)
    /\ trace s1 = [CreateTransport t]
    /\ Smtp.getTransporter calm relayOnly s1 = (Normal t, s1).
Proof.
  do 2 eexists. split; [ vm_compute; reflexivity | split; [ reflexivity | ] ].
  apply (getTransporter_reuses calm relayOnly initial). vm_compute. reflexivity.
Defined.

Lemma Throws_lift {A} (Q : Value -> Prop) (c : Completion A) :
  (forall v, c = Throw v -> Q v) -> Throws Q (lift c).
Proof. intros H s v s' E. injection E as E _. now apply H. Qed.

Lemma Throws_rethrow {A} (Q : Value -> Prop) (m : M A) (h : Value -> M A) :
  Throws Q m -> (forall v, Q v -> Throws Q (h v)) -> Throws Q (try_catch m h).
Proof.
  intros Hm Hh s v s'. unfold try_catch.
  destruct (m s) as [[a | w] s1] eqn:E; [ discriminate | ].
  apply Hh. eapply Hm, E.
Qed.

(** X2. Every error that leaves [sendEmailViaEWS] is an [EWSConfigError], an
    [EWSConnectionError] or an [EWSSendError]. *)
Theorem sendEmailViaEWS_error_kinds
    (cheerio : Ews.Cheerio) (world : World) (config : Env.MailConfig)
    (payload : EWSEmailPayload) :
  Throws (fun v => instanceof v EWSConfigError || instanceof v EWSConnectionError
                   || instanceof v EWSSendError = true)
         (Ews.sendEmailViaEWS world config payload).
Proof.
  unfold Ews.sendEmailViaEWS.
  apply Throws_bind; [ apply Throws_emit | intros _ ].
  apply Throws_bind.
  { apply Throws_lift. unfold Ews.resolveConfig. intros v H.
    repeat match type of H with
           | (if ?b then _ else _) = _ => destruct b
           end; try discriminate; injection H as <-; reflexivity. }
  intros cfg. apply Throws_bind.
  { apply Throws_rethrow.
    - unfold Ews.createExchangeService. walk.
    - intros v Hv. walk. }
  intros service. apply Throws_bind; [ walk | intros message ].
  apply Throws_try_catch. intros error.
  apply Throws_bind; [ apply Throws_log | intros _ ].
  repeat match goal with
         | |- Throws _ (if ?b then _ else _) => destruct b
         end; walk.
Qed.

(** Runs with a condition on the result: every run of [m] adds only events
    that satisfy [P], and a result it returns satisfies [R]. *)
Lemma Run_bind {A B} (P : Event -> Prop) (R : A -> Prop) (R' : B -> Prop)
      (m : M A) (k : A -> M B) :
  Run P R m -> (forall a, R a -> Run P R' (k a)) -> Run P R' (Eff.bind m k).
Proof.
  intros Hm Hk s. unfold Eff.bind.
  destruct (Hm s) as (e1 & H1 & F1 & Hr). destruct (m s) as [[a | v] s1]; cbn in *.
  - destruct (Hk a (Hr a eq_refl) s1) as (e2 & H2 & F2 & Hr2).
    exists (e1 ++ e2)%list. split; [ | split ].
    + unfold added_events in *. rewrite H2, H1. now rewrite app_assoc.
    + apply Forall_app. split; assumption.
    + exact Hr2.
  - exists e1. split; [ exact H1 | split; [ exact F1 | discriminate ] ].
Qed.

Lemma Run_try_catch {A} (P : Event -> Prop) (R : A -> Prop)
      (m : M A) (h : Value -> M A) :
  Run P R m -> (forall v, Run P R (h v)) -> Run P R (try_catch m h).
Proof.
  intros Hm Hh s. unfold try_catch.
  destruct (Hm s) as (e1 & H1 & F1 & Hr). destruct (m s) as [[a | v] s1]; cbn in *.
  - exists e1. auto.
  - destruct (Hh v s1) as (e2 & H2 & F2 & Hr2).
    exists (e1 ++ e2)%list. split; [ | split ].
    + unfold added_events in *. rewrite H2, H1. now rewrite app_assoc.
    + apply Forall_app. split; assumption.
    + exact Hr2.
Qed.

Lemma Run_quiet {A} (P : Event -> Prop) (R : A -> Prop) (c : Completion A) :
  (forall a, c = Normal a -> R a) -> Run P R (lift c).
Proof.
  intros Hr s. exists []. split; [ | split ].
  - unfold added_events. cbn. now rewrite app_nil_r.
  - constructor.
  - exact Hr.
Qed.

Lemma Run_emit (P : Event -> Prop) (R : unit -> Prop) (e : Event) :
  P e -> R tt -> Run P R (emit e).
Proof.
  intros He Hr s. exists [e]. split; [ reflexivity | split ].
  - constructor; [ exact He | constructor ].
  - intros []. intros _. exact Hr.
Qed.

Lemma Run_attempt (P : Event -> Prop) (o : option Value) :
  Run P (fun _ => True) (attempt o).
Proof. destruct o; apply (Run_quiet P (fun _ => True)); auto. Qed.

Section ExchangeMessage.
Context {cheerio : Ews.Cheerio}.
Variable world : World.
Variable config : Env.MailConfig.
Variable payload : EWSEmailPayload.

(** X3. The message that [sendEmailViaEWS] submits, if it gets that far: the
    sender address is the configured Exchange address, the display name is
    the payload's or "DjazairMed", and the body is the sanitised HTML when
    there is HTML, the text otherwise. *)
Theorem sendEmailViaEWS_message :
  Run (fun e => forall message, e = SendAndSaveCopy message ->
         Some (msg_fromAddress (msg_head message)) = Env.fromEmail <$> Env.exchange config
         /\ msg_fromName (msg_head message) = Ews.or_else (ews_fromName payload) "DjazairMed"
         /\ msg_to (msg_head message) = ews_to payload
         /\ msg_subject (msg_head message) = ews_subject payload
         /\ (msg_bodyType message, msg_body message)
            = if truthy (ews_html payload)
              then (HTML, Ews.sanitizeHtmlForEWS (default "" (ews_html payload)))
              else (Text, default "" (ews_text payload)))
      (fun _ => True)
      (Ews.sendEmailViaEWS world config payload).
Proof.
  set (P := fun e : Event => forall message, e = SendAndSaveCopy message -> _).
  assert (Hlog : forall level line, Run P (fun _ => True) (log level line)).
  { intros level line. apply Run_emit; [ intros m H; discriminate | exact I ]. }
  unfold Ews.sendEmailViaEWS.
  apply Run_bind with (R := fun _ => True);
    [ apply Run_emit; [ intros m H; discriminate | exact I ] | intros _ _ ].
  apply Run_bind
    with (R := fun cfg => Some (Ews.exchangeFromEmail cfg)
                          = Env.fromEmail <$> Env.exchange config).
  { apply Run_quiet. unfold Ews.resolveConfig. intros cfg H.
    destruct (Env.exchange config) as [ex | ]; [ | discriminate ]. cbn in *.
    repeat match type of H with
           | (if ?b then _ else _) = _ => destruct b
           end; try discriminate. injection H as <-. reflexivity. }
  intros cfg Hcfg.
  apply Run_bind with (R := fun _ => True).
  { apply Run_try_catch.
    - unfold Ews.createExchangeService. apply Run_try_catch.
      + apply Run_bind with (R := fun _ => True); [ apply Run_attempt | intros _ _ ].
        apply (Run_quiet P (fun _ => True) (Normal _)). auto.
      + intros v. apply (Run_quiet P (fun _ => True) (Throw _)). auto.
    - intros v. apply Run_bind with (R := fun _ => True); [ apply Hlog | intros _ _ ].
      apply (Run_quiet P (fun _ => True) (Throw _)). auto. }
  intros service _.
  apply Run_bind with (R := fun message => P (SendAndSaveCopy message)).
  { apply Run_try_catch.
    - apply Run_bind with (R := fun _ => True); [ apply Run_attempt | intros _ _ ].
      destruct (truthy (ews_html payload)) eqn:Hhtml.
      + apply Run_bind with (R := fun _ => True); [ apply Run_attempt | intros _ _ ].
        apply (Run_quiet P _ (Normal _)). intros a H. injection H as <-.
        intros m Hm. injection Hm as <-. cbn. repeat split. exact Hcfg.
      + destruct (truthy (ews_text payload)) eqn:Htext.
        * apply Run_bind with (R := fun _ => True); [ apply Run_attempt | intros _ _ ].
          apply (Run_quiet P _ (Normal _)). intros a H. injection H as <-.
          intros m Hm. injection Hm as <-. cbn. repeat split. exact Hcfg.
        * apply (Run_quiet P _ (Throw _)). discriminate.
    - intros v. apply Run_bind with (R := fun _ => True); [ apply Hlog | intros _ _ ].
      apply (Run_quiet P _ (Throw _)). discriminate. }
  intros message Hmessage.
  apply Run_try_catch.
  - apply Run_bind with (R := fun _ => True);
      [ apply Run_emit; [ exact Hmessage | exact I ] | intros _ _ ].
    apply Run_bind with (R := fun _ => True); [ apply Run_attempt | intros _ _ ].
    apply Hlog.
  - intros v. apply Run_bind with (R := fun _ => True); [ apply Hlog | intros _ _ ].
    repeat match goal with
           | |- Run _ _ (if ?b then _ else _) => destruct b
           end; apply (Run_quiet P _ (Throw _)); discriminate.
Qed.

End ExchangeMessage.

Lemma sendEmailViaEWS_message_witness :
  trace (snd (Ews.sendEmailViaEWS (cheerio := Html.model) calm withExchange
                {| ews_to := "a@b.com"; ews_subject := "[Djazairmed] Hello";
                   ews_text := Some "hey"; ews_html := Some "<p>hi</p>";
                   ews_fromName := Some "Mail Service" |} initial))
  = [Enter (CallSendEmailViaEWS
              {| ews_to := "a@b.com"; ews_subject := "[Djazairmed] Hello";
                 ews_text := Some "hey"; ews_html := Some "<p>hi</p>";
                 ews_fromName := Some "Mail Service" |});
     SendAndSaveCopy
       {| msg_head := {| msg_service := {| svc_username := "svc"; svc_password := "pw";
                                           svc_url := "https://mail.example.com/EWS/Exchange.asmx" |};
                         msg_fromName := "Mail Service";
                         msg_fromAddress := "svc@example.com";
                         msg_to := "a@b.com";
                         msg_subject := "[Djazairmed] Hello" |};
          msg_bodyType := HTML;
          msg_body := "<p>hi</p>" |};
     Log "info" "[ews-service] Email sent successfully"]
  /\ exists added,
       added_events initial
         (snd (Ews.sendEmailViaEWS (cheerio := Html.model) calm withExchange
                 {| ews_to := "a@b.com"; ews_subject := "[Djazairmed] Hello";
                    ews_text := Some "hey"; ews_html := Some "<p>hi</p>";
                    ews_fromName := Some "Mail Service" |} initial)) added.
Proof.
  split; [ vm_compute; reflexivity | ].
  destruct (sendEmailViaEWS_message (cheerio := Html.model) calm withExchange
              {| ews_to := "a@b.com"; ews_subject := "[Djazairmed] Hello";
                 ews_text := Some "hey"; ews_html := Some "<p>hi</p>";
                 ews_fromName := Some "Mail Service" |} initial)
    as (added & Hadded & _).
  exists added. exact Hadded.
Defined.

(** * Further properties

    Properties of the code around the claims: the rest of env.ts, the
    adapters and the dispatcher beyond what the claims state, the earlier
    revisions of services/mail.ts with the route and the entry point built on
    them, and the client. *)

(** ** More on runs *)

Lemma Run_ret {A} (P : Event -> Prop) (R : A -> Prop) (a : A) : R a -> Run P R (ret a).
Proof. intros Hr. apply (Run_quiet P R (Normal a)). intros b H. now injection H as <-. Qed.

Lemma Run_throw {A} (P : Event -> Prop) (R : A -> Prop) (v : Value) : Run P R (@throw A v).
Proof. apply (Run_quiet P R (Throw v)). discriminate. Qed.

Lemma Run_log (P : Event -> Prop) (level line : string) :
  P (Log level line) -> Run P (fun _ => True) (log level line).
Proof. intros Hp. now apply Run_emit. Qed.

Lemma Run_getTransporter (P : Event -> Prop) (world : World) (config : Env.MailConfig) :
  (forall t, P (CreateTransport t)) ->
  Run P (fun _ => True) (Smtp.getTransporter world config).
Proof.
  intros Hp. unfold Smtp.getTransporter.
  apply Run_bind with (R := fun _ => True).
  { intros s. exists []. split; [ unfold added_events; cbn; now rewrite app_nil_r | ].
    split; [ constructor | auto ]. }
  intros s _. destruct (transporter s); [ now apply Run_ret | ].
  apply Run_bind with (R := fun _ => True); [ apply Run_emit; [ apply Hp | exact I ] | intros _ _ ].
  apply Run_bind with (R := fun _ => True); [ apply Run_attempt | intros _ _ ].
  apply Run_bind with (R := fun _ => True); [ | intros _ _; now apply Run_ret ].
  intros s'. exists []. split; [ unfold added_events; cbn; now rewrite app_nil_r | ].
  split; [ constructor | auto ].
Qed.

Lemma Run_try_catch_throws {A} (P : Event -> Prop) (R : A -> Prop) (Q : Value -> Prop)
      (m : M A) (h : Value -> M A) :
  Run P R m -> Throws Q m -> (forall v, Q v -> Run P R (h v)) -> Run P R (try_catch m h).
Proof.
  intros Hm Hq Hh s. unfold try_catch.
  destruct (Hm s) as (e1 & H1 & F1 & Hr).
  destruct (m s) as [[a | v] s1] eqn:Hrun; cbn in *.
  - exists e1. auto.
  - destruct (Hh v (Hq s v s1 Hrun) s1) as (e2 & H2 & F2 & Hr2).
    exists (e1 ++ e2)%list. split; [ | split ].
    + unfold added_events in *. rewrite H2, H1. now rewrite app_assoc.
    + apply Forall_app. split; assumption.
    + exact Hr2.
Qed.

(** ** Strings: reversal and trimming *)

Lemma rev_app_append (s t : string) : String.rev_app s t = String.rev s +:+ t.
Proof.
  unfold String.rev. revert t.
  induction s as [ | c s IH ]; intros t; cbn; [ reflexivity | ].
  rewrite (IH (String c t)), (IH (String c "")).
  rewrite append_associative. reflexivity.
Qed.

Lemma rev_cons (c : ascii) (s : string) :
  String.rev (String c s) = String.rev s +:+ String c "".
Proof. unfold String.rev at 1. cbn. apply rev_app_append. Qed.

Lemma rev_append (s t : string) : String.rev (s +:+ t) = String.rev t +:+ String.rev s.
Proof.
  induction s as [ | c s IH ].
  - cbn. now rewrite append_empty.
  - rewrite append_cons, !rev_cons, IH. apply append_associative.
Qed.

Lemma rev_rev (s : string) : String.rev (String.rev s) = s.
Proof.
  induction s as [ | c s IH ]; [ reflexivity | ].
  rewrite rev_cons, rev_append, IH. reflexivity.
Qed.

Section Stripped.
Variable one : ascii -> bool.
Variable two : ascii -> ascii -> bool.
Variable three : ascii -> ascii -> ascii -> bool.

Lemma strip_cons (a : ascii) (r1 : string) :
  strip one two three (String a r1)
  = if one a then strip one two three r1
    else
      match r1 with
      | String b r2 =>
          if two a b then strip one two three r2
          else
            match r2 with
            | String c r3 =>
                if three a b c then strip one two three r3 else String a r1
            | EmptyString => String a r1
            end
      | EmptyString => String a r1
      end.
Proof. reflexivity. Qed.

Lemma strip_ahead_bounded (n : nat) (s : string) :
  (String.length s <= n)%nat -> spaceAhead one two three (strip one two three s) = false.
Proof.
  revert s. induction n as [ | n IH ]; intros s Hn.
  { destruct s; [ reflexivity | cbn in Hn; lia ]. }
  destruct s as [ | a r1 ]; [ reflexivity | ]. rewrite strip_cons.
  destruct (one a) eqn:Ha; [ apply IH; cbn in *; lia | ].
  destruct r1 as [ | b r2 ]; [ cbn; now rewrite Ha | ].
  destruct (two a b) eqn:Hb; [ apply IH; cbn in *; lia | ].
  destruct r2 as [ | c r3 ]; [ cbn; now rewrite Ha, Hb | ].
  destruct (three a b c) eqn:Hc; [ apply IH; cbn in *; lia | ].
  cbn. now rewrite Ha, Hb, Hc.
Qed.

(** What is left has no white space at its start. *)
Lemma strip_ahead (s : string) : spaceAhead one two three (strip one two three s) = false.
Proof. now apply (strip_ahead_bounded (String.length s)). Qed.

Lemma strip_fixed (s : string) :
  spaceAhead one two three s = false -> strip one two three s = s.
Proof.
  destruct s as [ | a [ | b [ | c r3 ] ] ]; cbn; [ reflexivity | | | ].
  - destruct (one a); [ discriminate | reflexivity ].
  - destruct (one a); [ discriminate | ]. destruct (two a b); [ discriminate | reflexivity ].
  - destruct (one a); [ discriminate | ]. destruct (two a b); [ discriminate | ].
    destruct (three a b c); [ discriminate | reflexivity ].
Qed.

Lemma strip_suffix_bounded (n : nat) (s : string) :
  (String.length s <= n)%nat -> exists w, s = w +:+ strip one two three s.
Proof.
  revert s. induction n as [ | n IH ]; intros s Hn.
  { destruct s; [ now exists "" | cbn in Hn; lia ]. }
  assert (Hdrop : forall w r, (String.length r <= n)%nat ->
                    exists w', w +:+ r = w' +:+ strip one two three r).
  { intros w r Hr. destruct (IH r Hr) as (w' & Hw'). exists (w +:+ w').
    rewrite append_associative. now rewrite <- Hw'. }
  destruct s as [ | a r1 ]; [ now exists "" | ]. rewrite strip_cons.
  destruct (one a); [ apply (Hdrop (String a "")); cbn in *; lia | ].
  destruct r1 as [ | b r2 ]; [ now exists "" | ].
  destruct (two a b); [ apply (Hdrop (String a (String b ""))); cbn in *; lia | ].
  destruct r2 as [ | c r3 ]; [ now exists "" | ].
  destruct (three a b c); [ | now exists "" ].
  apply (Hdrop (String a (String b (String c "")))); cbn in *; lia.
Qed.

(** What is dropped is at the start. *)
Lemma strip_suffix (s : string) : exists w, s = w +:+ strip one two three s.
Proof. now apply (strip_suffix_bounded (String.length s)). Qed.

(** White space at the start of a text is at the start of every text that
    continues it. *)
Lemma spaceAhead_append (s w : string) :
  spaceAhead one two three s = true -> spaceAhead one two three (s +:+ w) = true.
Proof.
  destruct s as [ | a [ | b [ | c r3 ] ] ]; rewrite ?append_cons;
    change ("" +:+ w) with w; cbn; [ discriminate | | | ].
  - rewrite orb_false_r. intros Ha. now rewrite Ha.
  - destruct (one a); [ reflexivity | ]. cbn. rewrite orb_false_r.
    intros Hb. now rewrite Hb.
  - trivial.
Qed.

End Stripped.

Lemma trimStart_starts (s : string) : startsWithSpace (trimStart s) = false.
Proof. apply strip_ahead. Qed.

Lemma trimStart_fixed (s : string) : startsWithSpace s = false -> trimStart s = s.
Proof. apply strip_fixed. Qed.

(** [trimStart] drops a prefix of white space. *)
Lemma trimStart_suffix (s : string) : exists w, s = w +:+ trimStart s.
Proof. apply strip_suffix. Qed.

Lemma trimEnd_ends (s : string) : endsWithSpace (trimEnd s) = false.
Proof. unfold endsWithSpace, trimEnd. rewrite rev_rev. apply strip_ahead. Qed.

(** [trimEnd] keeps a prefix: what it drops is at the end. *)
Lemma trimEnd_prefix (s : string) : exists w, s = trimEnd s +:+ w.
Proof.
  unfold trimEnd.
  destruct (strip_suffix space1 space2Back space3Back (String.rev s)) as (w & Hw).
  exists (String.rev w).
  rewrite <- rev_append, <- Hw. symmetry. apply rev_rev.
Qed.

Lemma trimEnd_starts (s : string) :
  startsWithSpace s = false -> startsWithSpace (trimEnd s) = false.
Proof.
  intros Hs. destruct (trimEnd_prefix s) as (w & Hw).
  destruct (startsWithSpace (trimEnd s)) eqn:Hstart; [ | reflexivity ].
  apply (spaceAhead_append _ _ _ _ w) in Hstart.
  unfold startsWithSpace in Hs. rewrite <- Hw in Hstart. congruence.
Qed.

Lemma trim_trimmed (s : string) : trimmed (trim s) = true.
Proof.
  unfold trimmed, trim.
  rewrite trimEnd_starts by apply trimStart_starts.
  now rewrite trimEnd_ends.
Qed.

(** White space beyond ASCII is stripped too, and an accented letter that
    ends the text is kept whole. *)
Lemma trim_beyond_ascii :
  trim (byteOrderMark +:+ " key" +:+ LF +:+ noBreakSpace) = "key"
  /\ trim (noBreakSpace +:+ "voilà") = "voilà"
  /\ trim noBreakSpace = "".
Proof. repeat split. Qed.

Lemma trim_fixed (s : string) : trimmed s = true -> trim s = s.
Proof.
  unfold trimmed. intros H. apply andb_prop in H as [Hs He].
  apply negb_true_iff in Hs, He.
  unfold trim. rewrite (trimStart_fixed s Hs).
  unfold trimEnd. unfold endsWithSpace in He.
  rewrite (strip_fixed _ _ _ _ He). apply rev_rev.
Qed.

(** ** The settings of env.ts *)

Section Settings.
Context {platform : Platform}.

Lemma optional_value (env : gmap string string) (key value : string) :
  Env.optional env key = Some value ->
  value <> "" /\ trimmed value = true /\ trim value = value
  /\ exists raw, env !! key = Some raw /\ value = trim raw.
Proof.
  unfold Env.optional. destruct (env !! key) as [raw | ]; [ | discriminate ].
  destruct (negb (truthy (Some raw))); [ discriminate | ].
  destruct (trim raw) as [ | d rest ] eqn:Htrim; cbn [String.length Nat.ltb Nat.leb];
    [ discriminate | ].
  intros H. injection H as <-. rewrite <- Htrim.
  split; [ rewrite Htrim; discriminate | ].
  split; [ apply trim_trimmed | ].
  split; [ apply trim_fixed, trim_trimmed | ].
  eexists. split; reflexivity.
Qed.

Lemma optional_nothing (env : gmap string string) (key : string) :
  Env.optional env key = None ->
  env !! key = None \/ exists raw, env !! key = Some raw /\ trim raw = "".
Proof.
  unfold Env.optional. destruct (env !! key) as [raw | ]; [ | now left ].
  intros H. right. exists raw. split; [ reflexivity | ].
  destruct raw as [ | c raw ]; [ reflexivity | ]. cbn [truthy negb] in H.
  destruct (trim (String c raw)); [ reflexivity | discriminate ].
Qed.

(** X5. What [optional] reads: a value that is not empty and has no white space
    around it, the trimmed text of the variable; and nothing exactly when the
    variable is unset, empty or blank. White space is what
    [String.prototype.trim] strips: the white space and the line terminators
    of ECMAScript, the no-break space and the byte order mark among them. *)
Theorem optional_reads_trimmed (env : gmap string string) (key : string) :
  match Env.optional env key with
  | Some value =>
      value <> "" /\ trimmed value = true /\ trim value = value
      /\ exists raw, env !! key = Some raw /\ value = trim raw
  | None =>
      env !! key = None \/ exists raw, env !! key = Some raw /\ trim raw = ""
  end.
Proof.
  destruct (Env.optional env key) as [value | ] eqn:Hread.
  - now apply optional_value.
  - now apply optional_nothing.
Qed.

End Settings.

Section Port.
Context {platform : Platform}.
Variable numberToString : Z -> string.

Lemma parsePort_range (env : gmap string string) (p : Z) :
  Env.parsePort numberToString env = Normal p -> (1 <= p <= 65535)%Z.
Proof.
  unfold Env.parsePort.
  destruct (Env.optionalInteger env "PORT") as [given | e]; [ | discriminate ].
  cbn [Js.bind]. set (value := nullish given 3000%Z).
  destruct (value <? 1)%Z eqn:Hlow; [ discriminate | ].
  destruct (value >? 65535)%Z eqn:Hhigh; [ discriminate | ].
  cbn. intros H. injection H as <-. lia.
Qed.

(** X6. The port is 3000 when PORT is unset or blank; whenever [parsePort]
    returns, the port lies between 1 and 65535; and an integer outside that
    range is refused. *)
Theorem parsePort_in_range (env : gmap string string) :
  (Env.optional env "PORT" = None -> Env.parsePort numberToString env = Normal 3000%Z)
  /\ (forall p, Env.parsePort numberToString env = Normal p -> (1 <= p <= 65535)%Z)
  /\ (forall z, Env.optionalInteger env "PORT" = Normal (Some z) ->
        Env.parsePort numberToString env
        = if ((1 <=? z) && (z <=? 65535))%Z then Normal z
          else Throw (newError PlainError
                        ("PORT must be between 1 and 65535, received " +:+ numberToString z))).
Proof.
  split; [ | split ].
  - intros Hnone. unfold Env.parsePort, Env.optionalInteger. rewrite Hnone. reflexivity.
  - intros p. apply parsePort_range.
  - unfold Env.parsePort. intros z ->. cbn [Js.bind nullish].
    destruct (z <? 1)%Z eqn:Hlow, (z >? 65535)%Z eqn:Hhigh;
      destruct (1 <=? z)%Z eqn:H1, (z <=? 65535)%Z eqn:H2; cbn; try reflexivity; lia.
Qed.

End Port.

(** ** The CORS origins *)

Lemma mentions_append (c : ascii) (a b : string) :
  mentions c (a +:+ b) = mentions c a || mentions c b.
Proof.
  induction a as [ | d a IH ]; [ reflexivity | ].
  rewrite append_cons. cbn. rewrite IH. apply orb_assoc.
Qed.

Lemma trim_mentions (c : ascii) (s : string) :
  mentions c s = false -> mentions c (trim s) = false.
Proof.
  intros Hs. unfold trim.
  destruct (trimStart_suffix s) as (w & Hw).
  destruct (trimEnd_prefix (trimStart s)) as (w' & Hw').
  rewrite Hw, mentions_append in Hs. apply orb_false_elim in Hs as [_ Hs].
  rewrite Hw', mentions_append in Hs. now apply orb_false_elim in Hs as [Hs _].
Qed.

Lemma split_pieces (sep : ascii) (s : string) :
  Forall (fun piece => mentions sep piece = false) (Env.split sep s).
Proof.
  induction s as [ | c s IH ]; cbn.
  - constructor; [ reflexivity | constructor ].
  - destruct (Ascii.eqb c sep) eqn:Hc.
    + constructor; [ reflexivity | exact IH ].
    + destruct (Env.split sep s) as [ | piece pieces ].
      * constructor; [ cbn; now rewrite Hc | constructor ].
      * inversion IH as [ | ? ? Hpiece Hpieces ]; subst.
        constructor; [ cbn; now rewrite Hc, Hpiece | exact Hpieces ].
Qed.

Section Origins.

(** X7. Every CORS origin of the configuration is a non-empty string without
    white space around it and without a comma; the list is the local default
    when CORS_ORIGINS is unset or blank, and it is empty, not the default,
    when the variable holds separators and white space only. *)
Theorem parseCorsOrigins_entries (env : gmap string string) :
  Forall (fun origin => origin <> "" /\ trimmed origin = true /\ mentions "," origin = false)
         (Env.parseCorsOrigins env)
  /\ (Env.optional env "CORS_ORIGINS" = None ->
      Env.parseCorsOrigins env = ["http://localhost:3001"])
  /\ (forall raw, Env.optional env "CORS_ORIGINS" = Some raw ->
        Forall (fun piece => trim piece = "") (Env.split "," raw) ->
        Env.parseCorsOrigins env = []).
Proof.
  unfold Env.parseCorsOrigins. split; [ | split ].
  - destruct (Env.optional env "CORS_ORIGINS") as [raw | ] eqn:Hraw.
    + rewrite (optional_truthy env _ _ Hraw). cbn [negb default from_option id].
      generalize (split_pieces "," raw). generalize (Env.split "," raw).
      intros pieces Hpieces.
      induction Hpieces as [ | piece pieces Hpiece _ IH ]; [ constructor | ].
      cbn [map List.filter].
      destruct (trim piece) as [ | c origin ] eqn:Htrim; cbn [truthy]; [ exact IH | ].
      constructor; [ | exact IH ].
      rewrite <- Htrim. split; [ rewrite Htrim; discriminate | ].
      split; [ apply trim_trimmed | now apply trim_mentions ].
    + cbn. constructor; [ | constructor ].
      split; [ discriminate | split; vm_compute; reflexivity ].
  - intros ->. reflexivity.
  - intros raw Hraw. rewrite Hraw, (optional_truthy env _ _ Hraw).
    cbn [negb default from_option id].
    generalize (Env.split "," raw). intros pieces Hblank.
    induction Hblank as [ | piece pieces Hpiece _ IH ]; [ reflexivity | ].
    cbn [map List.filter]. rewrite Hpiece. exact IH.
Qed.

End Origins.

(** ** The exported configuration *)

Section Exported.
Context {platform : Platform}.
Variable numberToString : Z -> string.

Lemma optional_lowered (env : gmap string string) (key raw : string) :
  Env.optional env key = Some raw -> truthy (Some (toLowerCase raw)) = true.
Proof.
  intros Hraw. pose proof (optional_truthy env _ _ Hraw) as Ht.
  destruct raw; [ discriminate | reflexivity ].
Qed.

Lemma parseNodeEnv_result (env : gmap string string) (value : string) :
  Env.parseNodeEnv env = Normal value ->
  Env.has ["development"; "test"; "production"] value = true
  /\ value = match Env.optional env "NODE_ENV" with
             | Some raw => toLowerCase raw
             | None => "development"
             end.
Proof.
  unfold Env.parseNodeEnv.
  destruct (Env.optional env "NODE_ENV") as [raw | ] eqn:Hraw; cbn [fmap option_fmap option_map].
  - rewrite (optional_lowered env _ _ Hraw). cbn [negb default from_option id].
    destruct (String.eqb (toLowerCase raw) "development"
              || String.eqb (toLowerCase raw) "test"
              || String.eqb (toLowerCase raw) "production") eqn:Hin; [ | discriminate ].
    intros H. injection H as <-. split; [ | reflexivity ].
    unfold Env.has. cbn [existsb]. rewrite orb_false_r, orb_assoc. exact Hin.
  - cbn. intros H. injection H as <-. split; reflexivity.
Qed.

Lemma parseLogLevel_result (env : gmap string string) (value : string) :
  Env.parseLogLevel env = Normal value ->
  Env.has ["fatal"; "error"; "warn"; "info"; "debug"; "trace"] value = true
  /\ value = match Env.optional env "LOG_LEVEL" with
             | Some raw => toLowerCase raw
             | None => "info"
             end.
Proof.
  unfold Env.parseLogLevel.
  destruct (Env.optional env "LOG_LEVEL") as [raw | ] eqn:Hraw; cbn [fmap option_fmap option_map].
  - rewrite (optional_lowered env _ _ Hraw). cbn [negb default from_option id].
    destruct (Env.has _ (toLowerCase raw)) eqn:Hin; [ | discriminate ].
    intros H. injection H as <-. split; [ exact Hin | reflexivity ].
  - cbn. intros H. injection H as <-. split; reflexivity.
Qed.

Lemma parseLogFormat_result (env : gmap string string) (nodeEnv value : string) :
  Env.parseLogFormat env nodeEnv = Normal value ->
  Env.has ["json"; "pretty"] value = true
  /\ value = match Env.optional env "LOG_FORMAT" with
             | Some raw => toLowerCase raw
             | None => if String.eqb nodeEnv "production" then "json" else "pretty"
             end.
Proof.
  unfold Env.parseLogFormat.
  destruct (Env.optional env "LOG_FORMAT") as [raw | ] eqn:Hraw; cbn [fmap option_fmap option_map].
  - rewrite (optional_lowered env _ _ Hraw). cbn [negb default from_option id].
    destruct (String.eqb (toLowerCase raw) "json" || String.eqb (toLowerCase raw) "pretty")
      eqn:Hin; [ | discriminate ].
    intros H. injection H as <-. split; [ | reflexivity ].
    unfold Env.has. cbn [existsb]. rewrite orb_false_r. exact Hin.
  - cbn. intros H. injection H as <-. split; [ | reflexivity ].
    destruct (String.eqb nodeEnv "production"); reflexivity.
Qed.

(** X8. The settings that [config] builds are in range: the node environment,
    the log level and the log format are among the values the code names,
    read without regard to letter case and kept in lower case, with the
    defaults "development", "info" and, for the format, "json" in production
    and "pretty" otherwise; and the port lies between 1 and 65535. *)
Theorem config_settings_in_range
    (env : gmap string string) (explicit : option Env.MailProvider) (c : Env.AppConfig) :
  Env.config numberToString env explicit = Normal c ->
  (Env.has ["development"; "test"; "production"] (Env.nodeEnv c) = true
   /\ Env.nodeEnv c = match Env.optional env "NODE_ENV" with
                      | Some raw => toLowerCase raw
                      | None => "development"
                      end)
  /\ (Env.has ["fatal"; "error"; "warn"; "info"; "debug"; "trace"] (Env.logLevel c) = true
      /\ Env.logLevel c = match Env.optional env "LOG_LEVEL" with
                          | Some raw => toLowerCase raw
                          | None => "info"
                          end)
  /\ (Env.has ["json"; "pretty"] (Env.logFormat c) = true
      /\ Env.logFormat c = match Env.optional env "LOG_FORMAT" with
                           | Some raw => toLowerCase raw
                           | None => if String.eqb (Env.nodeEnv c) "production"
                                     then "json" else "pretty"
                           end)
  /\ (1 <= Env.port c <= 65535)%Z
  /\ Env.corsOrigins c = Env.parseCorsOrigins env.
Proof.
  unfold Env.config.
  destruct (Env.mailConfig env explicit) as [settings | ]; [ | discriminate ].
  cbn [Js.bind].
  destruct (Env.parseNodeEnv env) as [nodeEnv | ] eqn:Hnode; [ | discriminate ].
  cbn [Js.bind].
  destruct (Env.parsePort numberToString env) as [port | ] eqn:Hport; [ | discriminate ].
  cbn [Js.bind].
  destruct (Env.parseLogLevel env) as [level | ] eqn:Hlevel; [ | discriminate ].
  cbn [Js.bind].
  destruct (Env.parseLogFormat env nodeEnv) as [format | ] eqn:Hformat; [ | discriminate ].
  cbn [Js.bind].
  intros H. injection H as <-. cbn.
  split; [ now apply parseNodeEnv_result | ].
  split; [ now apply parseLogLevel_result | ].
  split; [ now apply parseLogFormat_result | ].
  split; [ | reflexivity ].
  now apply (parsePort_range numberToString env).
Qed.

End Exported.

Section Credentials.
Context {platform : Platform}.

Lemma required_result (env : gmap string string) (key value : string) :
  Env.required env key = Normal value -> Env.optional env key = Some value.
Proof.
  unfold Env.required.
  destruct (Env.optional env key) as [given | ] eqn:Hgiven; [ | discriminate ].
  rewrite (optional_truthy env _ _ Hgiven). cbn. intros H. now injection H as <-.
Qed.

Lemma required_missing (env : gmap string string) (key : string) :
  Env.optional env key = None ->
  Env.required env key
  = Throw (newError PlainError ("Missing required environment variable " +:+ key)).
Proof. unfold Env.required. now intros ->. Qed.

(** X9. No configuration without an API key: when MAIL_SERVICE_API_KEY is unset
    or blank, [mailConfig] throws; and the API key of every configuration it
    builds is the trimmed text of the variable, which is not empty. *)
Theorem mailConfig_requires_api_key
    (env : gmap string string) (explicit : option Env.MailProvider) :
  (Env.optional env "MAIL_SERVICE_API_KEY" = None ->
   threw (Env.mailConfig env explicit) = true)
  /\ (forall config, Env.mailConfig env explicit = Normal config ->
        Env.apiKey config <> ""
        /\ exists raw, env !! "MAIL_SERVICE_API_KEY" = Some raw
                       /\ Env.apiKey config = trim raw).
Proof.
  unfold Env.mailConfig. split.
  - intros Hnone.
    destruct (Env.parseMailTransport env) as [parsed | ]; [ | reflexivity ].
    cbn [Js.bind]. rewrite (required_missing env _ Hnone). reflexivity.
  - intros config.
    destruct (Env.parseMailTransport env) as [parsed | ]; [ | discriminate ].
    cbn [Js.bind].
    destruct (Env.required env "MAIL_SERVICE_API_KEY") as [key | ] eqn:Hkey; [ | discriminate ].
    cbn [Js.bind].
    destruct (Env.parseSender env (Env.p_auth parsed)) as [from | ]; [ | discriminate ].
    cbn [Js.bind]. intros H. injection H as <-. cbn.
    apply required_result in Hkey.
    destruct (optional_value env _ _ Hkey) as (Hne & _ & _ & Hraw).
    split; assumption.
Qed.

End Credentials.

Section Transport.
Context {platform : Platform}.

(** X10. The credentials of the relay: the user is SMTP_USER, else GMAIL_USER,
    the password SMTP_PASSWORD, else GMAIL_APP_PASSWORD. A user without a
    password is refused; a password without a user is ignored; and the
    [auth] that [parseMailTransport] returns, which is also the one inside
    the transport, is there exactly when both are. *)
Theorem parseMailTransport_credentials (env : gmap string string) :
  let user := firstOf (Env.optional env "SMTP_USER") (Env.optional env "GMAIL_USER") in
  let password :=
    firstOf (Env.optional env "SMTP_PASSWORD") (Env.optional env "GMAIL_APP_PASSWORD") in
  (is_Some user -> password = None -> threw (Env.parseMailTransport env) = true)
  /\ (forall parsed, Env.parseMailTransport env = Normal parsed ->
        transportAuth (Env.p_transport parsed) = Env.p_auth parsed
        /\ Env.p_auth parsed
           = match user, password with
             | Some u, Some p => Some {| Env.user := u; Env.pass := p |}
             | _, _ => None
             end).
Proof.
  intros user password.
  assert (Huser : forall u, user = Some u -> truthy (Some u) = true).
  { unfold user, firstOf. intros u.
    destruct (Env.optional env "SMTP_USER") eqn:H1; intros H.
    - injection H as <-. eapply optional_truthy, H1.
    - eapply optional_truthy, H. }
  assert (Hpass : forall p, password = Some p -> truthy (Some p) = true).
  { unfold password, firstOf. intros p.
    destruct (Env.optional env "SMTP_PASSWORD") eqn:H1; intros H.
    - injection H as <-. eapply optional_truthy, H1.
    - eapply optional_truthy, H. }
  unfold Env.parseMailTransport.
  fold (firstOf (Env.optional env "SMTP_USER") (Env.optional env "GMAIL_USER")).
  fold (firstOf (Env.optional env "SMTP_PASSWORD") (Env.optional env "GMAIL_APP_PASSWORD")).
  fold user password.
  destruct (Env.optionalInteger env "SMTP_PORT") as [smtpPort | ];
    [ cbn [Js.bind] | split; [ reflexivity | discriminate ] ].
  destruct (Env.optionalBoolean env "SMTP_SECURE") as [smtpSecure | ];
    [ cbn [Js.bind] | split; [ reflexivity | discriminate ] ].
  destruct (Env.optionalBoolean env "SMTP_REQUIRE_TLS") as [smtpRequireTLS | ];
    [ cbn [Js.bind] | split; [ reflexivity | discriminate ] ].
  destruct user as [u | ], password as [p | ];
    try rewrite (Huser u eq_refl); try rewrite (Hpass p eq_refl); cbn [truthy negb andb].
  - split; [ discriminate | ]. intros parsed.
    destruct (Env.optional env "SMTP_URL") as [url | ].
    + destruct (Env.validateUrl url "SMTP_URL"); [ | discriminate ]. cbn.
      intros H. injection H as <-. split; reflexivity.
    + intros H. injection H as <-. split; reflexivity.
  - split; [ reflexivity | discriminate ].
  - split; [ intros [? ?]; discriminate | ]. intros parsed.
    destruct (Env.optional env "SMTP_URL") as [url | ].
    + destruct (Env.validateUrl url "SMTP_URL"); [ | discriminate ]. cbn.
      intros H. injection H as <-. split; reflexivity.
    + intros H. injection H as <-. split; reflexivity.
  - split; [ intros [? ?]; discriminate | ]. intros parsed.
    destruct (Env.optional env "SMTP_URL") as [url | ].
    + destruct (Env.validateUrl url "SMTP_URL"); [ | discriminate ]. cbn.
      intros H. injection H as <-. split; reflexivity.
    + intros H. injection H as <-. split; reflexivity.
Qed.

End Transport.

Section ConnectionUrl.
Context {platform : Platform}.

(** X11. SMTP_URL wins over host and port: when it is set, whatever
    [parseMailTransport] returns is a URL transport with the trimmed URL,
    which [new URL] accepted, and with the TLS flag as it was given, not
    defaulted. The port and the flags are read all the same: a malformed
    SMTP_PORT fails the configuration. And a URL that [new URL] refuses gives
    no configuration. *)
Theorem parseMailTransport_connection_url (env : gmap string string) (connectionUrl : string) :
  Env.optional env "SMTP_URL" = Some connectionUrl ->
  (forall parsed, Env.parseMailTransport env = Normal parsed ->
     newURL connectionUrl = None
     /\ exists requireTLS,
          Env.optionalBoolean env "SMTP_REQUIRE_TLS" = Normal requireTLS
          /\ Env.p_transport parsed
             = Env.UrlTransport connectionUrl requireTLS (Env.p_auth parsed))
  /\ (threw (Env.optionalInteger env "SMTP_PORT") = true ->
      threw (Env.parseMailTransport env) = true)
  /\ (is_Some (newURL connectionUrl) -> threw (Env.parseMailTransport env) = true).
Proof.
  intros Hurl. unfold Env.parseMailTransport. rewrite Hurl.
  destruct (Env.optionalInteger env "SMTP_PORT") as [smtpPort | ];
    [ cbn [Js.bind] | repeat split; discriminate ].
  destruct (Env.optionalBoolean env "SMTP_SECURE") as [smtpSecure | ];
    [ cbn [Js.bind] | repeat split; discriminate ].
  destruct (Env.optionalBoolean env "SMTP_REQUIRE_TLS") as [smtpRequireTLS | ];
    [ cbn [Js.bind] | repeat split; discriminate ].
  match goal with
  | |- context [if ?b then Throw _ else _] => destruct b
  end; [ repeat split; discriminate | ].
  unfold Env.validateUrl.
  destruct (newURL connectionUrl) as [error | ]; cbn [Js.bind].
  - split; [ discriminate | split; [ discriminate | reflexivity ] ].
  - split; [ | split; [ discriminate | intros [? ?]; discriminate ] ].
    intros parsed H. injection H as <-. split; [ reflexivity | ].
    eexists. split; reflexivity.
Qed.

End ConnectionUrl.

Section SenderAddress.
Context {platform : Platform}.

(** X12. The sender address is MAIL_FROM_ADDRESS, else the user of the relay
    credentials; [parseSender] returns only an address that is not empty and
    that the validator accepted, throws the validator's own error when it
    refuses the address, and throws when there is no address at all. *)
Theorem parseSender_address (env : gmap string string) (auth : option Env.MailAuth) :
  let address := firstOf (Env.optional env "MAIL_FROM_ADDRESS") (Env.user <$> auth) in
  (forall from, Env.parseSender env auth = Normal from ->
     address = Some (Env.address from)
     /\ Env.address from <> ""
     /\ zodEmail (Env.address from) = None)
  /\ (forall given error, address = Some given -> zodEmail given = Some error ->
        given <> "" -> Env.parseSender env auth = Throw error)
  /\ (address = None -> threw (Env.parseSender env auth) = true).
Proof.
  intros address. unfold Env.parseSender.
  replace (match Env.optional env "MAIL_FROM_ADDRESS" with
           | Some a => Some a
           | None => match auth with Some a => Some (Env.user a) | None => None end
           end) with address
    by (unfold address, firstOf; destruct (Env.optional env "MAIL_FROM_ADDRESS"), auth; reflexivity).
  destruct address as [given | ].
  - destruct given as [ | c given ]; cbn [truthy negb default from_option id].
    + split; [ discriminate | split; [ | discriminate ] ].
      intros given error H. injection H as <-. intros _ Hne. now destruct Hne.
    + destruct (zodEmail (String c given)) as [error | ] eqn:Hzod.
      * split; [ discriminate | split; [ | discriminate ] ].
        intros given' error' H. injection H as <-. rewrite Hzod.
        intros H. now injection H as <-.
      * split; [ | split; [ | discriminate ] ].
        -- intros from H. injection H as <-. cbn. repeat split; [ discriminate | exact Hzod ].
        -- intros given' error' H. injection H as <-. rewrite Hzod. discriminate.
  - cbn. split; [ discriminate | split; [ discriminate | reflexivity ] ].
Qed.

End SenderAddress.

(** ** The dispatcher, beyond the claims *)

Section Relay.
Context {cheerio : Ews.Cheerio}.
Variable world : World.
Variable config : Env.MailConfig.

(** X13. A provider that is neither "smtp" nor "ews" is refused by name, after
    the "Sending email" line and before any adapter. *)
Theorem sendMail_unsupported_provider (input : Mail.SendMailInput) (s : State) :
  contentPresent input = true ->
  let selected := Mail.selectedProvider (Mail.provider input) config in
  selected <> "smtp" -> selected <> "ews" ->
  Mail.sendMail world config input s
  = (Throw (ErrorObject MailSendError ("Unsupported provider: " +:+ selected) Undefined),
     dispatching s).
Proof.
  intros Hc selected Hsmtp Hews. unfold contentPresent in Hc. subst selected.
  destruct input as [to subject text html provider]; cbn in *.
  assert (Hn : negb (truthy html) && negb (truthy text) = false)
    by (destruct (truthy html), (truthy text); cbn in *; congruence).
  unfold Mail.sendMail. cbn. rewrite Hn.
  apply String.eqb_neq in Hsmtp, Hews. rewrite Hsmtp, Hews. reflexivity.
Qed.

(** X14. [sendMail] succeeds exactly when the adapter it selected succeeds: on
    the relay path with the relay adapter, on the Exchange path, when the
    Exchange configuration is present, with the Exchange adapter. *)
Theorem sendMail_succeeds_with_adapter (input : Mail.SendMailInput) (s : State) :
  contentPresent input = true ->
  let selected := Mail.selectedProvider (Mail.provider input) config in
  (selected = "smtp" ->
   threw (fst (Mail.sendMail world config input s))
   = threw (fst (Smtp.sendEmailViaSmtp world config (smtpPayload input) (dispatching s))))
  /\ (selected = "ews" -> is_Some (Env.exchange config) ->
      threw (fst (Mail.sendMail world config input s))
      = threw (fst (Ews.sendEmailViaEWS world config (ewsPayload config input)
                      (dispatching s)))).
Proof.
  intros Hc selected. split.
  - intros Hsel.
    destruct (Smtp.sendEmailViaSmtp world config (smtpPayload input) (dispatching s))
      as [r s2] eqn:Hrun.
    pose proof (sendMail_smtp_outcome world config input s s2 r Hc Hsel Hrun) as Hout.
    destruct r as [info | e]; [ | destruct Hout as (line & Hout) ]; now rewrite Hout.
  - intros Hsel Hex.
    destruct (Ews.sendEmailViaEWS world config (ewsPayload config input) (dispatching s))
      as [r s2] eqn:Hrun.
    pose proof (sendMail_ews_outcome world config input s s2 r Hc Hsel Hex Hrun) as Hout.
    destruct r as [u | e]; [ | destruct Hout as (line & Hout) ]; now rewrite Hout.
Qed.

(** X15. Whatever the provider, a message that a run of [sendMail] hands to
    nodemailer has the from-header of the configuration and the recipient,
    the subject, the text and the HTML of the request as they came: the relay
    path adds no subject prefix. *)
Theorem sendMail_relay_message (input : Mail.SendMailInput) :
  Run (fun e => forall t options, e = TransporterSendMail t options ->
                                  options = relayOptions config input)
      (fun _ => True)
      (Mail.sendMail world config input).
Proof.
  set (P := fun e : Event => forall t options, e = TransporterSendMail t options -> _).
  assert (Hlog : forall level line, Run P (fun _ => True) (log level line)).
  { intros level line. apply Run_log. intros t o H. discriminate. }
  assert (Hews : forall payload, Run P (fun _ => True) (Ews.sendEmailViaEWS world config payload)).
  { intros payload s.
    destruct (sendEmailViaEWS_emits world config payload s) as (added & Ha & Fa).
    exists added. split; [ exact Ha | split; [ | auto ] ].
    apply List.Forall_forall. intros e He t o ->.
    rewrite forallb_forall in Fa. specialize (Fa _ He). discriminate. }
  destruct input as [to subject text html provider].
  unfold Mail.sendMail.
  destruct (negb (truthy html) && negb (truthy text)).
  { apply Run_bind with (R := fun _ => True); [ apply Hlog | intros _ _; apply Run_throw ]. }
  apply Run_bind with (R := fun _ => True); [ apply Hlog | intros _ _ ].
  destruct (String.eqb _ "smtp").
  { apply Run_try_catch.
    - apply Run_bind with (R := fun _ => True); [ | intros _ _; apply Hlog ].
      unfold Smtp.sendEmailViaSmtp.
      apply Run_bind with (R := fun _ => True);
        [ apply Run_emit; [ intros t o H; discriminate | exact I ] | intros _ _ ].
      apply Run_try_catch.
      + apply Run_bind with (R := fun _ => True).
        { apply Run_getTransporter. intros t t' o H. discriminate. }
        intros t _.
        apply Run_bind with (R := fun _ => True).
        { apply Run_emit; [ | exact I ]. intros t' o H. injection H as _ <-. reflexivity. }
        intros _ _.
        apply Run_bind with (R := fun _ => True); [ apply Run_quiet; auto | intros info _ ].
        apply Run_bind with (R := fun _ => True); [ apply Hlog | intros _ _ ].
        now apply Run_ret.
      + intros e. apply Run_bind with (R := fun _ => True); [ apply Hlog | intros _ _ ].
        apply Run_throw.
    - intros e. apply Run_bind with (R := fun _ => True); [ | intros _ _; apply Run_throw ].
      destruct (instanceof e SMTPSendError || instanceof e SMTPConfigError); apply Hlog. }
  destruct (String.eqb _ "ews"); [ | apply Run_throw ].
  destruct (negb _).
  { apply Run_bind with (R := fun _ => True); [ apply Hlog | intros _ _; apply Run_throw ]. }
  apply Run_try_catch.
  - apply Run_bind with (R := fun _ => True); [ apply Hews | intros _ _; apply Hlog ].
  - intros e. apply Run_bind with (R := fun _ => True); [ | intros _ _; apply Run_throw ].
    destruct (instanceof e EWSConfigError); [ apply Hlog | ].
    destruct (instanceof e EWSConnectionError); [ apply Hlog | ].
    destruct (instanceof e EWSSendError); apply Hlog.
Qed.

End Relay.

(** ** The Exchange adapter: configuration, content and failed sends *)

Section ExchangeSettings.
Context {cheerio : Ews.Cheerio}.
Variable world : World.
Variable config : Env.MailConfig.

Lemma resolveConfig_incomplete :
  exchangeComplete config = false ->
  exists name,
    firstMissing config = Some name
    /\ In name ["EXCHANGE_URL"; "EXCHANGE_USERNAME"; "EXCHANGE_PASSWORD"; "EXCHANGE_FROM_EMAIL"]
    /\ Ews.resolveConfig config
       = Throw (ErrorObject EWSConfigError (name +:+ " is not set") Undefined).
Proof.
  unfold exchangeComplete, firstMissing, exchangeSettings, Ews.resolveConfig.
  destruct (Env.exchange config) as [[url username password fromEmail] | ]; cbn.
  - destruct url; [ intros _; exists "EXCHANGE_URL"; cbn; tauto | ].
    destruct username; [ intros _; exists "EXCHANGE_USERNAME"; cbn; tauto | ].
    destruct password; [ intros _; exists "EXCHANGE_PASSWORD"; cbn; tauto | ].
    destruct fromEmail; [ intros _; exists "EXCHANGE_FROM_EMAIL"; cbn; tauto | ].
    discriminate.
  - intros _. exists "EXCHANGE_URL". cbn. tauto.
Qed.

Lemma sendEmailViaEWS_unresolved (payload : EWSEmailPayload) (s : State) (e : Value) :
  Ews.resolveConfig config = Throw e ->
  Ews.sendEmailViaEWS world config payload s = (Throw e, entered s (CallSendEmailViaEWS payload)).
Proof.
  intros Hcfg. unfold Ews.sendEmailViaEWS, Eff.bind at 1. cbn [emit].
  unfold Eff.bind at 1, lift. rewrite Hcfg. reflexivity.
Qed.

(** X16. Unless the Exchange configuration is present with a non-empty URL, user
    name, password and from-address, [sendEmailViaEWS] throws an
    [EWSConfigError] that names the first missing setting, in the order URL,
    user name, password, from-address, having done nothing but enter: no
    library call, nothing submitted. Through [sendMail], whose presence
    check such a configuration passes when it is there, the failure arrives
    as a [MailSendError] that carries this configuration error as its
    cause. *)
Theorem sendEmailViaEWS_incomplete_configuration (payload : EWSEmailPayload) (s : State) :
  exchangeComplete config = false ->
  exists name,
    firstMissing config = Some name
    /\ In name ["EXCHANGE_URL"; "EXCHANGE_USERNAME"; "EXCHANGE_PASSWORD"; "EXCHANGE_FROM_EMAIL"]
    /\ Ews.sendEmailViaEWS world config payload s
       = (Throw (ErrorObject EWSConfigError (name +:+ " is not set") Undefined),
          entered s (CallSendEmailViaEWS payload))
    /\ forall input,
         contentPresent input = true ->
         Mail.selectedProvider (Mail.provider input) config = "ews" ->
         is_Some (Env.exchange config) ->
         exists s',
           Mail.sendMail world config input s
           = (Throw (ErrorObject MailSendError "Failed to send email via Exchange"
                       (ErrorObject EWSConfigError (name +:+ " is not set") Undefined)), s').
Proof.
  intros Hincomplete.
  destruct (resolveConfig_incomplete Hincomplete) as (name & Hfirst & Hname & Hcfg).
  exists name. split; [ exact Hfirst | split; [ exact Hname | split ] ].
  - now apply sendEmailViaEWS_unresolved.
  - intros input Hc Hsel Hex.
    pose proof (sendEmailViaEWS_unresolved (ewsPayload config input) (dispatching s) _ Hcfg)
      as Hrun.
    destruct (sendMail_ews_outcome world config input s _ _ Hc Hsel Hex Hrun) as (line & Hout).
    eexists. exact Hout.
Qed.

End ExchangeSettings.

Lemma connectionFailure_pairs (message : string) :
  connectionFailure message
  = (includes message "authentication" || includes message "credentials")
    || ((includes message "timeout" || includes message "ETIMEDOUT")
        || (includes message "ENOTFOUND" || includes message "ECONNREFUSED")).
Proof.
  unfold connectionFailure, connectionMarkers. cbn [existsb].
  rewrite orb_false_r, !orb_assoc. reflexivity.
Qed.

Ltac unsubmitted Hrun Hadded Hin :=
  injection Hrun as <- <-; unfold added_events in Hadded; cbn in Hadded;
  rewrite <- ?app_assoc in Hadded; apply app_inv_head in Hadded; subst;
  cbn in Hin; intuition discriminate.

(** The run got as far as the send, and the send failed. *)
Ltac submitted Hrun Hadded Hin :=
  let failure := fresh "failure" in
  let Hfailure := fresh "Hfailure" in
  unfold try_catch, Eff.bind at 1 in Hrun; cbn [emit] in Hrun;
  unfold Eff.bind at 1 in Hrun;
  match type of Hrun with
  | context [sendAndSaveCopy ?w ?a] =>
      destruct (sendAndSaveCopy w a) as [failure | ] eqn:Hfailure
  end; cbn in Hrun; [ | discriminate ];
  exists failure; rewrite (connectionFailure_pairs (messageOf failure));
  destruct (includes (messageOf failure) "authentication"
            || includes (messageOf failure) "credentials");
  [ | destruct (includes (messageOf failure) "timeout"
                || includes (messageOf failure) "ETIMEDOUT");
      [ | destruct (includes (messageOf failure) "ENOTFOUND"
                    || includes (messageOf failure) "ECONNREFUSED") ] ];
  cbn in Hrun; injection Hrun as <- <-;
  unfold added_events in Hadded; cbn in Hadded;
  rewrite <- ?app_assoc in Hadded; apply app_inv_head in Hadded; subst;
  (cbn in Hin; destruct Hin as [Hin | [Hin | [Hin | []]]]; try discriminate);
  injection Hin as <-; cbn; repeat split; assumption.

Section FailedSend.
Context {cheerio : Ews.Cheerio}.
Variable world : World.
Variable config : Env.MailConfig.

(** X17. A failed send keeps its cause and is sorted by its words. When a run of
    [sendEmailViaEWS] throws after it has submitted a message, the call of
    [SendAndSaveCopy] on that message failed, and its error is the cause of
    what is thrown: an [EWSConnectionError] when the message of the error
    contains one of the markers (as written, in that letter case), else an
    [EWSSendError] that quotes the message. *)
Theorem sendEmailViaEWS_send_failure
    (payload : EWSEmailPayload) (s s' : State) (v : Value)
    (added : list Event) (message : EmailMessage) :
  Ews.sendEmailViaEWS world config payload s = (Throw v, s') ->
  added_events s s' added ->
  In (SendAndSaveCopy message) added ->
  exists error,
    sendAndSaveCopy world message = Some error
    /\ cause_of v = error
    /\ (if connectionFailure (messageOf error)
        then instanceof v EWSConnectionError = true
        else v = ErrorObject EWSSendError ("Failed to send email: " +:+ messageOf error) error).
Proof.
  intros Hrun Hadded Hin.
  unfold Ews.sendEmailViaEWS in Hrun.
  unfold Eff.bind at 1 in Hrun. cbn [emit] in Hrun.
  unfold Eff.bind at 1, lift in Hrun.
  destruct (Ews.resolveConfig config) as [cfg | e0]; [ | unsubmitted Hrun Hadded Hin ].
  unfold Eff.bind at 1, try_catch at 1, Ews.createExchangeService, try_catch at 1, Eff.bind at 1 in Hrun.
  destruct (newExchangeService world _) as [e1 | ]; cbn in Hrun; [ unsubmitted Hrun Hadded Hin | ].
  unfold Eff.bind at 1, try_catch at 1, Eff.bind at 1 in Hrun.
  destruct (newEmailMessage world _) as [e2 | ]; cbn in Hrun; [ unsubmitted Hrun Hadded Hin | ].
  destruct (truthy (ews_html payload)).
  - unfold Eff.bind at 1 in Hrun.
    destruct (newMessageBody world HTML _) as [e3 | ]; cbn in Hrun;
      [ unsubmitted Hrun Hadded Hin | submitted Hrun Hadded Hin ].
  - destruct (truthy (ews_text payload)).
    + unfold Eff.bind at 1 in Hrun.
      destruct (newMessageBody world Text _) as [e3 | ]; cbn in Hrun;
        [ unsubmitted Hrun Hadded Hin | submitted Hrun Hadded Hin ].
    + cbn in Hrun. unsubmitted Hrun Hadded Hin.
Qed.
End FailedSend.

Section WithoutContent.
Context {cheerio : Ews.Cheerio}.
Variable world : World.
Variable config : Env.MailConfig.

(** X18. A payload with neither HTML nor text is never submitted: every run of
    [sendEmailViaEWS] on it throws, an [EWSConfigError] or an
    [EWSSendError], without a call of [SendAndSaveCopy]; when the service and
    the message could be built, the error is the adapter's own "Email must
    have either text or html content", wrapped once more by the handler
    around it. *)
Theorem sendEmailViaEWS_without_content (payload : EWSEmailPayload) :
  truthy (ews_html payload) = false ->
  truthy (ews_text payload) = false ->
  Emits (fun e => negb (submission e)) (Ews.sendEmailViaEWS world config payload)
  /\ (forall s, exists v s',
        Ews.sendEmailViaEWS world config payload s = (Throw v, s')
        /\ instanceof v EWSConfigError || instanceof v EWSSendError = true)
  /\ (exchangeComplete config = true ->
      (forall service, newExchangeService world service = None) ->
      (forall head, newEmailMessage world head = None) ->
      forall s, exists s',
        Ews.sendEmailViaEWS world config payload s
        = (Throw (ErrorObject EWSSendError
                    "Failed to create email message: Email must have either text or html content"
                    (ErrorObject EWSSendError "Email must have either text or html content"
                       Undefined)), s')).
Proof.
  intros Hhtml Htext.
  assert (Hshape : forall s, exists v s',
            Ews.sendEmailViaEWS world config payload s = (Throw v, s')
            /\ instanceof v EWSConfigError || instanceof v EWSSendError = true
            /\ (exists added, added_events s s' added
                              /\ forallb (fun e => negb (submission e)) added = true)
            /\ (exchangeComplete config = true ->
                (forall service, newExchangeService world service = None) ->
                (forall head, newEmailMessage world head = None) ->
                v = ErrorObject EWSSendError
                      "Failed to create email message: Email must have either text or html content"
                      (ErrorObject EWSSendError "Email must have either text or html content"
                         Undefined))).
  { intros s. unfold Ews.sendEmailViaEWS.
    unfold Eff.bind at 1. cbn [emit]. unfold Eff.bind at 1, lift.
    destruct (Ews.resolveConfig config) as [cfg | e0] eqn:Hcfg.
    2: { do 2 eexists. split; [ reflexivity | split; [ | split ] ].
         - unfold Ews.resolveConfig in Hcfg.
           repeat match type of Hcfg with
                  | (if ?b then _ else _) = _ => destruct b
                  end; try discriminate; injection Hcfg as <-; reflexivity.
         - eexists. split; reflexivity.
         - intros Hcomplete. exfalso. revert Hcfg Hcomplete.
           unfold exchangeComplete, Ews.resolveConfig.
           destruct (Env.exchange config) as [[url username password fromEmail] | ]; cbn;
             [ | discriminate ].
           destruct url, username, password, fromEmail; cbn; discriminate. }
    unfold Eff.bind at 1, try_catch at 1, Ews.createExchangeService, try_catch at 1, Eff.bind at 1.
    destruct (newExchangeService world _) as [e1 | ] eqn:Hservice; cbn.
    { do 2 eexists. split; [ reflexivity | split; [ reflexivity | split ] ].
      - eexists. split; [ unfold added_events; cbn; rewrite <- !app_assoc | ]; reflexivity.
      - intros _ Hs _. rewrite Hs in Hservice. discriminate. }
    unfold Eff.bind at 1, try_catch at 1, Eff.bind at 1.
    destruct (newEmailMessage world _) as [e2 | ] eqn:Hmessage; cbn.
    { do 2 eexists. split; [ reflexivity | split; [ reflexivity | split ] ].
      - eexists. split; [ unfold added_events; cbn; rewrite <- !app_assoc | ]; reflexivity.
      - intros _ _ Hm. rewrite Hm in Hmessage. discriminate. }
    rewrite Hhtml, Htext. cbn.
    do 2 eexists. split; [ reflexivity | split; [ reflexivity | split ] ].
    - eexists. split; [ unfold added_events; cbn; rewrite <- !app_assoc | ]; reflexivity.
    - reflexivity. }
  split; [ | split ].
  - intros s. destruct (Hshape s) as (v & s' & Hrun & _ & (added & Ha & Fa) & _).
    exists added. rewrite Hrun. split; assumption.
  - intros s. destruct (Hshape s) as (v & s' & Hrun & Hv & _).
    exists v, s'. split; assumption.
  - intros Hc Hs Hm s. destruct (Hshape s) as (v & s' & Hrun & _ & _ & Hexact).
    exists s'. rewrite Hrun, (Hexact Hc Hs Hm). reflexivity.
Qed.

End WithoutContent.

(** ** The transporter of the relay is a singleton *)

Section Held.
Variable t : Transporter.

Lemma Holding_bind {A B} (R : A -> Prop) (R' : B -> Prop) (m : M A) (k : A -> M B) :
  Holding t R m -> (forall a, R a -> Holding t R' (k a)) -> Holding t R' (Eff.bind m k).
Proof.
  intros Hm Hk s Hs. unfold Eff.bind.
  destruct (Hm s Hs) as (Ht & (e1 & H1 & F1) & Hr).
  destruct (m s) as [[a | v] s1]; cbn in *.
  - destruct (Hk a (Hr a eq_refl) s1 Ht) as (Ht2 & (e2 & H2 & F2) & Hr2).
    split; [ exact Ht2 | split; [ | exact Hr2 ] ].
    exists (e1 ++ e2)%list. split.
    + unfold added_events in *. rewrite H2, H1. now rewrite app_assoc.
    + apply Forall_app. split; assumption.
  - split; [ exact Ht | split; [ | discriminate ] ]. exists e1. split; assumption.
Qed.

Lemma Holding_try_catch {A} (R : A -> Prop) (m : M A) (h : Value -> M A) :
  Holding t R m -> (forall v, Holding t R (h v)) -> Holding t R (try_catch m h).
Proof.
  intros Hm Hh s Hs. unfold try_catch.
  destruct (Hm s Hs) as (Ht & (e1 & H1 & F1) & Hr).
  destruct (m s) as [[a | v] s1]; cbn in *.
  - split; [ exact Ht | split; [ | exact Hr ] ]. exists e1. split; assumption.
  - destruct (Hh v s1 Ht) as (Ht2 & (e2 & H2 & F2) & Hr2).
    split; [ exact Ht2 | split; [ | exact Hr2 ] ].
    exists (e1 ++ e2)%list. split.
    + unfold added_events in *. rewrite H2, H1. now rewrite app_assoc.
    + apply Forall_app. split; assumption.
Qed.

Lemma Holding_quiet {A} (R : A -> Prop) (c : Completion A) :
  (forall a, c = Normal a -> R a) -> Holding t R (lift c).
Proof.
  intros Hr s Hs. split; [ exact Hs | split; [ | exact Hr ] ].
  exists []. split; [ unfold added_events; cbn; now rewrite app_nil_r | constructor ].
Qed.

Lemma Holding_ret {A} (R : A -> Prop) (a : A) : R a -> Holding t R (ret a).
Proof. intros Hr. apply (Holding_quiet R (Normal a)). intros b H. now injection H as <-. Qed.

Lemma Holding_throw {A} (R : A -> Prop) (v : Value) : Holding t R (@throw A v).
Proof. apply (Holding_quiet R (Throw v)). discriminate. Qed.

Lemma Holding_attempt (o : option Value) : Holding t (fun _ => True) (attempt o).
Proof. destruct o; [ apply Holding_throw | now apply Holding_ret ]. Qed.

Lemma Holding_emit (e : Event) : reuses t e -> Holding t (fun _ => True) (emit e).
Proof.
  intros He s Hs. split; [ exact Hs | split; [ | auto ] ].
  exists [e]. split; [ reflexivity | constructor; [ exact He | constructor ] ].
Qed.

Lemma Holding_log (level line : string) : Holding t (fun _ => True) (log level line).
Proof. now apply Holding_emit. Qed.

(** With a transporter in place [getTransporter] returns it. *)
Lemma Holding_getTransporter (world : World) (config : Env.MailConfig) :
  Holding t (fun used => used = t) (Smtp.getTransporter world config).
Proof.
  intros s Hs. unfold Smtp.getTransporter, Eff.bind, getState. rewrite Hs. cbn.
  split; [ exact Hs | split ].
  - exists []. split; [ unfold added_events; now rewrite app_nil_r | constructor ].
  - intros a H. now injection H as <-.
Qed.

End Held.

(** Walks a computation that holds on to its transporter. *)
Ltac hold :=
  repeat first
    [ apply Holding_log
    | apply Holding_throw
    | apply Holding_attempt
    | apply Holding_ret; exact I
    | apply Holding_emit; exact I
    | apply Holding_try_catch; [ | intros ? ]
    | eapply Holding_bind; [ | intros ? ? ]
    | match goal with
      | |- Holding _ _ (if ?b then _ else _) => destruct b
      | |- Holding _ _ (match ?x with _ => _ end) => destruct x
      end ].

Section Singleton.
Context {cheerio : Ews.Cheerio}.
Variable world : World.
Variable config : Env.MailConfig.
Variable t : Transporter.

Lemma verifySmtpTransporter_holds :
  Holding t (fun _ => True) (Smtp.verifySmtpTransporter world config).
Proof.
  unfold Smtp.verifySmtpTransporter.
  eapply Holding_bind; [ now apply Holding_emit | intros _ _ ].
  apply Holding_try_catch; [ | intros e; hold ].
  eapply Holding_bind; [ apply Holding_getTransporter | intros used -> ].
  eapply Holding_bind; [ now apply Holding_emit | intros _ _ ].
  hold.
Qed.

Lemma sendEmailViaSmtp_holds (payload : SMTPEmailPayload) :
  Holding t (fun _ => True) (Smtp.sendEmailViaSmtp world config payload).
Proof.
  unfold Smtp.sendEmailViaSmtp.
  eapply Holding_bind; [ now apply Holding_emit | intros _ _ ].
  apply Holding_try_catch; [ | intros e; hold ].
  eapply Holding_bind; [ apply Holding_getTransporter | intros used -> ].
  eapply Holding_bind; [ now apply Holding_emit | intros _ _ ].
  eapply Holding_bind; [ apply (Holding_quiet t (fun _ => True)); auto | intros info _ ].
  hold.
Qed.

Lemma sendEmailViaEWS_holds (payload : EWSEmailPayload) :
  Holding t (fun _ => True) (Ews.sendEmailViaEWS world config payload).
Proof.
  unfold Ews.sendEmailViaEWS, Ews.createExchangeService.
  eapply Holding_bind; [ now apply Holding_emit | intros _ _ ].
  eapply Holding_bind; [ apply (Holding_quiet t (fun _ => True)); auto | intros cfg _ ].
  eapply Holding_bind with (R := fun _ => True); [ hold | intros service _ ].
  eapply Holding_bind with (R := fun _ => True); [ hold | intros message _ ].
  hold.
Qed.

(** X19. The transporter is a singleton: once it is in the module variable, a run
    of [sendMail] or of [verifyMailTransporter] ends with the same
    transporter, creates no other, and makes every nodemailer call through
    it. *)
Theorem transporter_is_kept :
  (forall input, Holding t (fun _ => True) (Mail.sendMail world config input))
  /\ Holding t (fun _ => True) (Mail.verifyMailTransporter world config).
Proof.
  split.
  - intros [to subject text html provider]. unfold Mail.sendMail.
    destruct (negb (truthy html) && negb (truthy text)); [ hold | ].
    eapply Holding_bind; [ apply Holding_log | intros _ _ ].
    destruct (String.eqb _ "smtp").
    { apply Holding_try_catch; [ | intros e; hold ].
      eapply Holding_bind; [ apply sendEmailViaSmtp_holds | intros _ _; hold ]. }
    destruct (String.eqb _ "ews"); [ | hold ].
    destruct (negb _); [ hold | ].
    apply Holding_try_catch; [ | intros e; hold ].
    eapply Holding_bind; [ apply sendEmailViaEWS_holds | intros _ _; hold ].
  - unfold Mail.verifyMailTransporter.
    eapply Holding_bind with (R := fun _ => True).
    { apply Holding_try_catch; [ | intros e; hold ].
      eapply Holding_bind; [ apply verifySmtpTransporter_holds | intros _ _; hold ]. }
    intros errors _.
    eapply Holding_bind with (R := fun _ => True); [ hold | intros errors' _ ].
    hold.
Qed.

End Singleton.

(** ** The errors of startup *)

Section StartupErrors.
Variable world : World.
Variable config : Env.MailConfig.

(** What leaves [verifySmtpTransporter]: the error of the failed step, as the
    cause of an [SMTPConfigError]. *)
Lemma verifySmtpTransporter_error (s s' : State) (v : Value) :
  Smtp.verifySmtpTransporter world config s = (Throw v, s') ->
  exists cause,
    failedStep world config s = Some cause
    /\ v = ErrorObject SMTPConfigError "Failed to verify SMTP transporter" cause.
Proof.
  unfold Smtp.verifySmtpTransporter, Smtp.getTransporter, failedStep, relayTransporter.
  unfold Eff.bind, try_catch, getState, emit, log, attempt, setTransporter, ret, throw.
  destruct s as [held events]. cbn.
  destruct held as [t | ]; cbn.
  - destruct (verify world t) as [e | ]; cbn; [ | discriminate ].
    intros H. injection H as <- _. now exists e.
  - destruct (Env.transport config) as [url tls auth | host port secure tls auth]; cbn;
      (destruct (createTransport world _) as [e | ]; cbn;
       [ intros H; injection H as <- _; now exists e | ]);
      (destruct (verify world _) as [e | ]; cbn; [ | discriminate ]);
      intros H; injection H as <- _; now exists e.
Qed.

(** X20. The errors of startup: when [verifyMailTransporter] throws, either the
    default provider is the relay and the error is the very [SMTPConfigError]
    of the relay verification, "Failed to verify SMTP transporter", whose
    cause is the error of the step that failed: of the creation of the
    transporter, when none was held yet, or else of the transporter's
    [verify]; or the default provider is Exchange, whose configuration is
    absent, and the error is a plain [Error] that says so, without a
    cause. *)
Theorem verifyMailTransporter_error (s s' : State) (v : Value) :
  Mail.verifyMailTransporter world config s = (Throw v, s') ->
  (Env.defaultProvider config = "smtp"
   /\ fst (Smtp.verifySmtpTransporter world config s) = Throw v
   /\ exists cause,
        failedStep world config s = Some cause
        /\ v = ErrorObject SMTPConfigError "Failed to verify SMTP transporter" cause)
  \/ (Env.defaultProvider config = "ews"
      /\ Env.exchange config = None
      /\ v = ErrorObject PlainError
               "Default provider is EWS but Exchange configuration is missing" Undefined).
Proof.
  destruct (Smtp.verifySmtpTransporter world config s) as [r s1] eqn:Hrelay.
  rewrite (verifyMailTransporter_outcome world config s s1 r Hrelay). cbv zeta.
  destruct (threw r && String.eqb (Env.defaultProvider config) "smtp") eqn:Hfirst.
  - apply andb_prop in Hfirst as [Hthrew Hsmtp]. apply String.eqb_eq in Hsmtp.
    intros H. injection H as -> _. left. split; [ exact Hsmtp | split; [ reflexivity | ] ].
    exact (verifySmtpTransporter_error s s1 v Hrelay).
  - destruct (String.eqb (Env.defaultProvider config) "ews"
              && negb (bool_decide (is_Some (Env.exchange config)))) eqn:Hsecond;
      [ | discriminate ].
    apply andb_prop in Hsecond as [Hews Habsent]. apply String.eqb_eq in Hews.
    intros H. injection H as <- _. right. split; [ exact Hews | split; [ | reflexivity ] ].
    destruct (Env.exchange config); [ | reflexivity ].
    rewrite bool_decide_eq_true_2 in Habsent by eauto. discriminate.
Qed.

End StartupErrors.

(** ** The sanitiser on an empty body *)

Section EmptyBody.
Import Html.

Lemma blank_tokens (input : string) :
  blank input = true ->
  exists spaces, tokenize input = Some (map Chr spaces ++ [EOF])%list
                 /\ forallb isSpace spaces = true.
Proof.
  unfold tokenize. induction input as [ | c rest IH ]; cbn [blank tokenizeFrom].
  - exists []. split; reflexivity.
  - intros H. apply andb_prop in H as [Hc Hrest].
    destruct (IH Hrest) as (spaces & Htok & Hspaces).
    exists (c :: spaces). cbn [map forallb]. rewrite Hc, Hspaces. split; [ | reflexivity ].
    assert (Hstep : tokenStep Data c = Some (Data, [Chr c])).
    { unfold isSpace in Hc. unfold tokenStep, plainChar.
      destruct c as [[] [] [] [] [] [] [] []]; try discriminate; reflexivity. }
    rewrite Hstep, Htok. reflexivity.
Qed.

Lemma blank_parse (input : string) :
  blank input = true ->
  parse input = Some (Element "html" [] [Element "head" [] []; Element "body" [] []]).
Proof.
  intros Hblank. destruct (blank_tokens input Hblank) as (spaces & Htok & Hspaces).
  unfold parse. rewrite Htok. f_equal.
  rewrite fold_left_app.
  assert (Hskip : fold_left treeStep (map Chr spaces) start = start).
  { clear Htok. induction spaces as [ | c spaces IH ]; [ reflexivity | ].
    cbn [forallb] in Hspaces. apply andb_prop in Hspaces as [Hc Hspaces].
    cbn [map fold_left]. unfold treeStep at 2. cbn [mode start]. rewrite Hc. now apply IH. }
  rewrite Hskip. reflexivity.
Qed.

End EmptyBody.

Section Fallback.
Context {cheerio : Ews.Cheerio}.
Hypothesis agrees : Html.Agrees cheerio.

(** X21. When the parsed document has an empty body, the sanitiser falls back to
    the whole document: its output is the serialised document with its root
    tags, after the head style when there is one. So markup of white space
    only comes out as the empty document. *)
Theorem sanitizeHtmlForEWS_empty_body :
  (forall input doc,
     Html.parse input = Some doc -> Html.bodyChildren doc = [] ->
     Ews.sanitizeHtmlForEWS input
     = (if truthy (Some (Html.headStyleText doc))
        then "<style>" +:+ Html.headStyleText doc +:+ "</style>" +:+ LF
        else "") +:+ Html.outerHtml doc)
  /\ (forall input, blank input = true -> Ews.sanitizeHtmlForEWS input = emptyDocument).
Proof.
  assert (Hgeneral : forall input doc,
     Html.parse input = Some doc -> Html.bodyChildren doc = [] ->
     Ews.sanitizeHtmlForEWS input
     = (if truthy (Some (Html.headStyleText doc))
        then "<style>" +:+ Html.headStyleText doc +:+ "</style>" +:+ LF
        else "") +:+ Html.outerHtml doc).
  { intros input doc Hparse Hempty.
    rewrite (sanitize_on_fragment agrees input doc Hparse).
    unfold Ews.sanitizeHtmlForEWS.
    cbn [Ews.load Ews.selectHtml Ews.rootHtml Html.model].
    rewrite Hparse. cbn [String.eqb Ascii.eqb Bool.eqb].
    assert (Hstyles : Ews.or_else (Html.headStyleHtml doc) "" = Html.headStyleText doc).
    { rewrite or_else_empty. unfold Html.headStyleHtml, Html.headStyleText.
      destruct (head _); reflexivity. }
    assert (Hbody : Ews.or_else (Html.bodyHtml doc) (Html.outerHtml doc) = Html.outerHtml doc).
    { unfold Html.bodyHtml, Html.bodyChildren in *.
      pose proof (elementsNamed_named "body" doc) as Hnamed.
      destruct (Html.elementsNamed "body" doc) as [ | n rest ]; [ reflexivity | ].
      apply Forall_inv in Hnamed as (attributes & children & ->).
      cbn [head] in Hempty. subst children. reflexivity. }
    rewrite Hstyles, Hbody.
    destruct (truthy (Some (Html.headStyleText doc))); [ | reflexivity ].
    now rewrite !append_associative. }
  split; [ exact Hgeneral | ].
  intros input Hblank.
  rewrite (Hgeneral input _ (blank_parse input Hblank) eq_refl). reflexivity.
Qed.

End Fallback.

(** ** The Exchange-only dispatcher *)

Section ExchangeStateless.
Context {cheerio : Ews.Cheerio}.
Variable world : World.
Variable config : Env.MailConfig.

(** The Exchange adapter neither reads nor writes the state. *)
Lemma sendEmailViaEWS_uniform (payload : EWSEmailPayload) :
  exists r added, Stateless (Ews.sendEmailViaEWS world config payload) r added.
Proof.
  exists (fst (Ews.sendEmailViaEWS world config payload initial)),
         (trace (snd (Ews.sendEmailViaEWS world config payload initial))).
  intros s. unfold Ews.sendEmailViaEWS, Ews.createExchangeService.
  unfold Eff.bind, try_catch, lift, emit, log, attempt, ret, throw. cbn.
  destruct (Ews.resolveConfig config) as [cfg | e0]; [ | reflexivity ].
  destruct (newExchangeService world _) as [e1 | ]; cbn; [ now rewrite <- !app_assoc | ].
  destruct (newEmailMessage world _) as [e2 | ]; cbn; [ now rewrite <- !app_assoc | ].
  destruct (truthy (ews_html payload)).
  - destruct (newMessageBody world HTML _) as [e3 | ]; cbn; [ now rewrite <- !app_assoc | ].
    destruct (sendAndSaveCopy world _) as [e4 | ]; cbn; [ | now rewrite <- !app_assoc ].
    repeat match goal with
           | |- context [if ?b then _ else _] => destruct b
           end; cbn; now rewrite <- !app_assoc.
  - destruct (truthy (ews_text payload)); [ | cbn; now rewrite <- !app_assoc ].
    destruct (newMessageBody world Text _) as [e3 | ]; cbn; [ now rewrite <- !app_assoc | ].
    destruct (sendAndSaveCopy world _) as [e4 | ]; cbn; [ | now rewrite <- !app_assoc ].
    repeat match goal with
           | |- context [if ?b then _ else _] => destruct b
           end; cbn; now rewrite <- !app_assoc.
Qed.

(** What the Exchange-only [sendMail] makes of the completion of the
    adapter. *)
Lemma exchange_only_outcome (input : MailExchange.SendMailInput) (s s2 : State)
      (r : Completion unit) :
  truthy (MailExchange.html input) || truthy (MailExchange.text input) = true ->
  Ews.sendEmailViaEWS world config
    {| ews_to := MailExchange.to input;
       ews_subject := Mail.prefixedSubject (MailExchange.subject input);
       ews_fromName := Some (Env.name (Env.sender config));
       ews_text := if truthy (MailExchange.text input) then MailExchange.text input else None;
       ews_html := if truthy (MailExchange.html input) then MailExchange.html input else None |}
    s = (r, s2) ->
  match r with
  | Normal _ =>
      MailExchange.sendMail world config input s
      = (Normal tt, logged s2 "info" "Mail dispatched via Exchange")
  | Throw e =>
      exists line,
        MailExchange.sendMail world config input s
        = (Throw (newErrorCause MailSendError "Failed to send email" e), logged s2 "error" line)
  end.
Proof.
  intros Hc Hrun. destruct input as [to subject text html]; cbn in *.
  assert (Hn : negb (truthy html) && negb (truthy text) = false)
    by (destruct (truthy html), (truthy text); cbn in *; congruence).
  unfold MailExchange.sendMail. rewrite Hn.
  unfold try_catch, Eff.bind.
  unfold Mail.prefixedSubject, Mail.DEFAULT_SUBJECT_PREFIX in Hrun.
  unfold MailExchange.DEFAULT_SUBJECT_PREFIX. rewrite Hrun.
  destruct r as [[] | e].
  - reflexivity.
  - destruct (instanceof e EWSConfigError); [ eexists; reflexivity | ].
    destruct (instanceof e EWSConnectionError); [ eexists; reflexivity | ].
    destruct (instanceof e EWSSendError); eexists; reflexivity.
Qed.

(** X22. The dispatcher of both providers against the Exchange-only one. On a
    request that it routes to Exchange, with the Exchange configuration
    present, [sendMail] does what the Exchange-only [sendMail] does on the
    same request: both succeed, or both throw a [MailSendError] with the same
    cause; they add the same adapter events, so the same payload reaches the
    adapter and the same message is submitted. Only log lines and the
    message of the wrapping error differ. *)
Theorem sendMail_as_exchange_only (input : Mail.SendMailInput) (s : State) :
  Mail.selectedProvider (Mail.provider input) config = "ews" ->
  is_Some (Env.exchange config) ->
  let both := Mail.sendMail world config input s in
  let only := MailExchange.sendMail world config (withoutProvider input) s in
  ((fst both = Normal tt /\ fst only = Normal tt)
   \/ exists message message' cause,
        fst both = Throw (ErrorObject MailSendError message cause)
        /\ fst only = Throw (ErrorObject MailSendError message' cause))
  /\ transporter (snd both) = transporter (snd only)
  /\ exists added added',
       added_events s (snd both) added /\ added_events s (snd only) added'
       /\ List.filter adapterEvent added = List.filter adapterEvent added'.
Proof.
  intros Hsel Hex both only.
  destruct (contentPresent input) eqn:Hc.
  2: { subst both only.
       rewrite (sendMail_without_content world config input s Hc).
       unfold contentPresent in Hc. apply orb_false_elim in Hc as [Hh Ht].
       destruct input as [to subject text html provider]; cbn in *.
       unfold MailExchange.sendMail. cbn. rewrite Hh, Ht. cbn.
       split; [ right; do 3 eexists; split; reflexivity | ].
       split; [ reflexivity | ].
       do 2 eexists. split; [ reflexivity | split; reflexivity ]. }
  destruct (sendEmailViaEWS_uniform (ewsPayload config input)) as (r & events & Hrun).
  pose proof (sendMail_ews_outcome world config input s _ r Hc Hsel Hex (Hrun (dispatching s)))
    as Hboth.
  pose proof (exchange_only_outcome (withoutProvider input) s _ r Hc (Hrun s)) as Honly.
  fold both in Hboth. fold only in Honly.
  destruct r as [[] | e].
  - rewrite Hboth, Honly. cbn. split; [ left; split; reflexivity | ].
    split; [ reflexivity | ].
    exists ([Log "info" "Sending email"] ++ events ++ [Log "info" "Mail dispatched via Exchange"])%list,
           (events ++ [Log "info" "Mail dispatched via Exchange"])%list.
    split; [ unfold added_events; cbn; now rewrite <- !app_assoc | ].
    split; [ unfold added_events; cbn; now rewrite <- !app_assoc | ].
    reflexivity.
  - destruct Hboth as (line & Hboth). destruct Honly as (line' & Honly).
    rewrite Hboth, Honly. cbn. split; [ right; do 3 eexists; split; reflexivity | ].
    split; [ reflexivity | ].
    exists ([Log "info" "Sending email"] ++ events ++ [Log "error" line])%list,
           (events ++ [Log "error" line'])%list.
    split; [ unfold added_events; cbn; now rewrite <- !app_assoc | ].
    split; [ unfold added_events; cbn; now rewrite <- !app_assoc | ].
    cbn. rewrite !List.filter_app. reflexivity.
Qed.

(** X23. The Exchange-only revision has no presence check before the adapter: a
    request with content, sent while the Exchange configuration is absent or
    incomplete, enters the adapter with its payload (recipient and content
    of the request, prefixed subject, sender name) and comes back as a
    [MailSendError] whose cause is the adapter's [EWSConfigError], which
    names the first missing setting, in the order URL, user name, password,
    from-address; nothing is submitted. *)
Theorem exchange_only_unconfigured (input : MailExchange.SendMailInput) (s : State) :
  truthy (MailExchange.html input) || truthy (MailExchange.text input) = true ->
  exchangeComplete config = false ->
  exists name,
    firstMissing config = Some name
    /\ MailExchange.sendMail world config input s
       = (Throw (ErrorObject MailSendError "Failed to send email"
                   (ErrorObject EWSConfigError (name +:+ " is not set") Undefined)),
          logged (entered s (CallSendEmailViaEWS (exchangeOnlyPayload config input))) "error"
                 "Exchange configuration error").
Proof.
  intros Hc Hincomplete.
  destruct (resolveConfig_incomplete config Hincomplete) as (name & Hfirst & _ & Hcfg).
  destruct input as [to subject text html]. cbn in Hc.
  exists name. split; [ exact Hfirst | ].
  assert (Hn : negb (truthy html) && negb (truthy text) = false)
    by (destruct (truthy html), (truthy text); cbn in *; congruence).
  unfold MailExchange.sendMail. rewrite Hn. unfold try_catch, Eff.bind.
  rewrite (sendEmailViaEWS_unresolved world config _ s _ Hcfg). reflexivity.
Qed.

End ExchangeStateless.

(** ** The route *)

Section Schema.
Variable isEmail : string -> bool.

Lemma stringOfLength_result (least most : Z) (value : Routes.Json) (s : string) :
  Routes.stringOfLength least most value = Some s ->
  value = Routes.JString s /\ (least <= stringLength s <= most)%Z.
Proof.
  destruct value as [given | ]; [ | discriminate ]. unfold Routes.stringOfLength.
  destruct (least <=? stringLength given)%Z eqn:Hl; [ | discriminate ].
  destruct (stringLength given <=? most)%Z eqn:Hm; [ | discriminate ].
  cbn. intros H. injection H as <-. split; [ reflexivity | lia ].
Qed.

Lemma optionalMember_result (least most : Z) (value : option Routes.Json)
      (result : option string) :
  Routes.optionalMember (Routes.stringOfLength least most) value = Some result ->
  match result with
  | Some s => textWithin least most value s
  | None => value = None
  end.
Proof.
  destruct value as [given | ]; cbn.
  - destruct (Routes.stringOfLength least most given) as [s | ] eqn:Hs; [ | discriminate ].
    intros H. injection H as <-. apply stringOfLength_result in Hs as [-> Hlen].
    split; [ reflexivity | exact Hlen ].
  - intros H. now injection H as <-.
Qed.

(** X24. What the schema lets through: the recipient is a string in the address
    format; the subject is a string of a length of 2 to 120; the text and the
    HTML, where they are given, are strings of a length of 2 to 1000 and of 2
    to 5000; and one of the two is given. The length is that of JavaScript,
    in UTF-16 code units: an accented letter counts once, a character beyond
    the Basic Multilingual Plane twice. A payload that passes therefore has
    content; a member that is given must be valid even when the other one
    would do; and a subject of another length is refused. *)
Theorem mailRequestSchema_payload (body : Routes.Body) :
  (forall payload, Routes.mailRequestSchema isEmail body = Some payload ->
     (Routes.body_to body = Some (Routes.JString (MailRelay.to payload))
      /\ isEmail (MailRelay.to payload) = true)
     /\ textWithin 2 120 (Routes.body_subject body) (MailRelay.subject payload)
     /\ match MailRelay.text payload with
        | Some text => textWithin 2 1000 (Routes.body_text body) text
        | None => Routes.body_text body = None
        end
     /\ match MailRelay.html payload with
        | Some html => textWithin 2 5000 (Routes.body_html body) html
        | None => Routes.body_html body = None
        end
     /\ truthy (MailRelay.text payload) || truthy (MailRelay.html payload) = true)
  /\ (Routes.body_text body = Some (Routes.JString "") ->
      Routes.mailRequestSchema isEmail body = None)
  /\ (forall subject,
        Routes.body_subject body = Some (Routes.JString subject) ->
        (stringLength subject < 2 \/ 120 < stringLength subject)%Z ->
        Routes.mailRequestSchema isEmail body = None).
Proof.
  unfold Routes.mailRequestSchema. split; [ | split ].
  - intros payload.
    destruct (Routes.member (Routes.email isEmail) (Routes.body_to body)) as [to | ] eqn:Hto;
      [ | discriminate ].
    destruct (Routes.member (Routes.stringOfLength 2 120) (Routes.body_subject body))
      as [subject | ] eqn:Hsubject; [ | discriminate ].
    destruct (Routes.optionalMember (Routes.stringOfLength 2 1000) (Routes.body_text body))
      as [text | ] eqn:Htext; [ | discriminate ].
    destruct (Routes.optionalMember (Routes.stringOfLength 2 5000) (Routes.body_html body))
      as [html | ] eqn:Hhtml; [ | discriminate ].
    destruct (truthy text || truthy html) eqn:Hcontent; [ | discriminate ].
    intros H. injection H as <-. cbn.
    split; [ | split; [ | split; [ | split; [ | exact Hcontent ] ] ] ].
    + destruct (Routes.body_to body) as [[given | ] | ]; try discriminate. cbn in Hto.
      destruct (isEmail given) eqn:Hgiven; [ | discriminate ].
      injection Hto as <-. split; [ reflexivity | exact Hgiven ].
    + destruct (Routes.body_subject body) as [given | ]; [ | discriminate ]. cbn in Hsubject.
      apply stringOfLength_result in Hsubject as [-> Hlen]. split; [ reflexivity | exact Hlen ].
    + now apply optionalMember_result.
    + now apply optionalMember_result.
  - intros ->. cbn.
    destruct (Routes.member _ _); [ | reflexivity ].
    destruct (Routes.member _ _); reflexivity.
  - intros subject -> Hlength. cbn [Routes.member Routes.stringOfLength].
    destruct (Routes.member _ _); [ | reflexivity ].
    destruct ((2 <=? stringLength subject)%Z && (stringLength subject <=? 120)%Z) eqn:Hin;
      [ | reflexivity ].
    apply andb_prop in Hin as [Hleast Hmost]. lia.
Qed.

End Schema.

Section Route.
Variable isEmail : string -> bool.
Variable world : World.
Variable config : Env.MailConfig.

(** What leaves the relay-only [sendMail] is a [MailSendError]. *)
Lemma relay_sendMail_throws (payload : MailRelay.SendMailInput) :
  Throws (fun v => instanceof v MailSendError = true) (MailRelay.sendMail world config payload).
Proof. unfold MailRelay.sendMail. walk. Qed.

(** The messages of the relay-only [sendMail]. *)
Lemma relay_sendMail_message (P : Event -> Prop) (payload : MailRelay.SendMailInput) :
  P (Log "info" "Email dispatched") ->
  P (Log "error" "Failed to send email through transporter") ->
  (forall t, P (CreateTransport t)) ->
  (forall t, P (TransporterSendMail t (mailOptionsOf config payload))) ->
  Run P (fun _ => True) (MailRelay.sendMail world config payload).
Proof.
  intros Hdone Hfailed Hcreate Hsend. unfold MailRelay.sendMail.
  apply Run_try_catch.
  - apply Run_bind with (R := fun _ => True); [ now apply Run_getTransporter | intros t _ ].
    apply Run_bind with (R := fun _ => True); [ apply Run_emit; [ apply Hsend | exact I ] | intros _ _ ].
    apply Run_bind with (R := fun _ => True); [ apply Run_quiet; auto | intros info _ ].
    apply Run_bind with (R := fun _ => True); [ now apply Run_log | intros _ _ ].
    now apply Run_ret.
  - intros e. apply Run_bind with (R := fun _ => True); [ now apply Run_log | intros _ _ ].
    apply Run_throw.
Qed.

(** X25. No mail without a valid body and the API key: a body that fails the
    schema is rejected before the handler runs, whatever the key; and a
    request whose x-api-key header is missing or differs from the configured
    key is answered 401 "Unauthorized" after one warning line. In both cases
    the transporter is not touched and nothing is handed to nodemailer. *)
Theorem postSendEmail_guards (apiKey requestId : option string) (body : Routes.Body) (s : State) :
  (Routes.mailRequestSchema isEmail body = None ->
   Routes.postSendEmail isEmail world config apiKey requestId body s = (Normal Routes.Rejected, s))
  /\ (is_Some (Routes.mailRequestSchema isEmail body) ->
      apiKey <> Some (Env.apiKey config) ->
      Routes.postSendEmail isEmail world config apiKey requestId body s
      = (Normal (Routes.Handled unauthorized), logged s "warn" "Unauthorized request")).
Proof.
  unfold Routes.postSendEmail. split.
  - intros ->. reflexivity.
  - intros [payload ->] Hkey. unfold Routes.handler.
    rewrite bool_decide_eq_false_2 by exact Hkey. reflexivity.
Qed.


End Route.

(** ** The entry point *)

Section EntryPoint.
Variable world : World.
Variable config : Env.MailConfig.
Variable appConfig : Env.AppConfig.

(** What the entry point makes of the completion of the verification. *)
Lemma main_outcome (verification : M unit) (s : State) :
  Server.main verification appConfig s
  = match verification s with
    | (Normal _, s1) =>
        (Normal (Server.Serving (Env.port appConfig)),
         logged s1 "info" "Mail service is running")
    | (Throw _, s1) =>
        (Normal (Server.Exit 1), logged s1 "fatal" "Failed to start mail service")
    end.
Proof.
  unfold Server.main, Server.startServer, try_catch, Eff.bind.
  destruct (verification s) as [[[] | e] s1]; reflexivity.
Qed.


End EntryPoint.

(** ** The client *)

Section ClientErrors.
Context {web : Client.Web}.

(** X28. The errors of the client. Whatever [sendEmail] throws is an [Error]
    object, also when [fetch] rejects with something else. A request with
    neither text nor HTML is refused before any call of [fetch]. An answer
    with status 401 is reported as "Unauthorized: Invalid API key" whatever
    its body says; another answer that is not ok, whose body cannot be parsed,
    is reported by its status. *)
Theorem sendEmail_errors (client : Client.EmailServiceClient) (request : Client.SendEmailRequest) :
  (forall v calls, Client.sendEmail client request = (Throw v, calls) -> instanceofError v = true)
  /\ (truthy (Client.text request) = false -> truthy (Client.html request) = false ->
      Client.sendEmail client request
      = (Throw (ErrorObject PlainError "Either text or html must be provided" Undefined), []))
  /\ (forall response,
        truthy (Client.text request) || truthy (Client.html request) = true ->
        Client.fetch (posted client request) = Normal response ->
        Client.ok response = false ->
        fst (Client.sendEmail client request)
        = if (Client.status response =? 401)%Z
          then Throw (ErrorObject PlainError "Unauthorized: Invalid API key" Undefined)
          else match Client.json response with
               | Throw _ =>
                   Throw (ErrorObject PlainError
                            ("HTTP error! status: " +:+ Client.numberToString (Client.status response))
                            Undefined)
               | Normal data =>
                   match Client.members data with
                   | None => Throw (ErrorObject (LibraryError "TypeError") Client.nullMemberMessage
                                      Undefined)
                   | Some (error, message) =>
                       Throw (ErrorObject PlainError
                                (Client.asString
                                   (Client.orElse error
                                      (Client.orElse message
                                         {| Client.isTruthy := true;
                                            Client.asString :=
                                              "HTTP error! status: "
                                              +:+ Client.numberToString (Client.status response) |})))
                                Undefined)
                   end
               end).
Proof.
  unfold Client.sendEmail. fold (posted client request).
  split; [ | split ].
  - intros v calls.
    destruct (negb (truthy (Client.text request)) && negb (truthy (Client.html request))).
    { intros H. now injection H as <- _. }
    destruct (Client.fetch (posted client request)) as [response | e] eqn:Hfetch; cbn [Js.bind].
    + destruct (negb (Client.ok response)).
      * destruct (Client.status response =? 401)%Z.
        { intros H. now injection H as <- _. }
        destruct (Client.json response) as [data | e].
        -- destruct (Client.members data) as [[error message] | ]; intros H; now injection H as <- _.
        -- intros H. now injection H as <- _.
      * destruct (Client.json response) as [data | e]; [ discriminate | ].
        destruct (instanceofError e) eqn:He; intros H; injection H as <- _;
          [ exact He | reflexivity ].
    + destruct (instanceofError e) eqn:He; intros H; injection H as <- _;
        [ exact He | reflexivity ].
  - intros -> ->. reflexivity.
  - intros response Hc Hfetch Hok.
    assert (Hn : negb (truthy (Client.text request)) && negb (truthy (Client.html request))
                 = false)
      by (destruct (truthy (Client.text request)), (truthy (Client.html request));
          cbn in *; congruence).
    rewrite Hn, Hfetch. cbn [Js.bind]. rewrite Hok. cbn [negb fst].
    destruct (Client.status response =? 401)%Z; [ reflexivity | ].
    destruct (Client.json response) as [data | e]; [ | reflexivity ].
    destruct (Client.members data) as [[error message] | ]; reflexivity.
Qed.

(** X29. The endpoint. Whether the base URL is given with a slash at its end or
    without, a request with content makes one call of [fetch]: a POST to the
    base URL followed by "/send-email", with the API key in the x-api-key
    header and the request as the body. The constructor removes one slash
    only. *)
Theorem sendEmail_endpoint (base key : string) (request : Client.SendEmailRequest) :
  truthy (Client.text request) || truthy (Client.html request) = true ->
  endsWithSlash base = false ->
  let call :=
    {| Client.url := base +:+ "/send-email";
       Client.method := Some "POST";
       Client.headers := [("Content-Type", "application/json"); ("x-api-key", key)];
       Client.body := Some request |} in
  snd (Client.sendEmail (Client.newClient base key) request) = [call]
  /\ snd (Client.sendEmail (Client.newClient (base +:+ "/") key) request) = [call]
  /\ Client.baseUrl (Client.newClient (base +:+ "//") key) = base +:+ "/".
Proof.
  intros Hc Hbase call.
  assert (Hn : negb (truthy (Client.text request)) && negb (truthy (Client.html request))
               = false)
    by (destruct (truthy (Client.text request)), (truthy (Client.html request));
        cbn in *; congruence).
  assert (Hkeep : Client.withoutTrailingSlash base = base).
  { unfold Client.withoutTrailingSlash. unfold endsWithSlash in Hbase.
    destruct (String.rev base) as [ | c rest ]; [ reflexivity | ].
    destruct (Ascii.eqb_spec c "/") as [-> | Hne]; [ discriminate | ].
    destruct c as [[] [] [] [] [] [] [] []]; try reflexivity. now destruct Hne. }
  assert (Hstrip : forall s, Client.withoutTrailingSlash (s +:+ "/") = s).
  { intros s. unfold Client.withoutTrailingSlash. rewrite rev_append. cbn.
    apply rev_rev. }
  unfold Client.sendEmail, Client.newClient. cbn [Client.baseUrl Client.apiKey].
  rewrite Hn, Hkeep, Hstrip. split; [ reflexivity | split; [ reflexivity | ] ].
  change (base +:+ "//") with (base +:+ ("/" +:+ "/")).
  rewrite <- append_associative. apply Hstrip.
Qed.

End ClientErrors.

(** ** The properties at work *)

Lemma config_settings_in_range_witness :
  exists c,
    Env.config (platform := decimalPlatform) decimal production None = Normal c
    /\ Env.nodeEnv c = "production"
    /\ Env.logLevel c = "info"
    /\ Env.logFormat c = "json"
    /\ (1 <= Env.port c <= 65535)%Z.
Proof.
  eexists. split; [ vm_compute; reflexivity | ].
  match goal with
  | |- Env.nodeEnv ?c = _ /\ _ =>
      destruct (config_settings_in_range (platform := decimalPlatform) decimal production None c)
        as ((_ & Hnode) & (_ & Hlevel) & (_ & Hformat) & Hport & _)
  end.
  - vm_compute. reflexivity.
  - split; [ rewrite Hnode; vm_compute; reflexivity | ].
    split; [ rewrite Hlevel; vm_compute; reflexivity | ].
    split; [ rewrite Hformat; vm_compute; reflexivity | exact Hport ].
Defined.

Lemma parseMailTransport_connection_url_witness :
  exists parsed,
    Env.parseMailTransport (platform := decimalPlatform) relayByUrl = Normal parsed
    /\ exists requireTLS,
         Env.optionalBoolean relayByUrl "SMTP_REQUIRE_TLS" = Normal requireTLS
         /\ Env.p_transport parsed
            = Env.UrlTransport "smtps://relay.example.com:465" requireTLS (Env.p_auth parsed).
Proof.
  eexists. split; [ vm_compute; reflexivity | ].
  match goal with
  | |- exists requireTLS, _ /\ Env.p_transport ?parsed = _ =>
      destruct (parseMailTransport_connection_url (platform := decimalPlatform) relayByUrl
                  "smtps://relay.example.com:465") as (Hparsed & _);
        [ vm_compute; reflexivity | ];
        destruct (Hparsed parsed) as (_ & Hurl); [ vm_compute; reflexivity | exact Hurl ]
  end.
Defined.

Lemma sendMail_unsupported_provider_witness :
  Mail.sendMail (cheerio := Html.model) calm withExchange
                (request (Some "hey") None (Some "sendgrid")) initial
  = (Throw (ErrorObject MailSendError "Unsupported provider: sendgrid" Undefined),
     dispatching initial).
Proof.
  apply (sendMail_unsupported_provider (cheerio := Html.model) calm withExchange
           (request (Some "hey") None (Some "sendgrid")) initial);
    [ reflexivity | discriminate | discriminate ].
Defined.

Lemma sendMail_succeeds_with_adapter_witness :
  threw (fst (Mail.sendMail (cheerio := Html.model) calm withExchange
                (request (Some "hey") None (Some "smtp")) initial)) = false
  /\ threw (fst (Mail.sendMail (cheerio := Html.model) stormy withExchange
                   (request (Some "hey") None None) initial)) = true.
Proof.
  split.
  - destruct (sendMail_succeeds_with_adapter (cheerio := Html.model) calm withExchange
                (request (Some "hey") None (Some "smtp")) initial eq_refl) as (Hsmtp & _).
    rewrite Hsmtp by reflexivity. vm_compute. reflexivity.
  - destruct (sendMail_succeeds_with_adapter (cheerio := Html.model) stormy withExchange
                (request (Some "hey") None None) initial eq_refl) as (_ & Hews).
    rewrite Hews; [ vm_compute; reflexivity | reflexivity | eexists; reflexivity ].
Defined.

Lemma sendEmailViaEWS_incomplete_configuration_witness :
  Ews.sendEmailViaEWS (cheerio := Html.model) calm withoutPassword textOnly initial
  = (Throw (ErrorObject EWSConfigError "EXCHANGE_PASSWORD is not set" Undefined),
     entered initial (CallSendEmailViaEWS textOnly))
  /\ exists s',
       Mail.sendMail (cheerio := Html.model) calm withoutPassword
         (request (Some "hey") None None) initial
       = (Throw (ErrorObject MailSendError "Failed to send email via Exchange"
                   (ErrorObject EWSConfigError "EXCHANGE_PASSWORD is not set" Undefined)), s').
Proof.
  destruct (sendEmailViaEWS_incomplete_configuration (cheerio := Html.model) calm
              withoutPassword textOnly initial eq_refl)
    as (name & Hfirst & _ & Hrun & Hsend).
  vm_compute in Hfirst. injection Hfirst as <-.
  split; [ exact Hrun | ].
  apply (Hsend (request (Some "hey") None None));
    [ reflexivity | reflexivity | eexists; reflexivity ].
Defined.

Lemma sendEmailViaEWS_send_failure_witness :
  exists error,
    sendAndSaveCopy refusing
      {| msg_head := {| msg_service := {| svc_username := "svc"; svc_password := "pw";
                                          svc_url := "https://mail.example.com/EWS/Exchange.asmx" |};
                        msg_fromName := "Mail Service";
                        msg_fromAddress := "svc@example.com";
                        msg_to := "a@b.com";
                        msg_subject := "[Djazairmed] Hello" |};
         msg_bodyType := Text;
         msg_body := "hey" |}
    = Some error
    /\ cause_of (ErrorObject EWSSendError "Failed to send email: Authentication failed"
                   (ErrorObject PlainError "Authentication failed" Undefined)) = error
    /\ (if connectionFailure (messageOf error)
        then instanceof (ErrorObject EWSSendError "Failed to send email: Authentication failed"
                           (ErrorObject PlainError "Authentication failed" Undefined))
                        EWSConnectionError = true
        else ErrorObject EWSSendError "Failed to send email: Authentication failed"
               (ErrorObject PlainError "Authentication failed" Undefined)
             = ErrorObject EWSSendError ("Failed to send email: " +:+ messageOf error) error).
Proof.
  eapply (sendEmailViaEWS_send_failure (cheerio := Html.model) refusing withExchange
            textOnly initial).
  - vm_compute. reflexivity.
  - reflexivity.
  - right. left. reflexivity.
Defined.

Lemma sendEmailViaEWS_without_content_witness :
  exists s',
    Ews.sendEmailViaEWS (cheerio := Html.model) calm withExchange contentless initial
    = (Throw (ErrorObject EWSSendError
                "Failed to create email message: Email must have either text or html content"
                (ErrorObject EWSSendError "Email must have either text or html content"
                   Undefined)), s').
Proof.
  destruct (sendEmailViaEWS_without_content (cheerio := Html.model) calm withExchange
              contentless eq_refl eq_refl) as (_ & _ & Hexact).
  apply Hexact; reflexivity.
Defined.

Lemma transporter_is_kept_witness :
  transporter
    (snd (Mail.sendMail (cheerio := Html.model) stormy relayOnly
            (request (Some "hey") None None) {| transporter := Some inPlace; trace := [] |}))
  = Some inPlace.
Proof.
  destruct (transporter_is_kept (cheerio := Html.model) stormy relayOnly inPlace)
    as (Hsend & _).
  apply (Hsend (request (Some "hey") None None) {| transporter := Some inPlace; trace := [] |}).
  reflexivity.
Defined.

Lemma verifyMailTransporter_error_witness :
  (Env.defaultProvider relayOnly = "smtp"
   /\ fst (Smtp.verifySmtpTransporter stormy relayOnly initial)
      = Throw (ErrorObject SMTPConfigError "Failed to verify SMTP transporter"
                 (ErrorObject PlainError "connect ECONNREFUSED" Undefined))
   /\ exists cause,
        failedStep stormy relayOnly initial = Some cause
        /\ ErrorObject SMTPConfigError "Failed to verify SMTP transporter"
             (ErrorObject PlainError "connect ECONNREFUSED" Undefined)
           = ErrorObject SMTPConfigError "Failed to verify SMTP transporter" cause)
  \/ (Env.defaultProvider relayOnly = "ews"
      /\ Env.exchange relayOnly = None
      /\ ErrorObject SMTPConfigError "Failed to verify SMTP transporter"
           (ErrorObject PlainError "connect ECONNREFUSED" Undefined)
         = ErrorObject PlainError
             "Default provider is EWS but Exchange configuration is missing" Undefined).
Proof.
  eapply (verifyMailTransporter_error stormy relayOnly initial).
  vm_compute. reflexivity.
Defined.

Lemma sanitizeHtmlForEWS_empty_body_witness :
  Ews.sanitizeHtmlForEWS (cheerio := Html.model) "<style>a</style>"
  = "<style>a</style>" +:+ LF +:+ "<html><head><style>a</style></head><body></body></html>"
  /\ Ews.sanitizeHtmlForEWS (cheerio := Html.model) "  " = emptyDocument.
Proof.
  destruct (sanitizeHtmlForEWS_empty_body (cheerio := Html.model) model_agrees)
    as (Hgeneral & Hblank).
  split.
  - erewrite Hgeneral; [ | vm_compute; reflexivity | vm_compute; reflexivity ].
    vm_compute. reflexivity.
  - apply Hblank. reflexivity.
Defined.

Lemma sendMail_as_exchange_only_witness :
  let both := Mail.sendMail (cheerio := Html.model) stormy withExchange
                (request (Some "hey") None None) initial in
  let only := MailExchange.sendMail (cheerio := Html.model) stormy withExchange
                (withoutProvider (request (Some "hey") None None)) initial in
  ((fst both = Normal tt /\ fst only = Normal tt)
   \/ exists message message' cause,
        fst both = Throw (ErrorObject MailSendError message cause)
        /\ fst only = Throw (ErrorObject MailSendError message' cause))
  /\ transporter (snd both) = transporter (snd only)
  /\ exists added added',
       added_events initial (snd both) added /\ added_events initial (snd only) added'
       /\ List.filter adapterEvent added = List.filter adapterEvent added'.
Proof.
  apply (sendMail_as_exchange_only (cheerio := Html.model) stormy withExchange
           (request (Some "hey") None None) initial);
    [ reflexivity | eexists; reflexivity ].
Defined.

Lemma exchange_only_unconfigured_witness :
  MailExchange.sendMail (cheerio := Html.model) calm withoutPassword
    (withoutProvider (request (Some "hey") None None)) initial
  = (Throw (ErrorObject MailSendError "Failed to send email"
              (ErrorObject EWSConfigError "EXCHANGE_PASSWORD is not set" Undefined)),
     logged (entered initial (CallSendEmailViaEWS textOnly)) "error"
            "Exchange configuration error").
Proof.
  destruct (exchange_only_unconfigured (cheerio := Html.model) calm withoutPassword
              (withoutProvider (request (Some "hey") None None)) initial eq_refl eq_refl)
    as (name & Hfirst & Hrun).
  vm_compute in Hfirst. injection Hfirst as <-. exact Hrun.
Defined.

Lemma mailRequestSchema_payload_witness :
  textWithin 2 120 (Routes.body_subject (titled "é😀")) "é😀"
  /\ Routes.mailRequestSchema (fun _ => true) (titled "é") = None.
Proof.
  destruct (mailRequestSchema_payload (fun _ => true) (titled "é😀")) as (Haccepted & _).
  destruct (mailRequestSchema_payload (fun _ => true) (titled "é")) as (_ & _ & Hrefused).
  split.
  - destruct (Haccepted {| MailRelay.to := "a@b.com"; MailRelay.subject := "é😀";
                           MailRelay.text := Some "hey"; MailRelay.html := None |})
      as (_ & Hsubject & _); [ vm_compute; reflexivity | exact Hsubject ].
  - apply (Hrefused "é"); [ reflexivity | left; vm_compute; reflexivity ].
Defined.

Lemma postSendEmail_guards_witness :
  Routes.postSendEmail (fun _ => true) calm relayOnly None (Some "r-1") hello initial
  = (Normal (Routes.Handled unauthorized), logged initial "warn" "Unauthorized request").
Proof.
  destruct (postSendEmail_guards (fun _ => true) calm relayOnly None (Some "r-1") hello initial)
    as (_ & Hkey).
  apply Hkey; [ eexists; vm_compute; reflexivity | discriminate ].
Defined.



Lemma sendEmail_endpoint_witness :
  let call :=
    {| Client.url := "http://localhost:3000/send-email";
       Client.method := Some "POST";
       Client.headers := [("Content-Type", "application/json"); ("x-api-key", "key")];
       Client.body := Some note |} in
  snd (Client.sendEmail (web := offline) (Client.newClient "http://localhost:3000" "key") note)
  = [call]
  /\ snd (Client.sendEmail (web := offline) (Client.newClient "http://localhost:3000/" "key")
            note)
     = [call]
  /\ Client.baseUrl (Client.newClient "http://localhost:3000//" "key")
     = "http://localhost:3000/".
Proof.
  apply (sendEmail_endpoint (web := offline) "http://localhost:3000" "key" note);
    reflexivity.
Defined.
